(** * totter: the genetic-algorithm engine of [totter/evolution/GeneticAlgorithm.py]

    A shallow embedding of the class [GeneticAlgorithm] and of [Individual].

    - Python objects of class [Individual] live in an object store ([heap]);
      the population and [best_indv] hold references into it, so that the
      aliasing between a population slot and [best_indv] is the code's.
    - The module-global generator of [random] is an explicit component of
      the state a call works on, threaded through every operator that may
      draw from it; a [Process] hands it on from call to call, so that the
      engines of a process share it.
    - Fitness values and the backend's measurements are rationals; the
      additions and the division behind the average fitness are the
      interpreter's ([Arithmetic]), which rounds and may overflow.
    - A raised exception is an outcome next to the state the object is left
      in: attributes assigned before the [raise] stay assigned.
    - The eight operators, [QwopEvaluator] and the [random] module are
      interfaces; everything is stated for arbitrary implementations. *)

From Stdlib Require Import ZArith QArith Lia List Bool.
From stdpp Require Import base tactics option list.

Open Scope Z_scope.

(** ** Python values used by the engine *)

(** [a < b] on floats, decided. *)
Definition Qltb (a b : Q) : bool :=
  (Qnum a * Zpos (Qden b) <? Qnum b * Zpos (Qden a))%Z.

Inductive exn : Type :=
| IndexError
| TypeError
| ZeroDivisionError
| AttributeError
| OverflowError.

Inductive result (A : Type) : Type :=
| Ok (a : A)
| Raise (e : exn).
Arguments Ok {A} a.
Arguments Raise {A} e.

(** [a > b] where either side may be [None]: Python 3 raises [TypeError]
    when an operand is [None]. *)
Definition py_gt (a b : option Q) : result bool :=
  match a, b with
  | Some x, Some y => Ok (Qltb y x)
  | _, _ => Raise TypeError
  end.

(** [l[i]] index resolution: negative indices count from the end, anything
    outside [-len, len) is an [IndexError] (here [None]). *)
Definition py_index {A} (l : list A) (i : Z) : option nat :=
  let n := Z.of_nat (length l) in
  if (0 <=? i) && (i <? n) then Some (Z.to_nat i)
  else if (- n <=? i) && (i <? 0) then Some (Z.to_nat (n + i))
  else None.

(** [l[:k]] *)
Definition py_slice_to {A} (k : Z) (l : list A) : list A :=
  if 0 <=? k then take (Z.to_nat k) l
  else take (length l - Z.to_nat (- k))%nat l.

(** [l[::2]] *)
Fixpoint every_other {A} (l : list A) : list A :=
  match l with
  | [] => []
  | a :: t => a :: match t with [] => [] | _ :: t' => every_other t' end
  end.

(** [zip(a, b)] *)
Fixpoint py_zip {A B} (a : list A) (b : list B) : list (A * B) :=
  match a, b with
  | x :: a', y :: b' => (x, y) :: py_zip a' b'
  | _, _ => []
  end.

(** Python's numbers are floats and unbounded integers. Their values are
    rationals here; [+] and [/] are the interpreter's, which rounds and
    raises [OverflowError] ([None] here) where a result does not fit.
    Nothing is assumed about the two operations. *)
Class Arithmetic : Type := {
  number_add : Q -> Q -> option Q;
  number_truediv : Q -> Z -> option Q
}.

(** [sum(xs)] over possibly-[None] numbers, starting from the integer 0 and
    adding from left to right: adding [None] raises [TypeError]. *)
Fixpoint py_sum `{Arithmetic} (xs : list (option Q)) (acc : Q) : result Q :=
  match xs with
  | [] => Ok acc
  | Some x :: t =>
      match number_add acc x with
      | Some a => py_sum t a
      | None => Raise OverflowError
      end
  | None :: _ => Raise TypeError
  end.

(** [sum(xs) / len(xs)]: the sum is evaluated first, then the division,
    which raises [ZeroDivisionError] for an empty list. *)
Definition py_mean `{Arithmetic} (xs : list (option Q)) : result Q :=
  match py_sum xs 0%Q with
  | Raise e => Raise e
  | Ok t =>
      if Nat.eqb (length xs) 0 then Raise ZeroDivisionError
      else match number_truediv t (Z.of_nat (length xs)) with
           | Some a => Ok a
           | None => Raise OverflowError
           end
  end.

(** ** Interfaces *)

(** Types of Python values that contain [None]. *)
Class PyObject (A : Type) : Type := py_None : A.

(** The [random] module: [random.seed(x)] and [random.random()]. *)
Class Random (Rng : Type) : Type := {
  rng_seed : Z -> Rng;
  rng_random : Rng -> Q * Rng
}.

(** [totter.api.qwop.QwopEvaluator] together with the [QwopStrategy] wrapper,
    which are not part of this file and are taken as a parameter: the
    constructor, the two time-limit attributes the engine assigns, and
    [evaluate], the list of (distance, run_time) pairs, a function of the
    evaluator and of the phenotype. *)
Class Backend (Evaluator Phenotype : Type) : Type := {
  QwopEvaluator : Z -> Evaluator;
  set_time_limit : Z -> Evaluator -> Evaluator;
  set_simulator_time_limit : Z -> Evaluator -> Evaluator;
  evaluate : Evaluator -> Phenotype -> list (Q * Q)
}.

(** [class Individual]: a genome and a fitness, [None] until evaluated. *)
Record Individual (Genome : Type) : Type := mkIndividual {
  genome : Genome;
  fitness : option Q
}.
Arguments mkIndividual {Genome} genome fitness.
Arguments genome {Genome} i.
Arguments fitness {Genome} i.

(** The eight methods as the engine calls them on [self]. Results are Python
    values: a fitness, a parent list, a pair of children or a replacement
    index may be [None]. Operators that may draw random numbers take and
    return the generator. Operators see the individuals by value: they
    neither assign to the individuals they are handed nor to the engine's
    attributes, and they return rather than raise. *)
Class Operators (Genome Phenotype Rng : Type) : Type := {
  generate_random_genome : Rng -> Genome * Rng;
  genome_to_phenotype : Genome -> Phenotype;
  compute_fitness : Q -> Q -> option Q;
  select_parents :
    list (Individual Genome) -> Z -> Rng -> option (list (Individual Genome)) * Rng;
  crossover : Genome -> Genome -> Rng -> option (Genome * Genome) * Rng;
  mutate : Genome -> Rng -> Genome * Rng;
  repair : Genome -> Genome;
  replace : list (Individual Genome) -> Individual Genome -> Rng -> option Z * Rng
}.

(** A concrete strategy class: each method is either overridden or inherited
    from [GeneticAlgorithm], whose bodies are [pass]. *)
Record Strategy (Genome Phenotype Rng : Type) : Type := mkStrategy {
  s_generate_random_genome : option (Rng -> Genome * Rng);
  s_genome_to_phenotype : option (Genome -> Phenotype);
  s_compute_fitness : option (Q -> Q -> option Q);
  s_select_parents :
    option (list (Individual Genome) -> Z -> Rng -> option (list (Individual Genome)) * Rng);
  s_crossover : option (Genome -> Genome -> Rng -> option (Genome * Genome) * Rng);
  s_mutate : option (Genome -> Rng -> Genome * Rng);
  s_repair : option (Genome -> Genome);
  s_replace : option (list (Individual Genome) -> Individual Genome -> Rng -> option Z * Rng)
}.
Arguments mkStrategy {Genome Phenotype Rng}.
Arguments s_generate_random_genome {Genome Phenotype Rng} s.
Arguments s_genome_to_phenotype {Genome Phenotype Rng} s.
Arguments s_compute_fitness {Genome Phenotype Rng} s.
Arguments s_select_parents {Genome Phenotype Rng} s.
Arguments s_crossover {Genome Phenotype Rng} s.
Arguments s_mutate {Genome Phenotype Rng} s.
Arguments s_repair {Genome Phenotype Rng} s.
Arguments s_replace {Genome Phenotype Rng} s.

(** Method resolution. [GeneticAlgorithm] derives from [object], so the
    [@abstractmethod] markers do not prevent instantiation and a method that
    is not overridden runs the base body [pass], which returns [None]. *)
Definition resolve {Genome Phenotype Rng} `{PyObject Genome} `{PyObject Phenotype}
    (c : Strategy Genome Phenotype Rng) : Operators Genome Phenotype Rng := {|
  generate_random_genome :=
    default (fun r => (py_None, r)) (s_generate_random_genome c);
  genome_to_phenotype := default (fun _ => py_None) (s_genome_to_phenotype c);
  compute_fitness := default (fun _ _ => None) (s_compute_fitness c);
  select_parents := default (fun _ _ r => (None, r)) (s_select_parents c);
  crossover := default (fun _ _ r => (None, r)) (s_crossover c);
  mutate := default (fun _ r => (py_None, r)) (s_mutate c);
  repair := default (fun _ => py_None) (s_repair c);
  replace := default (fun _ _ r => (None, r)) (s_replace c)
|}.

(** ** State *)

Abbreviation loc := nat.

(** One row of [self.history]: [[generations, best_fitness, average_fitness]]. *)
Record HistoryEntry : Type := mkEntry {
  h_generation : Z;
  h_best : option Q;
  h_average : Q
}.

(** The process as a call on one [GeneticAlgorithm] instance finds and
    leaves it: the instance's attributes, its individuals, and the generator
    of [random]. The generator is module-global; [rng] is its state at the
    moment of the call, and [Process] hands it on from call to call and from
    engine to engine. *)
Record State (Genome Rng Evaluator : Type) : Type := mkState {
  heap : list (Individual Genome);
  rng : Rng;
  random_seed : Z;
  eval_time_limit : Z;
  qwop_evaluator : Evaluator;
  pop_size : Z;
  cx_prob : Q;
  mt_prob : Q;
  steady_state : bool;
  total_evaluations : Z;
  generations : Z;
  max_evaluations : Z;
  best_indv : option loc;
  history : list HistoryEntry;
  population : list loc
}.
Arguments mkState {Genome Rng Evaluator}.
Arguments heap {Genome Rng Evaluator} s.
Arguments rng {Genome Rng Evaluator} s.
Arguments random_seed {Genome Rng Evaluator} s.
Arguments eval_time_limit {Genome Rng Evaluator} s.
Arguments qwop_evaluator {Genome Rng Evaluator} s.
Arguments pop_size {Genome Rng Evaluator} s.
Arguments cx_prob {Genome Rng Evaluator} s.
Arguments mt_prob {Genome Rng Evaluator} s.
Arguments steady_state {Genome Rng Evaluator} s.
Arguments total_evaluations {Genome Rng Evaluator} s.
Arguments generations {Genome Rng Evaluator} s.
Arguments max_evaluations {Genome Rng Evaluator} s.
Arguments best_indv {Genome Rng Evaluator} s.
Arguments history {Genome Rng Evaluator} s.
Arguments population {Genome Rng Evaluator} s.

(** The constructor's keyword arguments. *)
Record Config : Type := mkConfig {
  c_evaluations : Z;
  c_eval_time_limit : Z;
  c_pop_size : Z;
  c_cx_prob : Q;
  c_mt_prob : Q;
  c_steady_state : bool;
  c_seed : Z
}.

(** [GeneticAlgorithm()] with the defaults of [__init__]. *)
Definition default_config : Config :=
  mkConfig 2000 600 20 (9 # 10) (5 # 100) true 1234.

(** Attribute assignment. *)
Section Setters.
Context {Genome Rng Evaluator : Type}.
#[local] Abbreviation St := (State Genome Rng Evaluator).

Definition set_heap (v : list (Individual Genome)) (s : St) : St :=
  mkState v (rng s) (random_seed s) (eval_time_limit s) (qwop_evaluator s) (pop_size s) (cx_prob s) (mt_prob s) (steady_state s) (total_evaluations s) (generations s) (max_evaluations s) (best_indv s) (history s) (population s).

Definition set_rng (v : Rng) (s : St) : St :=
  mkState (heap s) v (random_seed s) (eval_time_limit s) (qwop_evaluator s) (pop_size s) (cx_prob s) (mt_prob s) (steady_state s) (total_evaluations s) (generations s) (max_evaluations s) (best_indv s) (history s) (population s).

Definition set_qwop_evaluator (v : Evaluator) (s : St) : St :=
  mkState (heap s) (rng s) (random_seed s) (eval_time_limit s) v (pop_size s) (cx_prob s) (mt_prob s) (steady_state s) (total_evaluations s) (generations s) (max_evaluations s) (best_indv s) (history s) (population s).

Definition set_total_evaluations (v : Z) (s : St) : St :=
  mkState (heap s) (rng s) (random_seed s) (eval_time_limit s) (qwop_evaluator s) (pop_size s) (cx_prob s) (mt_prob s) (steady_state s) v (generations s) (max_evaluations s) (best_indv s) (history s) (population s).

Definition set_generations (v : Z) (s : St) : St :=
  mkState (heap s) (rng s) (random_seed s) (eval_time_limit s) (qwop_evaluator s) (pop_size s) (cx_prob s) (mt_prob s) (steady_state s) (total_evaluations s) v (max_evaluations s) (best_indv s) (history s) (population s).

Definition set_max_evaluations (v : Z) (s : St) : St :=
  mkState (heap s) (rng s) (random_seed s) (eval_time_limit s) (qwop_evaluator s) (pop_size s) (cx_prob s) (mt_prob s) (steady_state s) (total_evaluations s) (generations s) v (best_indv s) (history s) (population s).

Definition set_best_indv (v : option loc) (s : St) : St :=
  mkState (heap s) (rng s) (random_seed s) (eval_time_limit s) (qwop_evaluator s) (pop_size s) (cx_prob s) (mt_prob s) (steady_state s) (total_evaluations s) (generations s) (max_evaluations s) v (history s) (population s).

Definition set_history (v : list HistoryEntry) (s : St) : St :=
  mkState (heap s) (rng s) (random_seed s) (eval_time_limit s) (qwop_evaluator s) (pop_size s) (cx_prob s) (mt_prob s) (steady_state s) (total_evaluations s) (generations s) (max_evaluations s) (best_indv s) v (population s).

Definition set_population (v : list loc) (s : St) : St :=
  mkState (heap s) (rng s) (random_seed s) (eval_time_limit s) (qwop_evaluator s) (pop_size s) (cx_prob s) (mt_prob s) (steady_state s) (total_evaluations s) (generations s) (max_evaluations s) (best_indv s) (history s) v.

End Setters.


(** ** The engine *)

(** What a call leaves behind: the value returned or the exception raised,
    next to the state. *)
Definition M (S A : Type) : Type := S -> result A * S.

Definition ret {S A} (a : A) : M S A := fun s => (Ok a, s).

Definition bind {S A B} (m : M S A) (k : A -> M S B) : M S B :=
  fun s =>
    match m s with
    | (Ok a, s') => k a s'
    | (Raise e, s') => (Raise e, s')
    end.

Definition raise {S A} (e : exn) : M S A := fun s => (Raise e, s).

Definition get {S} : M S S := fun s => (Ok s, s).

Definition modify {S} (f : S -> S) : M S unit := fun s => (Ok tt, f s).

Definition lift {S A} (r : result A) : M S A := fun s => (r, s).

Declare Scope engine_scope.
Delimit Scope engine_scope with engine.
Notation "x <- m ;; k" := (bind m (fun x => k))
  (at level 100, m at next level, right associativity) : engine_scope.
Notation "m ;;; k" := (bind m (fun _ => k))
  (at level 100, right associativity) : engine_scope.

(** [for a in l: body(a)] *)
Fixpoint for_each {S A} (l : list A) (body : A -> M S unit) : M S unit :=
  match l with
  | [] => ret tt
  | a :: t => bind (body a) (fun _ => for_each t body)
  end.

Inductive Outcome : Type :=
| Returned
| Raised (e : exn)
| OutOfFuel.

Section Engine.
Context {Genome Phenotype Rng Evaluator : Type}.
Context {py_genome : PyObject Genome} {random : Random Rng}.
Context {backend : Backend Evaluator Phenotype} {ops : Operators Genome Phenotype Rng}.
Context {arithmetic : Arithmetic}.

#[local] Abbreviation St := (State Genome Rng Evaluator).
#[local] Abbreviation Indv := (Individual Genome).

Open Scope engine_scope.

(** *** Objects *)

(** The object a reference points to. The engine only ever holds references
    it obtained from an allocation, so the default is never read. *)
Definition deref (s : St) (l : loc) : Indv :=
  default (mkIndividual py_None None) (heap s !! l).

(** [Individual(genome)]: [__init__] leaves the fitness at [None]. *)
Definition new_individual (g : Genome) : M St loc :=
  fun s => (Ok (length (heap s)), set_heap (heap s ++ [mkIndividual g None]) s).

(** [indv.fitness = f] *)
Definition set_fitness (l : loc) (f : option Q) (s : St) : St :=
  set_heap (<[l := mkIndividual (genome (deref s l)) f]> (heap s)) s.

(** A call that may draw from the global generator. *)
Definition call_rng {A} (f : Rng -> A * Rng) : M St A :=
  fun s => let '(a, r) := f (rng s) in (Ok a, set_rng r s).

(** [random.random()] *)
Definition random_random : M St Q := call_rng rng_random.

(** *** [_evaluate] (lines 305-318) *)
Definition _evaluate (individual : loc) : M St unit :=
  s <- get ;;
  let phenotype := genome_to_phenotype (genome (deref s individual)) in
  match evaluate (qwop_evaluator s) phenotype with
  | [] => raise IndexError
  | (distance, run_time) :: _ =>
      modify (set_fitness individual (compute_fitness distance run_time)) ;;;
      modify (fun s => set_total_evaluations (total_evaluations s + 1) s)
  end.

(** *** [run] (lines 240-303) *)

(** Body of the loop of lines 248-252. *)
Definition warm_step (indv : loc) : M St unit :=
  s <- get ;;
  (match fitness (deref s indv) with
   | None => _evaluate indv
   | Some _ => ret tt
   end) ;;;
  s <- get ;;
  match best_indv s with
  | None => raise AttributeError
  | Some b =>
      better <- match fitness (deref s b) with
                | None => ret true
                | Some _ => lift (py_gt (fitness (deref s indv)) (fitness (deref s b)))
                end ;;
      if (better : bool) then modify (set_best_indv (Some indv)) else ret tt
  end.

Definition warm_up : M St unit :=
  s <- get ;;
  for_each (population s) warm_step.

(** Lines 258-261. A result of [None] fails at [parents[::2]]. *)
Definition select : M St (list Indv) :=
  s <- get ;;
  let n := if steady_state s then 2 else pop_size s in
  parents <- call_rng (select_parents (map (deref s) (population s)) n) ;;
  match parents with
  | None => raise TypeError
  | Some ps => ret ps
  end.

(** Lines 264-269: the genomes appended to [offspring]. A crossover result
    that does not unpack into two genomes fails the assignment. *)
Fixpoint cross_pairs (pairs : list (Indv * Indv)) : M St (list Genome) :=
  match pairs with
  | [] => ret []
  | (parent1, parent2) :: rest =>
      s <- get ;;
      x <- random_random ;;
      new <- (if Qltb x (cx_prob s) then
                r <- call_rng (crossover (genome parent1) (genome parent2)) ;;
                match r with
                | None => raise TypeError
                | Some (child1_genome, child2_genome) =>
                    ret [child1_genome; child2_genome]
                end
              else ret []) ;;
      more <- cross_pairs rest ;;
      ret (new ++ more)
  end.

(** Lines 272-282: mutate, repair, wrap and evaluate each genome. *)
Fixpoint make_children (offspring : list Genome) : M St (list loc) :=
  match offspring with
  | [] => ret []
  | child_genome :: rest =>
      s <- get ;;
      x <- random_random ;;
      child_genome <- (if Qltb x (mt_prob s) then call_rng (mutate child_genome)
                       else ret child_genome) ;;
      let child_genome := repair child_genome in
      child <- new_individual child_genome ;;
      _evaluate child ;;;
      more <- make_children rest ;;
      ret (child :: more)
  end.

(** Body of the loop of lines 285-293. *)
Definition update_population (child : loc) : M St unit :=
  s <- get ;;
  better <- match best_indv s with
            | None => ret true
            | Some b => lift (py_gt (fitness (deref s child)) (fitness (deref s b)))
            end ;;
  (if (better : bool) then modify (set_best_indv (Some child)) else ret tt) ;;;
  s <- get ;;
  replacement_index <- call_rng (replace (map (deref s) (population s)) (deref s child)) ;;
  match replacement_index with
  | None => ret tt
  | Some i =>
      match py_index (population s) i with
      | None => raise IndexError
      | Some k => modify (fun s => set_population (<[k := child]> (population s)) s)
      end
  end.

(** Lines 296-299. *)
Definition record_history : M St unit :=
  s <- get ;;
  match best_indv s with
  | None => ret tt
  | Some b =>
      let best_fitness := fitness (deref s b) in
      average_fitness <- lift (py_mean (map (fun l => fitness (deref s l)) (population s))) ;;
      modify (fun s => set_history
                (history s ++ [mkEntry (generations s) best_fitness average_fitness]) s)
  end.

(** Lines 285-301: the update loop over the evaluated children, the history
    row and the generation counter. *)
Definition finish_pass (children : list loc) : M St unit :=
  for_each children update_population ;;;
  record_history ;;;
  modify (fun s => set_generations (generations s + 1) s).

(** One pass through the body of the [while]; the value is [len(offspring)],
    the number of children this pass evaluated. *)
Definition iteration : M St nat :=
  parents <- select ;;
  offspring <- cross_pairs (py_zip (every_other parents) (every_other (drop 1 parents))) ;;
  children <- make_children offspring ;;
  finish_pass children ;;;
  ret (length children).

(** The [while] of line 256 with a bound on the number of passes. [trace]
    collects the offspring counts of the passes made, latest first. *)
Fixpoint loop (fuel : nat) (trace : list nat) (s : St) : Outcome * list nat * St :=
  match fuel with
  | O => (OutOfFuel, trace, s)
  | S fuel' =>
      if total_evaluations s <? max_evaluations s then
        match iteration s with
        | (Ok k, s') => loop fuel' (k :: trace) s'
        | (Raise e, s') => (Raised e, trace, s')
        end
      else (Returned, trace, s)
  end.

Definition run (fuel : nat) (s : St) : Outcome * list nat * St :=
  match warm_up s with
  | (Ok _, s1) => loop fuel [] s1
  | (Raise e, s1) => (Raised e, [], s1)
  end.

(** *** [__init__] (lines 24-55) *)

(** [[Individual(self.generate_random_genome()) for i in range(0, n)]] *)
Fixpoint new_population (n : nat) : M St (list loc) :=
  match n with
  | O => ret []
  | S n' =>
      g <- call_rng generate_random_genome ;;
      l <- new_individual g ;;
      more <- new_population n' ;;
      ret (l :: more)
  end.

(** A fresh process constructing the engine: [ambient] is whatever state the
    global generator is in when [__init__] is entered. An exception leaves
    no instance behind. *)
Definition __init__ (cfg : Config) (ambient : Rng) : result St :=
  let s0 : St :=
    mkState [] ambient (c_seed cfg) (c_eval_time_limit cfg)
      (QwopEvaluator (c_eval_time_limit cfg)) (c_pop_size cfg) (c_cx_prob cfg)
      (c_mt_prob cfg) (c_steady_state cfg) 0 1 (c_evaluations cfg) None [] [] in
  let s0 := set_rng (rng_seed (random_seed s0)) s0 in
  match new_population (Z.to_nat (pop_size s0)) s0 with
  | (Raise e, _) => Raise e
  | (Ok pop, s1) =>
      match pop with
      | [] => Raise IndexError
      | first :: _ => Ok (set_best_indv (Some first) (set_population pop s1))
      end
  end.

End Engine.

(** ** Persistence *)

(** The dictionary pickled by [save_current_state]. Pickling keeps the object
    graph: the snapshot carries the objects ([ck_objects]) and the population
    and the best individual as references into them, so that sharing between
    a population slot and [best_individual] survives the round trip. *)
Record Checkpoint (Genome : Type) : Type := mkCheckpoint {
  ck_objects : list (Individual Genome);
  ck_population : list loc;
  ck_generations : Z;
  ck_total_evaluations : Z;
  ck_history : list HistoryEntry;
  ck_config : Config;
  ck_best_individual : option loc
}.
Arguments mkCheckpoint {Genome}.
Arguments ck_objects {Genome} c.
Arguments ck_population {Genome} c.
Arguments ck_generations {Genome} c.
Arguments ck_total_evaluations {Genome} c.
Arguments ck_history {Genome} c.
Arguments ck_config {Genome} c.
Arguments ck_best_individual {Genome} c.

(** Modelled from the spec: [totter.utils.storage], the location resolver,
    is not part of this file. It names one directory per strategy class and
    purpose; the engine keeps one snapshot, [progress/progress.totter], and
    one seed cache per population size, [population_seeds/seed_<pop_size>.tsd],
    each absent or holding what was last pickled into it. *)
Record Files (Genome : Type) : Type := mkFiles {
  progress : option (Checkpoint Genome);
  population_seeds : Z -> option (list (Individual Genome))
}.
Arguments mkFiles {Genome}.
Arguments progress {Genome} f.
Arguments population_seeds {Genome} f.

Definition no_files {Genome} : Files Genome := mkFiles None (fun _ => None).

Definition write_seed_file {Genome} (n : Z) (content : list (Individual Genome))
    (fs : Files Genome) : Files Genome :=
  mkFiles (progress fs)
    (fun k => if Z.eqb k n then Some content else population_seeds fs k).

(** Insertion into a list sorted by ascending key, after the entries whose
    key is strictly smaller and before all others. *)
Fixpoint insert_by_key {A} (x : Q * A) (l : list (Q * A)) : list (Q * A) :=
  match l with
  | [] => [x]
  | y :: t => if Qltb (fst y) (fst x) then y :: insert_by_key x t else x :: l
  end.

(** [sorted(l, key=...)] on the keys computed beforehand: stable, ascending. *)
Definition sorted_by_key {A} (l : list (Q * A)) : list A :=
  map snd (foldr insert_by_key [] l).

Section Persistence.
Context {Genome Phenotype Rng Evaluator : Type}.
Context {py_genome : PyObject Genome} {random : Random Rng}.
Context {backend : Backend Evaluator Phenotype} {ops : Operators Genome Phenotype Rng}.
Context {arithmetic : Arithmetic}.

#[local] Abbreviation St := (State Genome Rng Evaluator).
#[local] Abbreviation Indv := (Individual Genome).

Open Scope engine_scope.

(** *** [save_current_state] (lines 131-159) *)
Definition snapshot (s : St) : Checkpoint Genome :=
  mkCheckpoint (heap s) (population s) (generations s) (total_evaluations s)
    (history s)
    (mkConfig (max_evaluations s) (eval_time_limit s) (pop_size s) (cx_prob s)
       (mt_prob s) (steady_state s) (random_seed s))
    (best_indv s).

Definition save_current_state (s : St) (fs : Files Genome) : Files Genome :=
  mkFiles (Some (snapshot s)) (population_seeds fs).

(** *** [load] (lines 161-189) *)

(** Unpickling creates new objects: they are placed after the existing ones
    and the references of the snapshot are moved accordingly. *)
Definition load (s : St) (fs : Files Genome) : bool * St :=
  match progress fs with
  | None => (false, s)
  | Some data =>
      let base := length (heap s) in
      let config := ck_config data in
      (true,
       mkState (heap s ++ ck_objects data)
         (rng_seed (c_seed config))
         (c_seed config)
         (eval_time_limit s)
         (set_time_limit (c_eval_time_limit config) (qwop_evaluator s))
         (c_pop_size config)
         (c_cx_prob config)
         (c_mt_prob config)
         (c_steady_state config)
         (ck_total_evaluations data)
         (ck_generations data)
         (ck_total_evaluations data + max_evaluations s)
         (Nat.add base <$> ck_best_individual data)
         (ck_history data)
         (Nat.add base <$> ck_population data))
  end.

(** *** [seed] (lines 191-238) *)

(** Lines 215-218, the seeder's own evaluation of one pool member. *)
Definition seed_score (indv : loc) : M St unit :=
  s <- get ;;
  let phenotype := genome_to_phenotype (genome (deref s indv)) in
  match evaluate (qwop_evaluator s) phenotype with
  | [] => raise IndexError
  | (distance, run_time) :: _ => modify (set_fitness indv (Some distance))
  end.

(** The key of line 221, [-individual.fitness]. *)
Definition negated_fitness (s : St) (l : loc) : result (Q * loc) :=
  match fitness (deref s l) with
  | None => Raise TypeError
  | Some f => Ok ((- f)%Q, l)
  end.

Fixpoint all_ok {A} (l : list (result A)) : result (list A) :=
  match l with
  | [] => Ok []
  | Ok a :: t => match all_ok t with Ok r => Ok (a :: r) | Raise e => Raise e end
  | Raise e :: _ => Raise e
  end.

(** Lines 209-229: the branch taken when the seed file does not exist. The
    value is the list handed to [pickle.dump]. *)
Definition seed_generate (pool_size time_limit : Z) : M St (list Indv) :=
  modify (fun s => set_qwop_evaluator
            (set_simulator_time_limit time_limit (qwop_evaluator s)) s) ;;;
  pool <- new_population (Z.to_nat pool_size) ;;
  for_each pool seed_score ;;;
  s <- get ;;
  keyed <- lift (all_ok (map (negated_fitness s) pool)) ;;
  let sorted_pool := sorted_by_key keyed in
  let population := py_slice_to pool_size sorted_pool in
  modify (fun s => set_qwop_evaluator
            (set_simulator_time_limit (eval_time_limit s) (qwop_evaluator s)) s) ;;;
  ret (map (deref s) population).

(** Lines 232-238: the unpickled individuals are new objects. *)
Definition seed_install (seeded_pop : list Indv) : M St unit :=
  s <- get ;;
  let fresh := seq (length (heap s)) (length seeded_pop) in
  modify (set_heap (heap s ++ seeded_pop)) ;;;
  modify (set_population fresh) ;;;
  match fresh with
  | [] => raise IndexError
  | first :: _ =>
      modify (set_best_indv (Some first)) ;;;
      for_each fresh (fun indv => modify (set_fitness indv None))
  end.

(** [seed(pool_size, time_limit)]. The file written on line 226 is the one
    read back on line 233, so its content is passed on directly. A file
    written before an exception stays written. *)
Definition seed (pool_size time_limit : Z) (s : St) (fs : Files Genome)
    : result unit * St * Files Genome :=
  match population_seeds fs (pop_size s) with
  | Some seeded_pop =>
      let '(r, s') := seed_install seeded_pop s in (r, s', fs)
  | None =>
      match seed_generate pool_size time_limit s with
      | (Raise e, s1) => (Raise e, s1, fs)
      | (Ok population, s1) =>
          let fs' := write_seed_file (pop_size s1) population fs in
          let '(r, s2) := seed_install population s1 in (r, s2, fs')
      end
  end.

End Persistence.

(** ** A process with several engines *)

(** One Python process: the generator of [random], which every engine and
    every [seed] draws from, the engines alive, and the files of the strategy
    class. Individuals are never handed from one engine to another, so each
    engine keeps its own part of the object store. *)
Record Process (Genome Rng Evaluator : Type) : Type := mkProcess {
  generator : Rng;
  engines : list (State Genome Rng Evaluator);
  disk : Files Genome
}.
Arguments mkProcess {Genome Rng Evaluator}.
Arguments generator {Genome Rng Evaluator} p.
Arguments engines {Genome Rng Evaluator} p.
Arguments disk {Genome Rng Evaluator} p.

Section Processes.
Context {Genome Phenotype Rng Evaluator : Type}.
Context {py_genome : PyObject Genome} {random : Random Rng}.
Context {backend : Backend Evaluator Phenotype} {ops : Operators Genome Phenotype Rng}.
Context {arithmetic : Arithmetic}.

#[local] Abbreviation St := (State Genome Rng Evaluator).
#[local] Abbreviation Proc := (Process Genome Rng Evaluator).

(** The engine as a call finds it: the generator is where the previous
    call, on whichever engine, left it. *)
Definition enter (p : Proc) (s : St) : St := set_rng (generator p) s.

(** The process as a call on engine [e] leaves it. *)
Definition leave (p : Proc) (e : nat) (s' : St) (fs : Files Genome) : Proc :=
  mkProcess (rng s') (<[e := s']> (engines p)) fs.

(** [GeneticAlgorithm(...)]: the new engine is the last of [engines] and the
    value is its position. The constructor raises only at
    [self.population[0]] of an empty population, with the generator seeded
    and not drawn from. *)
Definition construct_in (cfg : Config) (p : Proc) : result nat * Proc :=
  match __init__ cfg (generator p) with
  | Ok s => (Ok (length (engines p)), mkProcess (rng s) (engines p ++ [s]) (disk p))
  | Raise e => (Raise e, mkProcess (rng_seed (c_seed cfg)) (engines p) (disk p))
  end.

(** [engine.run()] on the engine at position [e]; [None] when there is no
    such engine. *)
Definition run_in (fuel : nat) (e : nat) (p : Proc) : option (Outcome * list nat) * Proc :=
  match engines p !! e with
  | None => (None, p)
  | Some s =>
      let '(o, trace, s') := run fuel (enter p s) in
      (Some (o, trace), leave p e s' (disk p))
  end.

(** [engine.seed(pool_size, time_limit)] *)
Definition seed_in (pool_size time_limit : Z) (e : nat) (p : Proc)
    : option (result unit) * Proc :=
  match engines p !! e with
  | None => (None, p)
  | Some s =>
      let '(r, s', fs') := seed pool_size time_limit (enter p s) (disk p) in
      (Some r, leave p e s' fs')
  end.

(** [engine.save_current_state()] *)
Definition save_current_state_in (e : nat) (p : Proc) : Proc :=
  match engines p !! e with
  | None => p
  | Some s => mkProcess (generator p) (engines p) (save_current_state (enter p s) (disk p))
  end.

(** [engine.load()] *)
Definition load_in (e : nat) (p : Proc) : option bool * Proc :=
  match engines p !! e with
  | None => (None, p)
  | Some s =>
      let '(b, s') := load (enter p s) (disk p) in
      (Some b, leave p e s' (disk p))
  end.

End Processes.

(** ** A concrete strategy

    The scenario of the specification: genomes are lists of integers, the
    backend reports the sum of the genome as the distance, fitness is the
    distance. The generator is a counter. *)
Module Demo.

Definition Genome : Type := option (list Z).
Definition Phenotype : Type := option (list Z).
Definition Rng : Type := Z.
Definition Evaluator : Type := (Z * Z)%type.

#[export] Instance genome_object : PyObject Genome := None.
#[export] Instance phenotype_object : PyObject Phenotype := None.

#[export] Instance counter_random : Random Rng := {|
  rng_seed := fun z => z;
  rng_random := fun r => ((r mod 10) # 10, r + 1)
|}.

(** The scenario's numbers are small integers and their quotients by the
    population size, a power of two: on these the interpreter's arithmetic
    is exact. *)
#[export] Instance exact_arithmetic : Arithmetic := {|
  number_add := fun a b => Some (a + b)%Q;
  number_truediv := fun a n => Some (a / inject_Z n)%Q
|}.

Definition sum_list (g : list Z) : Z := fold_right Z.add 0 g.

#[export] Instance sum_backend : Backend Evaluator Phenotype := {|
  QwopEvaluator := fun t => (t, t);
  set_time_limit := fun t ev => (t, snd ev);
  set_simulator_time_limit := fun t ev => (fst ev, t);
  evaluate := fun _ ph =>
    match ph with
    | Some g => [(inject_Z (sum_list g), 1%Q)]
    | None => []
    end
|}.

(** One-point crossover after the first gene. *)
Definition swap_tails (a b : Genome) : Genome * Genome :=
  match a, b with
  | Some (x :: ta), Some (y :: tb) => (Some (x :: tb), Some (y :: ta))
  | _, _ => (a, b)
  end.

(** A strategy that overrides all eight methods; [replace] always names the
    last slot. *)
Definition sum_strategy : Strategy Genome Phenotype Rng := {|
  s_generate_random_genome := Some (fun r => (Some [r; r], r + 1));
  s_genome_to_phenotype := Some (fun g => g);
  s_compute_fitness := Some (fun distance _ => Some distance);
  s_select_parents := Some (fun pop n r => (Some (take (Z.to_nat n) pop), r));
  s_crossover := Some (fun a b r => (Some (swap_tails a b), r));
  s_mutate := Some (fun g r => (g, r));
  s_repair := Some (fun g => g);
  s_replace := Some (fun _ _ r => (Some (-1), r))
|}.

(** The same class without a [replace] method. *)
Definition no_replace_strategy : Strategy Genome Phenotype Rng := {|
  s_generate_random_genome := s_generate_random_genome sum_strategy;
  s_genome_to_phenotype := s_genome_to_phenotype sum_strategy;
  s_compute_fitness := s_compute_fitness sum_strategy;
  s_select_parents := s_select_parents sum_strategy;
  s_crossover := s_crossover sum_strategy;
  s_mutate := s_mutate sum_strategy;
  s_repair := s_repair sum_strategy;
  s_replace := None
|}.

Definition sum_ops : Operators Genome Phenotype Rng := resolve sum_strategy.
Definition no_replace_ops : Operators Genome Phenotype Rng := resolve no_replace_strategy.

(** [pop_size=4, steady_state=True, cx_prob=1.0, mt_prob=0.0, seed=1] *)
Definition scenario (evaluations : Z) : Config :=
  mkConfig evaluations 600 4 1 0 true 1.

Definition St : Type := State Genome Rng Evaluator.

Definition construct_with (ops : Operators Genome Phenotype Rng) (cfg : Config)
    (ambient : Rng) : result St :=
  __init__ (ops := ops) cfg ambient.

Definition run_with (ops : Operators Genome Phenotype Rng) (fuel : nat) (s : St)
    : Outcome * list nat * St :=
  run (ops := ops) fuel s.

(** An instance with no objects, standing for "no instance" where
    [__init__] raised. *)
Definition blank : St :=
  mkState [] 0 0 0 (0, 0) 0 0%Q 0%Q true 0 0 0 None [] [].

(** The engine of the scenario as constructed, for a given budget. *)
Definition fresh (evaluations : Z) : St :=
  match construct_with sum_ops (scenario evaluations) 0 with
  | Ok s => s
  | Raise _ => blank
  end.

(** [pop_size=1], all else as in the scenario, budget 10. *)
Definition single : St :=
  match construct_with sum_ops (mkConfig 10 600 1 1 0 true 1) 0 with
  | Ok s => s
  | Raise _ => blank
  end.

(** A life across two processes: run to the end of a budget of 5 and save;
    build a new engine with a budget of 20, load, seed from a pool of 2, run. *)
Definition first_run : St := snd (run_with sum_ops 3 (fresh 5)).
Definition storage : Files Genome := save_current_state first_run no_files.
Definition resumed : St := snd (load (fresh 20) storage).
Definition reseeded : St := snd (fst (seed (ops := sum_ops) 2 60 resumed storage)).
Definition reseeded_storage : Files Genome :=
  snd (seed (ops := sum_ops) 2 60 resumed storage).
Definition second_run : St := snd (run_with sum_ops 12 reseeded).

(** The warmed-up scenario with one evaluated child, genome [[1; 2]], not yet
    offered to the population. *)
Definition with_child : St :=
  snd (make_children (ops := sum_ops) [Some [1; 2]]
         (snd (warm_up (ops := sum_ops) (fresh 5)))).

(** [cx_prob=0.5] and a budget of 8, all else as in the scenario. *)
Definition half : Config := mkConfig 8 600 4 (1 # 2) 0 true 1.

(** One process: two engines are constructed from [half], then the first is
    run, then the second. *)
Definition Proc : Type := Process Genome Rng Evaluator.
Definition empty_process : Proc := mkProcess 0 [] no_files.
Definition one_engine : Proc := snd (construct_in (ops := sum_ops) half empty_process).
Definition two_engines : Proc := snd (construct_in (ops := sum_ops) half one_engine).
Definition after_first : Proc := snd (run_in (ops := sum_ops) 9 0 two_engines).
Definition after_both : Proc := snd (run_in (ops := sum_ops) 9 1 after_first).

(** The engine of the scenario after [seed(0, 60)], which raised. *)
Definition emptied : St := snd (fst (seed (ops := sum_ops) 0 60 (fresh 5) no_files)).
Definition emptied_storage : Files Genome :=
  snd (seed (ops := sum_ops) 0 60 (fresh 5) no_files).

End Demo.

(** ** Specification vocabulary *)

(** Weakest precondition of a call: [Q] holds of the result and of the state
    the call leaves, whether it returns or raises. *)
Definition wp {S A} (m : M S A) (Q : result A -> S -> Prop) (s : S) : Prop :=
  Q (fst (m s)) (snd (m s)).

Definition raises_zero_division {A} (r : result A) : Prop :=
  r = Raise ZeroDivisionError.

Section Vocabulary.
Context {Genome Phenotype Rng Evaluator : Type}.
Context {py_genome : PyObject Genome} {random : Random Rng}.
Context {backend : Backend Evaluator Phenotype} {ops : Operators Genome Phenotype Rng}.
Context {arithmetic : Arithmetic}.

#[local] Abbreviation St := (State Genome Rng Evaluator).

(** Every reference the instance holds points to an allocated object. *)
Definition wf (s : St) : Prop :=
  (forall l, l ∈ population s -> (l < length (heap s))%nat) /\
  (forall b, best_indv s = Some b -> (b < length (heap s))%nat).

(** [self.best_indv.fitness], [None] when either is. *)
Definition best_fitness (s : St) : option Q :=
  match best_indv s with
  | Some b => fitness (deref s b)
  | None => None
  end.

Definition best_at_least (s : St) (x : Q) : Prop :=
  exists f, best_fitness s = Some f /\ (x <= f)%Q.

(** Number of individuals whose fitness is set. *)
Definition evaluated_count (s : St) : nat :=
  length (filter (fun i => is_Some (fitness i)) (heap s)).

(** The attributes [run] never assigns. *)
Definition settings (s : St) :=
  (random_seed s, eval_time_limit s, qwop_evaluator s, pop_size s, cx_prob s,
   mt_prob s, steady_state s, max_evaluations s).

(** What every step of [run] guarantees about the states before and after
    it, also when it raises. *)
Record step_rel (s s' : St) : Prop := mkStepRel {
  sr_settings : settings s' = settings s;
  sr_pop_len : length (population s') = length (population s);
  sr_total : total_evaluations s <= total_evaluations s';
  sr_heap_len : (length (heap s) <= length (heap s'))%nat;
  sr_stable : forall l, (l < length (heap s))%nat ->
    genome (deref s' l) = genome (deref s l) /\
    forall f, fitness (deref s l) = Some f -> fitness (deref s' l) = Some f;
  sr_best : forall x, best_at_least s x -> best_at_least s' x;
  sr_hist : history s `prefix_of` history s';
  sr_gen : generations s <= generations s';
  sr_wf : wf s -> wf s';
  sr_count : Z.of_nat (evaluated_count s') - Z.of_nat (evaluated_count s)
             <= total_evaluations s' - total_evaluations s
}.

(** The best-fitness column of the history never decreases and the
    generation column increases. *)
Definition history_sorted (h : list HistoryEntry) : Prop :=
  forall i j ei ej, (i < j)%nat -> h !! i = Some ei -> h !! j = Some ej ->
    h_generation ei < h_generation ej /\
    exists x y, h_best ei = Some x /\ h_best ej = Some y /\ (x <= y)%Q.

(** Behind the first [n] rows: every recorded best fitness is a number not
    above the current best, and every recorded generation is in the past. *)
Definition history_bounded (n : nat) (s : St) : Prop :=
  forall e, e ∈ drop n (history s) ->
    h_generation e < generations s /\
    exists x, h_best e = Some x /\ best_at_least s x.

(** The invariant of the history behind its first [n] rows; [n] is the
    number of rows a run finds when it starts, or 0 for the whole log. *)
Definition history_inv (n : nat) (s : St) : Prop :=
  (n <= length (history s))%nat /\
  history_sorted (drop n (history s)) /\ history_bounded n s.

(** If the mean over the population can be taken, the best individual has a
    fitness. *)
Definition history_ready (s : St) : Prop :=
  population s <> [] ->
  (forall l, l ∈ population s -> is_Some (fitness (deref s l))) ->
  is_Some (best_fitness s).

(** The rows [s'] has recorded beyond those of [s]. *)
Definition rows_since (s s' : St) : list HistoryEntry :=
  drop (length (history s)) (history s').

(** Every row records a best fitness of at least [x]. *)
Definition rows_at_least (x : Q) (rows : list HistoryEntry) : Prop :=
  forall e, e ∈ rows -> exists y, h_best e = Some y /\ (x <= y)%Q.

(** The population by value. *)
Definition population_values (s : St) : list (Individual Genome) :=
  map (deref s) (population s).

End Vocabulary.

(** ** Laws of the call monad *)

Section Laws.
Context {S : Type}.

Lemma wp_ret {A} (a : A) (Q : result A -> S -> Prop) s :
  Q (Ok a) s -> wp (ret a) Q s.
Proof. done. Qed.

Lemma wp_raise {A} e (Q : result A -> S -> Prop) s :
  Q (Raise e) s -> wp (raise e) Q s.
Proof. done. Qed.

Lemma wp_get (Q : result S -> S -> Prop) s : Q (Ok s) s -> wp get Q s.
Proof. done. Qed.

Lemma wp_modify (f : S -> S) (Q : result unit -> S -> Prop) s :
  Q (Ok tt) (f s) -> wp (modify f) Q s.
Proof. done. Qed.

Lemma wp_lift {A} (r : result A) (Q : result A -> S -> Prop) s :
  Q r s -> wp (lift r) Q s.
Proof. done. Qed.

Lemma wp_bind {A B} (m : M S A) (k : A -> M S B) (Q : result B -> S -> Prop) s :
  wp m (fun r s' => match r with
                    | Ok a => wp (k a) Q s'
                    | Raise e => Q (Raise e) s'
                    end) s ->
  wp (bind m k) Q s.
Proof.
  unfold wp, bind. destruct (m s) as [[a|e] s']; simpl; auto.
Qed.

Lemma wp_mono {A} (m : M S A) (Q Q' : result A -> S -> Prop) s :
  wp m Q s -> (forall r s', Q r s' -> Q' r s') -> wp m Q' s.
Proof. unfold wp. auto. Qed.

(** The invariant rule for [for]: [I] holds between the passes, [E] of the
    exception that ends the loop early and the state it leaves. *)
Lemma wp_for_each {A} (I : S -> Prop) (E : exn -> S -> Prop) (l : list A)
    (body : A -> M S unit) s :
  I s ->
  (forall a s, a ∈ l -> I s ->
     wp (body a) (fun r s' => match r with Ok _ => I s' | Raise e => E e s' end) s) ->
  wp (for_each l body) (fun r s' => match r with Ok _ => I s' | Raise e => E e s' end) s.
Proof.
  revert s. induction l as [|a t IH]; intros s HI Hbody; simpl.
  - by apply wp_ret.
  - apply wp_bind. eapply wp_mono.
    + apply Hbody; [left | done].
    + intros [[]|e] s' Hs'; [|done].
      apply IH; [done|]. intros b s'' Hb. apply Hbody. by right.
Qed.

End Laws.

(** ** Steps of [run] *)

Section RunSteps.
Context {Genome Phenotype Rng Evaluator : Type}.
Context {py_genome : PyObject Genome} {random : Random Rng}.
Context {backend : Backend Evaluator Phenotype} {ops : Operators Genome Phenotype Rng}.
Context {arithmetic : Arithmetic}.

#[local] Abbreviation St := (State Genome Rng Evaluator).
#[local] Abbreviation Indv := (Individual Genome).

Implicit Types (s : St) (l : loc).

Lemma Qltb_lt (a b : Q) : Qltb a b = true <-> (a < b)%Q.
Proof. unfold Qltb, Qlt. apply Z.ltb_lt. Qed.

Lemma Qltb_ge (a b : Q) : Qltb a b = false <-> (b <= a)%Q.
Proof. unfold Qltb, Qle. apply Z.ltb_ge. Qed.

Lemma deref_ext s s' l : heap s' = heap s -> deref s' l = deref s l.
Proof. unfold deref. by intros ->. Qed.

Lemma deref_lookup s l i : heap s !! l = Some i -> deref s l = i.
Proof. unfold deref. by intros ->. Qed.

Lemma deref_dangling s l : (length (heap s) <= l)%nat -> fitness (deref s l) = None.
Proof. intros Hl. unfold deref. by rewrite lookup_ge_None_2. Qed.

Lemma fitness_in_range s l f : fitness (deref s l) = Some f -> (l < length (heap s))%nat.
Proof.
  intros Hf. destruct (decide (l < length (heap s))%nat) as [|Hn]; [done|].
  rewrite deref_dangling in Hf; [done | lia].
Qed.

Lemma best_fitness_ext s s' :
  heap s' = heap s -> best_indv s' = best_indv s -> best_fitness s' = best_fitness s.
Proof. intros Hh Hb. unfold best_fitness. rewrite Hb. destruct (best_indv s); [|done]. by rewrite (deref_ext s s'). Qed.

Lemma step_rel_refl s : step_rel s s.
Proof. split; try done; try lia. Qed.

Lemma step_rel_trans s1 s2 s3 : step_rel s1 s2 -> step_rel s2 s3 -> step_rel s1 s3.
Proof.
  intros [] []. split.
  - congruence.
  - congruence.
  - lia.
  - lia.
  - intros l Hl. destruct (sr_stable0 l Hl) as [Hg Hf].
    destruct (sr_stable1 l ltac:(lia)) as [Hg' Hf']. split; [congruence | auto].
  - auto.
  - by etrans.
  - lia.
  - auto.
  - lia.
Qed.

(** A step that leaves the objects, the counters and the log alone. *)
Lemma step_rel_same_objects s s' :
  heap s' = heap s -> settings s' = settings s ->
  total_evaluations s' = total_evaluations s ->
  history s' = history s -> generations s' = generations s ->
  length (population s') = length (population s) ->
  (wf s -> wf s') ->
  (forall x, best_at_least s x -> best_at_least s' x) ->
  step_rel s s'.
Proof.
  intros Hh Hs Ht Hhist Hg Hl Hwf Hb. split; try done; try lia.
  - by rewrite Hh.
  - intros l _. by rewrite (deref_ext s s').
  - by rewrite Hhist.
  - unfold evaluated_count. rewrite Hh. lia.
Qed.

Lemma step_rel_set_rng r s : step_rel s (set_rng r s).
Proof. by apply step_rel_same_objects. Qed.

(** *** Allocation and evaluation *)

Lemma evaluated_count_app s (h : list Indv) :
  evaluated_count (set_heap (heap s ++ h) s)
  = (evaluated_count s + length (filter (fun i => is_Some (fitness i)) h))%nat.
Proof. unfold evaluated_count. simpl. by rewrite filter_app, length_app. Qed.

Lemma deref_alloc s (h : list Indv) l :
  (l < length (heap s))%nat -> deref (set_heap (heap s ++ h) s) l = deref s l.
Proof. intros Hl. unfold deref. simpl. by rewrite lookup_app_l. Qed.

Lemma best_at_least_stable s s' :
  best_indv s' = best_indv s ->
  (forall l f, fitness (deref s l) = Some f -> fitness (deref s' l) = Some f) ->
  forall x, best_at_least s x -> best_at_least s' x.
Proof.
  intros Hb Hst x (f & Hf & Hx). exists f. split; [|done].
  unfold best_fitness in *. rewrite Hb. destruct (best_indv s); [auto | done].
Qed.

Lemma wf_alloc s (h : list Indv) : wf s -> wf (set_heap (heap s ++ h) s).
Proof.
  intros [Hp Hb]. split; simpl; intros x Hx; rewrite length_app.
  - specialize (Hp x Hx). lia.
  - specialize (Hb x Hx). lia.
Qed.

Lemma step_rel_alloc s g :
  step_rel s (set_heap (heap s ++ [mkIndividual g None]) s).
Proof.
  split; try done; simpl; try lia.
  - rewrite length_app. lia.
  - intros l Hl. by rewrite deref_alloc.
  - apply best_at_least_stable; [done|]. intros l f Hf.
    rewrite deref_alloc; [done|]. by eapply fitness_in_range.
  - apply wf_alloc.
  - rewrite evaluated_count_app.
    rewrite filter_cons_False; [simpl; lia|]. simpl. by intros [? ?].
Qed.

Lemma deref_set_fitness_eq s l f :
  (l < length (heap s))%nat ->
  deref (set_fitness l f s) l = mkIndividual (genome (deref s l)) f.
Proof. intros Hl. unfold deref at 1. simpl. by rewrite list_lookup_insert_eq. Qed.

Lemma deref_set_fitness_ne s l l' f :
  l' <> l -> deref (set_fitness l f s) l' = deref s l'.
Proof. intros Hne. unfold deref at 1. simpl. rewrite list_lookup_insert_ne; [done | congruence]. Qed.

Lemma filter_insert_unset (h : list Indv) l i f :
  h !! l = Some i -> fitness i = None ->
  length (filter (fun i => is_Some (fitness i)) (<[l := mkIndividual (genome i) f]> h))
  = (length (filter (fun i => is_Some (fitness i)) h)
     + match f with Some _ => 1 | None => 0 end)%nat.
Proof.
  revert l. induction h as [|a t IH]; intros [|l] Hl Hnone; simplify_eq/=.
  - rewrite (filter_cons_False _ i) by (rewrite Hnone; by intros [? ?]).
    destruct f.
    + rewrite filter_cons_True by (by eexists). simpl. lia.
    + rewrite filter_cons_False by (by intros [? ?]). lia.
  - rewrite !filter_cons. specialize (IH l Hl Hnone).
    destruct (decide (is_Some (fitness a))), f; simpl in *; lia.
Qed.

Lemma evaluated_count_set_fitness s l f :
  (l < length (heap s))%nat -> fitness (deref s l) = None ->
  evaluated_count (set_fitness l f s)
  = (evaluated_count s + match f with Some _ => 1 | None => 0 end)%nat.
Proof.
  intros Hl Hnone. unfold evaluated_count. simpl.
  destruct (lookup_lt_is_Some_2 (heap s) l Hl) as [i Hi].
  rewrite (deref_lookup s l i Hi) in Hnone |- *.
  by apply filter_insert_unset.
Qed.

(** Setting the fitness of an object that had none. *)
Lemma step_rel_set_fitness s l f :
  (l < length (heap s))%nat -> fitness (deref s l) = None ->
  step_rel s (set_total_evaluations (total_evaluations (set_fitness l f s) + 1)
                (set_fitness l f s)).
Proof.
  intros Hl Hnone.
  set (s1 := set_fitness l f s).
  set (s2 := set_total_evaluations (total_evaluations s1 + 1) s1).
  assert (Hd : forall l', deref s2 l' = deref s1 l') by (intros; by apply deref_ext).
  assert (Hstable : forall l' f', fitness (deref s l') = Some f' ->
            fitness (deref s2 l') = Some f').
  { intros l' f' Hf'. rewrite Hd. unfold s1.
    rewrite deref_set_fitness_ne; [done | congruence]. }
  split.
  - done.
  - done.
  - simpl. lia.
  - simpl. by rewrite length_insert.
  - intros l' Hl'. split; [|by apply Hstable]. rewrite Hd. unfold s1.
    destruct (decide (l' = l)) as [->|Hne].
    + by rewrite deref_set_fitness_eq.
    + by rewrite deref_set_fitness_ne.
  - by apply (best_at_least_stable s).
  - done.
  - done.
  - intros [Hp Hb]. split; simpl; intros x Hx; rewrite length_insert; auto.
  - change (evaluated_count s2) with (evaluated_count s1). unfold s1.
    rewrite evaluated_count_set_fitness by done. simpl. destruct f; lia.
Qed.

(** [_evaluate] on an individual without fitness: the measurement is turned
    into a fitness by [compute_fitness] and the counter advances by one. *)
Lemma evaluate_spec l s :
  (l < length (heap s))%nat -> fitness (deref s l) = None ->
  wp (_evaluate l) (fun r s' =>
    step_rel s s' /\ population s' = population s /\ best_indv s' = best_indv s /\
    history s' = history s /\ generations s' = generations s /\
    rng s' = rng s /\ length (heap s') = length (heap s) /\
    (forall l', l' <> l -> deref s' l' = deref s l') /\
    match r with
    | Ok _ => total_evaluations s' = total_evaluations s + 1
    | Raise e => e = IndexError /\ s' = s
    end) s.
Proof.
  intros Hl Hnone. unfold wp, _evaluate, bind, get. simpl.
  destruct (evaluate _ _) as [|[distance run_time] rest]; simpl.
  - split; [apply step_rel_refl | done].
  - split; [by apply step_rel_set_fitness|].
    repeat split; try done.
    + by rewrite length_insert.
    + intros l' Hne.
      rewrite (deref_ext (set_fitness l (compute_fitness distance run_time) s)) by done.
      by rewrite deref_set_fitness_ne.
Qed.

(** *** Parent selection and crossover touch the generator only *)

Definition only_rng s s' : Prop := s' = set_rng (rng s') s.

Lemma only_rng_refl s : only_rng s s.
Proof. unfold only_rng. by destruct s. Qed.

Lemma only_rng_set r s : only_rng s (set_rng r s).
Proof. done. Qed.

Lemma only_rng_trans s1 s2 s3 : only_rng s1 s2 -> only_rng s2 s3 -> only_rng s1 s3.
Proof. unfold only_rng. intros H12 H23. rewrite H23 at 1. by rewrite H12. Qed.

Lemma only_rng_step s s' : only_rng s s' -> step_rel s s'.
Proof. unfold only_rng. intros ->. apply step_rel_set_rng. Qed.

Lemma wp_call_rng {A} (f : Rng -> A * Rng) (Q : result A -> St -> Prop) s :
  (forall a r, f (rng s) = (a, r) -> Q (Ok a) (set_rng r s)) ->
  wp (call_rng f) Q s.
Proof. intros HQ. unfold wp, call_rng. destruct (f (rng s)) as [a r] eqn:E. by apply HQ. Qed.

Lemma wp_new_individual g (Q : result loc -> St -> Prop) s :
  Q (Ok (length (heap s))) (set_heap (heap s ++ [mkIndividual g None]) s) ->
  wp (new_individual g) Q s.
Proof. done. Qed.

Lemma select_spec s :
  wp select (fun r s' => only_rng s s' /\ ~ raises_zero_division r) s.
Proof.
  unfold select. apply wp_bind, wp_get. apply wp_bind, wp_call_rng.
  intros [ps|] r _.
  - apply wp_ret. split; [by unfold only_rng | done].
  - apply wp_raise. split; [by unfold only_rng | done].
Qed.

Lemma cross_pairs_spec pairs s :
  wp (cross_pairs pairs) (fun r s' => only_rng s s' /\ ~ raises_zero_division r) s.
Proof.
  revert s. induction pairs as [|[parent1 parent2] rest IH]; intros s; simpl.
  - apply wp_ret. split; [apply only_rng_refl | done].
  - apply wp_bind, wp_get. apply wp_bind, wp_call_rng. intros x r _.
    apply wp_bind.
    assert (Hnew : wp (if Qltb x (cx_prob s)
                       then bind (call_rng (crossover (genome parent1) (genome parent2)))
                              (fun r0 => match r0 with
                                         | Some (child1_genome, child2_genome) =>
                                             ret [child1_genome; child2_genome]
                                         | None => raise TypeError
                                         end)
                       else ret [])
                      (fun r0 s' => only_rng s s' /\ ~ raises_zero_division r0) (set_rng r s)).
    { destruct (Qltb x (cx_prob s)).
      - apply wp_bind, wp_call_rng. intros [[c1 c2]|] r' _.
        + apply wp_ret. split; [by unfold only_rng | done].
        + apply wp_raise. split; [by unfold only_rng | done].
      - apply wp_ret. split; [by unfold only_rng | done]. }
    eapply wp_mono; [exact Hnew|]. intros [new|e] s1 [H1 Hz]; [|done].
    apply wp_bind. eapply wp_mono; [apply IH|].
    intros [more|e] s2 [H2 Hz2].
    + apply wp_ret. split; [by eapply only_rng_trans | done].
    + split; [by eapply only_rng_trans | done].
Qed.

(** *** Mutation, repair and evaluation of the offspring *)

Lemma make_children_spec offspring s :
  wp (make_children offspring) (fun r s' =>
    step_rel s s' /\ population s' = population s /\ best_indv s' = best_indv s /\
    history s' = history s /\ generations s' = generations s /\
    (forall l, (l < length (heap s))%nat -> deref s' l = deref s l) /\
    ~ raises_zero_division r /\
    match r with
    | Ok children =>
        total_evaluations s' = total_evaluations s + Z.of_nat (length children) /\
        length children = length offspring /\
        forall c, c ∈ children -> (c < length (heap s'))%nat
    | Raise _ => True
    end) s.
Proof.
  revert s. induction offspring as [|g rest IH]; intros s; simpl.
  - apply wp_ret. split; [apply step_rel_refl|].
    repeat split; try done; [simpl; lia|]. intros c Hc. by apply elem_of_nil in Hc.
  - apply wp_bind, wp_get. apply wp_bind, wp_call_rng. intros x r _.
    apply wp_bind.
    assert (Hmut : wp (if Qltb x (mt_prob s) then call_rng (mutate g) else ret g)
                      (fun r0 s' => only_rng s s' /\ exists g', r0 = Ok g') (set_rng r s)).
    { destruct (Qltb x (mt_prob s)).
      - apply wp_call_rng. intros g' r' _. split; [by unfold only_rng | by eexists].
      - apply wp_ret. split; [by unfold only_rng | by eexists]. }
    eapply wp_mono; [exact Hmut|]. clear Hmut. intros r0 s1 [H1 [g' ->]].
    apply wp_bind, wp_new_individual.
    set (s2 := set_heap (heap s1 ++ [mkIndividual (repair g') None]) s1).
    assert (Hheap1 : heap s1 = heap s) by (rewrite H1; done).
    assert (Hs2 : step_rel s s2).
    { eapply step_rel_trans; [by apply only_rng_step | apply step_rel_alloc]. }
    assert (Hnew : deref s2 (length (heap s1)) = mkIndividual (repair g') None).
    { apply deref_lookup. unfold s2. simpl. by rewrite lookup_app_r, Nat.sub_diag. }
    assert (Hlen2 : length (heap s2) = S (length (heap s))).
    { unfold s2. simpl. rewrite length_app, Hheap1. simpl. lia. }
    apply wp_bind. eapply wp_mono.
    { apply (evaluate_spec (length (heap s1)) s2).
      - rewrite Hlen2, Hheap1. lia.
      - by rewrite Hnew. }
    intros r3 s3 (Hs3 & Hp3 & Hb3 & Hh3 & Hg3 & _ & Hlen3 & Hother3 & Hr3).
    assert (Hold3 : forall l, (l < length (heap s))%nat -> deref s3 l = deref s l).
    { intros l Hl. rewrite Hother3 by (rewrite Hheap1; lia).
      unfold s2. rewrite deref_alloc by (rewrite Hheap1; lia).
      apply deref_ext. done. }
    assert (Hfields : population s3 = population s /\ best_indv s3 = best_indv s /\
                      history s3 = history s /\ generations s3 = generations s).
    { rewrite Hp3, Hb3, Hh3, Hg3. unfold s2. simpl. rewrite H1. done. }
    destruct Hfields as (Hp & Hb & Hh & Hg).
    destruct r3 as [[]|e].
    + apply wp_bind. eapply wp_mono; [apply IH|].
      intros r4 s4 (Hs4 & Hp4 & Hb4 & Hh4 & Hg4 & Hold4 & Hz4 & Hr4).
      assert (Hcommon : step_rel s s4 /\ population s4 = population s /\
                best_indv s4 = best_indv s /\ history s4 = history s /\
                generations s4 = generations s /\
                (forall l, (l < length (heap s))%nat -> deref s4 l = deref s l)).
      { split; [eauto using step_rel_trans|].
        repeat split; try congruence.
        intros l Hl. rewrite Hold4 by (rewrite Hlen3, Hlen2; lia). by apply Hold3. }
      destruct Hcommon as (?&?&?&?&?&?).
      destruct r4 as [children|e].
      * apply wp_ret. destruct Hr4 as (Ht4 & Hl4 & Hin4).
        split; [done|]. repeat split; try done.
        -- simpl length. assert (total_evaluations s2 = total_evaluations s)
             by (unfold s2; simpl; by rewrite H1).
           lia.
        -- simpl. lia.
        -- intros c [->|Hc]%elem_of_cons; [|by apply Hin4].
           destruct Hs4 as [_ _ _ Hle _ _ _ _ _ _]. rewrite Hlen3, Hlen2, Hheap1 in *. lia.
      * split; [done|]. repeat split; done.
    + destruct Hr3 as [-> ->]. split; [done|]. repeat split; done.
Qed.


(** *** Replacement *)

Lemma py_index_lt {A} (p : list A) i k : py_index p i = Some k -> (k < length p)%nat.
Proof.
  unfold py_index.
  destruct ((0 <=? i) && (i <? Z.of_nat (length p))) eqn:E1.
  - intros [= <-]. apply andb_true_iff in E1 as [?%Z.leb_le ?%Z.ltb_lt]. lia.
  - destruct ((- Z.of_nat (length p) <=? i) && (i <? 0)) eqn:E2; [|done].
    intros [= <-]. apply andb_true_iff in E2 as [?%Z.leb_le ?%Z.ltb_lt]. lia.
Qed.

(** How [best_indv] may move in one pass of the update loop: not at all, or
    to the child when there was no best individual or the child's fitness is
    strictly greater. *)
Definition best_moves_to s s' (child : loc) : Prop :=
  best_indv s' = best_indv s \/
  (best_indv s' = Some child /\
   (best_indv s = None \/
    exists fb fc, best_fitness s = Some fb /\ fitness (deref s child) = Some fc /\
                  (fb < fc)%Q)).

Lemma best_moves_at_least s s' child :
  heap s' = heap s -> best_moves_to s s' child ->
  forall x, best_at_least s x -> best_at_least s' x.
Proof.
  intros Hh [Hsame | [Hc [Hnone | (fb & fc & Hfb & Hfc & Hlt)]]] x (f & Hf & Hx).
  - exists f. by rewrite (best_fitness_ext s s').
  - unfold best_fitness in Hf. by rewrite Hnone in Hf.
  - exists fc. split.
    + unfold best_fitness. rewrite Hc. by rewrite (deref_ext s s').
    + rewrite Hf in Hfb. simplify_eq. apply Qlt_le_weak in Hlt. by eapply Qle_trans.
Qed.

Lemma update_population_spec child s :
  (child < length (heap s))%nat ->
  wp (update_population child) (fun r s' =>
    step_rel s s' /\ heap s' = heap s /\
    total_evaluations s' = total_evaluations s /\
    history s' = history s /\ generations s' = generations s /\
    ~ raises_zero_division r /\
    best_moves_to s s' child /\
    (population s' = population s \/
     exists k, (k < length (population s))%nat /\
               population s' = <[k := child]> (population s)) /\
    (r = Ok tt -> is_Some (best_fitness s') \/
                  (best_indv s = None /\ best_indv s' = Some child))) s.
Proof.
  intros Hchild.
  assert (Hfinish : forall s1 r (s' : St),
    heap s1 = heap s -> settings s1 = settings s ->
    total_evaluations s1 = total_evaluations s -> history s1 = history s ->
    generations s1 = generations s -> population s1 = population s ->
    best_moves_to s s1 child ->
    (r = Ok tt -> is_Some (best_fitness s1) \/
                  (best_indv s = None /\ best_indv s1 = Some child)) ->
    ~ raises_zero_division r ->
    heap s' = heap s1 -> settings s' = settings s1 ->
    total_evaluations s' = total_evaluations s1 -> history s' = history s1 ->
    generations s' = generations s1 -> best_indv s' = best_indv s1 ->
    (population s' = population s1 \/
     exists k, (k < length (population s1))%nat /\
               population s' = <[k := child]> (population s1)) ->
    step_rel s s' /\ heap s' = heap s /\
    total_evaluations s' = total_evaluations s /\
    history s' = history s /\ generations s' = generations s /\
    ~ raises_zero_division r /\
    best_moves_to s s' child /\
    (population s' = population s \/
     exists k, (k < length (population s))%nat /\
               population s' = <[k := child]> (population s)) /\
    (r = Ok tt -> is_Some (best_fitness s') \/
                  (best_indv s = None /\ best_indv s' = Some child))).
  { intros s1 r s' Hh1 Hset1 Ht1 Hhi1 Hg1 Hp1 Hmove Hsome Hz Hh Hset Ht Hhi Hg Hb Hpop.
    assert (Hmove' : best_moves_to s s' child).
    { unfold best_moves_to in *. rewrite Hb. done. }
    assert (Hpop' : population s' = population s \/
              exists k, (k < length (population s))%nat /\
                        population s' = <[k := child]> (population s)).
    { by rewrite <- Hp1. }
    split; [|repeat split; try congruence; try done].
    - apply step_rel_same_objects; try congruence.
      + destruct Hpop' as [-> | (k & _ & ->)]; [done | by rewrite length_insert].
      + intros [Hwp Hwb]. split.
        * intros l Hl. rewrite Hh, Hh1.
          destruct Hpop' as [Heq | (k & Hk & Heq)]; rewrite Heq in Hl; [by apply Hwp|].
          apply list_elem_of_lookup in Hl as [j Hj].
          destruct (decide (j = k)) as [->|Hne].
          -- rewrite list_lookup_insert_eq in Hj by done. by simplify_eq.
          -- rewrite list_lookup_insert_ne in Hj by done.
             apply Hwp, list_elem_of_lookup. eauto.
        * intros b Hbs. rewrite Hh, Hh1.
          destruct Hmove' as [Hsame | [Hc _]]; [apply Hwb; congruence | congruence].
      + apply (best_moves_at_least s s' child); [congruence | done].
    - intros Hr. destruct (Hsome Hr) as [Hs | [Hn Hc]].
      + left. by rewrite (best_fitness_ext s1 s').
      + right. split; [done | congruence]. }
  unfold update_population. apply wp_bind, wp_get. apply wp_bind.
  assert (Hbetter : wp (match best_indv s with
                        | Some b => lift (py_gt (fitness (deref s child)) (fitness (deref s b)))
                        | None => ret true
                        end)
            (fun r s1 => s1 = s /\
               match r with
               | Ok true => best_indv s = None \/
                   exists fb fc, best_fitness s = Some fb /\
                     fitness (deref s child) = Some fc /\ (fb < fc)%Q
               | Ok false => is_Some (best_fitness s)
               | Raise e => e = TypeError
               end) s).
  { destruct (best_indv s) as [b|] eqn:Eb.
    - apply wp_lift. split; [done|]. unfold py_gt, best_fitness. rewrite Eb.
      destruct (fitness (deref s child)) as [fc|]; [|done].
      destruct (fitness (deref s b)) as [fb|]; [|done].
      destruct (Qltb fb fc) eqn:E.
      + right. exists fb, fc. by apply Qltb_lt in E.
      + by eexists.
    - apply wp_ret. split; [done|]. by left. }
  eapply wp_mono; [exact Hbetter|]. clear Hbetter.
  intros [better|e] s0 [-> Hb].
  2:{ subst e. apply (Hfinish s _ s); try done; by left. }
  apply wp_bind.
  set (s1 := if better then set_best_indv (Some child) s else s).
  assert (Hs1 : wp (if better then modify (set_best_indv (Some child)) else ret tt)
                   (fun r s' => r = Ok tt /\ s' = s1) s).
  { unfold s1. destruct better; [by apply wp_modify | by apply wp_ret]. }
  eapply wp_mono; [exact Hs1|]. clear Hs1. intros r0 s0 [-> ->].
  assert (Hmove : best_moves_to s s1 child).
  { unfold s1. destruct better; [by right | by left]. }
  assert (Hsome : is_Some (best_fitness s1) \/ (best_indv s = None /\ best_indv s1 = Some child)).
  { unfold s1. destruct better; [|by left].
    destruct Hb as [Hn | (fb & fc & _ & Hfc & _)]; [by right|].
    left. unfold best_fitness. simpl. rewrite (deref_ext s) by done. by eexists. }
  assert (Hframe1 : heap s1 = heap s /\ settings s1 = settings s /\
            total_evaluations s1 = total_evaluations s /\ history s1 = history s /\
            generations s1 = generations s /\ population s1 = population s).
  { unfold s1. by destruct better. }
  destruct Hframe1 as (?&?&?&?&?&?).
  apply wp_bind, wp_get. apply wp_bind, wp_call_rng. intros [i|] r _.
  - destruct (py_index (population s1) i) as [k|] eqn:Ek.
    + apply wp_modify. apply (Hfinish s1); try done.
      right. exists k. split; [by eapply py_index_lt | done].
    + apply wp_raise. apply (Hfinish s1); try done. by left.
  - apply wp_ret. apply (Hfinish s1); try done. by left.
Qed.


(** *** Recording the history *)

Lemma py_sum_ok xs acc t :
  py_sum xs acc = Ok t -> forall x, x ∈ xs -> is_Some x.
Proof.
  revert acc. induction xs as [|[x|] xs IH]; intros acc Hs y Hy; simpl in *.
  - by apply elem_of_nil in Hy.
  - destruct (number_add acc x) as [a|]; [|done].
    apply elem_of_cons in Hy as [->|Hy]; [by eexists | by eapply IH].
  - done.
Qed.

Lemma py_sum_raises xs acc e :
  py_sum xs acc = Raise e -> e = TypeError \/ e = OverflowError.
Proof.
  revert acc. induction xs as [|[x|] xs IH]; intros acc Hs; simpl in *.
  - done.
  - destruct (number_add acc x) as [a|]; [by eapply IH | right; by simplify_eq].
  - left. by simplify_eq.
Qed.

Lemma py_mean_ok xs a :
  py_mean xs = Ok a -> xs <> [] /\ forall x, x ∈ xs -> is_Some x.
Proof.
  unfold py_mean. destruct (py_sum xs 0) as [t|e] eqn:Es; [|done].
  destruct xs as [|x xs]; [done|]. intros _. split; [done|]. by eapply py_sum_ok.
Qed.

Lemma py_mean_zero_division xs :
  py_mean xs = Raise ZeroDivisionError -> xs = [].
Proof.
  unfold py_mean. destruct (py_sum xs 0) as [t|e] eqn:Es.
  - destruct xs as [|x xs]; [done|]. cbn [length Nat.eqb].
    by destruct (number_truediv _ _).
  - intros [= ->]. by apply py_sum_raises in Es as [?|?].
Qed.

Lemma record_history_spec s :
  wp record_history (fun r s' =>
    s' = set_history (history s') s /\
    match r with
    | Ok _ =>
        (best_indv s = None /\ history s' = history s) \/
        (exists avg, population s <> [] /\
           (forall l, l ∈ population s -> is_Some (fitness (deref s l))) /\
           history s' = history s ++ [mkEntry (generations s) (best_fitness s) avg])
    | Raise e =>
        history s' = history s /\ (e = ZeroDivisionError -> population s = [])
    end) s.
Proof.
  assert (Hsame : s = set_history (history s) s) by (by destruct s).
  unfold record_history. apply wp_bind, wp_get.
  destruct (best_indv s) as [b|] eqn:Eb.
  - apply wp_bind, wp_lift.
    destruct (py_mean _) as [avg|e] eqn:Em.
    + apply wp_modify. split; [done|]. right. exists avg.
      apply py_mean_ok in Em as [Hne Hall]. split; [|split].
      * intros Hp. by rewrite Hp in Hne.
      * intros l Hl. apply Hall. apply list_elem_of_fmap. eauto.
      * simpl. unfold best_fitness. by rewrite Eb.
    + split; [done|]. split; [done|]. intros ->.
      apply py_mean_zero_division in Em. by apply fmap_nil_inv in Em.
  - apply wp_ret. split; [done|]. by left.
Qed.

(** *** The history invariant *)

Lemma history_inv_step n s s' :
  (forall x, best_at_least s x -> best_at_least s' x) ->
  history s' = history s -> generations s <= generations s' ->
  history_inv n s -> history_inv n s'.
Proof.
  intros Hb Hh Hg (Hn & Hs & Hbd). unfold history_inv, history_bounded.
  rewrite Hh. split; [done|]. split; [done|].
  intros e He. destruct (Hbd e He) as [Hlt (x & Hx & Hbx)].
  split; [lia|]. exists x. auto.
Qed.

Lemma history_inv_append n s f avg :
  best_fitness s = Some f -> history_inv n s ->
  history_inv n (set_generations (generations s + 1)
                   (set_history (history s ++ [mkEntry (generations s) (Some f) avg]) s)).
Proof.
  intros Hf (Hn & Hs & Hbd).
  set (e := mkEntry (generations s) (Some f) avg).
  set (s' := set_generations _ _).
  assert (Hbf : best_fitness s' = Some f).
  { rewrite <- Hf. by apply best_fitness_ext. }
  assert (Hdrop : drop n (history s') = drop n (history s) ++ [e]).
  { unfold s'. simpl. by rewrite drop_app_le. }
  unfold history_inv, history_bounded. rewrite Hdrop.
  set (h := drop n (history s)) in *.
  split; [|split].
  - unfold s'. simpl. rewrite length_app. lia.
  - intros i j ei ej Hij Hi Hj.
    assert (Hjl : (j < length (h ++ [e]))%nat) by (by eapply lookup_lt_Some).
    rewrite length_app in Hjl. simpl in Hjl.
    rewrite lookup_app_l in Hi by lia.
    destruct (decide (j < length h)%nat) as [Hlt|Hge].
    + rewrite lookup_app_l in Hj by done. by apply (Hs i j).
    + rewrite lookup_app_r in Hj by lia.
      replace (j - length h)%nat with 0%nat in Hj by lia.
      simpl in Hj. simplify_eq.
      destruct (Hbd ei) as [Hg (x & Hx & f' & Hf' & Hle)].
      { apply list_elem_of_lookup. eauto. }
      split; [done|]. exists x, f. rewrite Hf in Hf'. by simplify_eq.
  - intros e' He'. apply elem_of_app in He' as [He'|He'].
    + destruct (Hbd e' He') as [Hg (x & Hx & f' & Hf' & Hle)].
      split; [simpl; lia|]. exists x. split; [done|]. exists f.
      rewrite Hf in Hf'. by simplify_eq.
    + apply list_elem_of_singleton in He' as ->. split; [simpl; lia|].
      exists f. split; [done|]. exists f. split; [done | apply Qle_refl].
Qed.

Lemma step_rel_record s h g :
  history s `prefix_of` h -> generations s <= g ->
  step_rel s (set_generations g (set_history h s)).
Proof.
  intros Hh Hg. split.
  - done.
  - done.
  - simpl. lia.
  - done.
  - intros l _. by rewrite (deref_ext s (set_generations _ _)).
  - apply best_at_least_stable; [done|]. intros l f.
    by rewrite (deref_ext s (set_generations _ _)).
  - done.
  - done.
  - done.
  - unfold evaluated_count. simpl. lia.
Qed.

Lemma history_ready_same s s' :
  heap s' = heap s -> population s' = population s -> best_indv s' = best_indv s ->
  history_ready s -> history_ready s'.
Proof.
  intros Hh Hp Hb Hready Hne Hall. rewrite (best_fitness_ext s s') by done.
  apply Hready; [by rewrite <- Hp|].
  intros l Hl. rewrite <- (deref_ext s s') by done. apply Hall. by rewrite Hp.
Qed.

(** A member the update loop puts into the population has been evaluated
    whenever the mean over the new population can be taken. *)
Lemma update_population_ready child s s' :
  heap s' = heap s ->
  (population s' = population s \/
   exists k, (k < length (population s))%nat /\
             population s' = <[k := child]> (population s)) ->
  (is_Some (best_fitness s') \/ (best_indv s = None /\ best_indv s' = Some child)) ->
  history_ready s -> history_ready s'.
Proof.
  intros Hh Hpop [Hsome | [Hnone Hc]] Hready Hne Hall; [done|].
  destruct Hpop as [Hp | (k & Hk & Hp)].
  - destruct Hready as [f Hf].
    + by rewrite <- Hp.
    + intros l Hl. rewrite <- (deref_ext s s') by done. apply Hall. by rewrite Hp.
    + unfold best_fitness in Hf. by rewrite Hnone in Hf.
  - unfold best_fitness. rewrite Hc. apply Hall. rewrite Hp.
    apply list_elem_of_lookup. exists k. by apply list_lookup_insert_eq.
Qed.

Lemma history_ready_ext s s' :
  wf s -> population s' = population s -> best_indv s' = best_indv s ->
  (forall l, (l < length (heap s))%nat -> deref s' l = deref s l) ->
  history_ready s -> history_ready s'.
Proof.
  intros [Hwp Hwb] Hp Hb Hd Hready Hne Hall.
  unfold best_fitness. rewrite Hb.
  destruct Hready as [f Hf].
  - by rewrite <- Hp.
  - intros l Hl. rewrite <- Hd by auto. apply Hall. by rewrite Hp.
  - unfold best_fitness in Hf. destruct (best_indv s) as [b|]; [|done].
    rewrite Hd by auto. by eexists.
Qed.

(** *** One pass of the loop *)

Lemma rows_since_refl s s' : history s' = history s -> rows_since s s' = [].
Proof. intros Hh. unfold rows_since. rewrite Hh. apply drop_all. Qed.

Lemma rows_since_trans s1 s2 s3 :
  history s1 `prefix_of` history s2 -> history s2 `prefix_of` history s3 ->
  rows_since s1 s3 = rows_since s1 s2 ++ rows_since s2 s3.
Proof.
  intros [a Ha] [b Hb]. unfold rows_since. rewrite Hb, Ha.
  rewrite <- (assoc_L (++)). rewrite !drop_app_length.
  by rewrite (assoc_L (++)), drop_app_length.
Qed.

Lemma rows_at_least_trans s1 s2 s3 x :
  step_rel s1 s2 -> step_rel s2 s3 ->
  (forall x, best_at_least s1 x -> rows_at_least x (rows_since s1 s2)) ->
  (forall x, best_at_least s2 x -> rows_at_least x (rows_since s2 s3)) ->
  best_at_least s1 x -> rows_at_least x (rows_since s1 s3).
Proof.
  intros H12 H23 Hr12 Hr23 Hx.
  rewrite (rows_since_trans s1 s2 s3) by (apply H12 || apply H23).
  intros e [He|He]%elem_of_app.
  - by apply (Hr12 x).
  - apply (Hr23 x); [|done]. by apply H12.
Qed.

(** What the second half of a pass guarantees. *)
Definition finish_post s (r : result unit) s' : Prop :=
  step_rel s s' /\
  (history_ready s -> forall n, history_inv n s -> history_inv n s') /\
  (population s <> [] -> ~ raises_zero_division r) /\
  (forall x, best_at_least s x -> rows_at_least x (rows_since s s')) /\
  match r with
  | Ok _ =>
      total_evaluations s' = total_evaluations s /\
      generations s' = generations s + 1 /\
      (history_ready s -> history_ready s')
  | Raise _ => True
  end.

Lemma finish_abort s s' e :
  step_rel s s' -> history s' = history s -> generations s' = generations s ->
  (population s <> [] -> e <> ZeroDivisionError) ->
  finish_post s (Raise e) s'.
Proof.
  intros Hs Hh Hg Hz. split; [done|]. split; [|split; [|split; [|done]]].
  - intros _ n. apply history_inv_step; [apply Hs | done | lia].
  - intros Hne [= He]. by apply Hz.
  - intros x _. rewrite rows_since_refl by done. by intros e' ?%elem_of_nil.
Qed.

Lemma finish_pass_spec children s :
  (forall c, c ∈ children -> (c < length (heap s))%nat) ->
  wp (finish_pass children) (finish_post s) s.
Proof.
  intros Hin. unfold finish_pass.
  apply wp_bind.
  eapply wp_mono.
  { apply (wp_for_each
      (fun sc => step_rel s sc /\ heap sc = heap s /\
                 total_evaluations sc = total_evaluations s /\
                 history sc = history s /\ generations sc = generations s /\
                 (history_ready s -> history_ready sc))
      (fun e sc => step_rel s sc /\ history sc = history s /\
                   generations sc = generations s /\ e <> ZeroDivisionError)).
    - split; [apply step_rel_refl | done].
    - intros child sc Hchild (Hsc & Hhc & Htc & Hhic & Hgc & Hrc).
      eapply wp_mono.
      { apply update_population_spec. rewrite Hhc. by apply Hin. }
      intros r sc' (Hstep & Hh' & Ht' & Hhi' & Hg' & Hz' & Hmove & Hpop & Hok).
      destruct r as [[]|e].
      + split; [by eapply step_rel_trans|]. repeat split; try congruence.
        intros Hr3. eapply update_population_ready; eauto.
      + split; [by eapply step_rel_trans|].
        repeat split; try congruence; intros ->; by apply Hz'. }
  intros [[]|e] s4.
  2:{ intros (Hs4 & Hhi4 & Hg4 & Hz4). by apply finish_abort. }
  intros (Hs4 & Hh4 & Ht4 & Hhi4 & Hg4 & Hready4).
  assert (Hpl4 : length (population s4) = length (population s)) by apply Hs4.
  apply wp_bind. eapply wp_mono; [apply record_history_spec|].
  intros [[]|e] s5 [H5 Hr5].
  2:{ destruct Hr5 as [Hhi5 Hz5].
      assert (Hs45 : step_rel s4 s5).
      { rewrite H5, Hhi5. by apply step_rel_same_objects. }
      apply finish_abort; [eauto using step_rel_trans | congruence | |].
      - rewrite H5. simpl. congruence.
      - intros Hne ->. specialize (Hz5 eq_refl). rewrite Hz5 in Hpl4.
        by destruct (population s). }
  apply wp_modify.
  set (s6 := set_generations (generations s5 + 1) s5).
  assert (Hg5 : generations s5 = generations s) by (rewrite H5; simpl; congruence).
  assert (Hs46 : step_rel s4 s6).
  { unfold s6. rewrite H5. apply step_rel_record; [|simpl; lia].
    destruct Hr5 as [[_ ->] | (avg & _ & _ & ->)]; [done | by apply prefix_app_r]. }
  assert (Hsame6 : heap s6 = heap s4 /\ population s6 = population s4 /\
                   best_indv s6 = best_indv s4 /\
                   total_evaluations s6 = total_evaluations s4 /\
                   history s6 = history s5).
  { unfold s6. rewrite H5. done. }
  destruct Hsame6 as (Hh6 & Hp6 & Hb6 & Ht6 & Hhi6).
  split; [eauto using step_rel_trans|]. split; [|split; [done|split]].
  - intros Hready n Hinv.
    assert (Hinv4 : history_inv n s4).
    { revert Hinv. apply history_inv_step; [apply Hs4 | congruence | lia]. }
    destruct Hr5 as [[Hnone Hhi5] | (avg & Hne & Hall & Hhi5)].
    + revert Hinv4. apply history_inv_step; [apply Hs46 | | ].
      * unfold s6. simpl. done.
      * unfold s6. simpl. rewrite Hg5. lia.
    + destruct (Hready4 Hready Hne Hall) as [f Hf].
      unfold s6. rewrite H5, Hhi5, Hf. simpl.
      by apply history_inv_append.
  - intros x Hx. unfold rows_since. rewrite Hhi6.
    destruct Hr5 as [[Hnone Hhi5] | (avg & Hne & Hall & Hhi5)]; rewrite Hhi5, Hhi4.
    + rewrite drop_all. by intros e' ?%elem_of_nil.
    + rewrite drop_app_length. intros e' ->%list_elem_of_singleton. simpl.
      destruct (sr_best _ _ Hs4 x Hx) as (f & Hf & Hle). eauto.
  - split; [lia|]. split; [unfold s6; simpl; lia|].
    intros Hready. apply (history_ready_same s4); auto.
Qed.

(** What a pass guarantees: the step relation, the history invariant, no
    division by zero unless the population is empty, rows not below the best
    fitness the pass started with and, when the pass completes, one
    evaluation per child. *)
Definition iteration_post s (r : result nat) s' : Prop :=
  step_rel s s' /\
  (history_ready s -> wf s -> forall n, history_inv n s -> history_inv n s') /\
  (population s <> [] -> ~ raises_zero_division r) /\
  (forall x, best_at_least s x -> rows_at_least x (rows_since s s')) /\
  match r with
  | Ok k =>
      total_evaluations s' = total_evaluations s + Z.of_nat k /\
      generations s' = generations s + 1 /\
      (history_ready s -> wf s -> history_ready s')
  | Raise _ => True
  end.

Lemma iteration_abort s s' e :
  step_rel s s' -> history s' = history s -> generations s' = generations s ->
  (population s <> [] -> e <> ZeroDivisionError) ->
  iteration_post s (Raise e) s'.
Proof.
  intros Hs Hh Hg Hz. split; [done|]. split; [|split; [|split; [|done]]].
  - intros _ _ n. apply history_inv_step; [apply Hs | done | lia].
  - intros Hne [= He]. by apply Hz.
  - intros x _. rewrite rows_since_refl by done. by intros e' ?%elem_of_nil.
Qed.

Lemma iteration_spec s : wp iteration (iteration_post s) s.
Proof.
  unfold iteration.
  apply wp_bind. eapply wp_mono; [apply select_spec|].
  intros [parents|e] s1 [H1 Hz1].
  2:{ apply iteration_abort; [by apply only_rng_step | by rewrite H1 .. |].
      intros _ ->. by apply Hz1. }
  apply wp_bind. eapply wp_mono; [apply cross_pairs_spec|].
  intros [offspring|e] s2 [H2 Hz2].
  2:{ pose proof (only_rng_trans _ _ _ H1 H2) as H12.
      apply iteration_abort; [by apply only_rng_step | by rewrite H12 .. |].
      intros _ ->. by apply Hz2. }
  pose proof (only_rng_trans _ _ _ H1 H2) as H12. clear H1 H2 Hz1 Hz2 s1.
  assert (Hs2 : step_rel s s2) by (by apply only_rng_step).
  assert (Hf2 : heap s2 = heap s /\ population s2 = population s /\
                best_indv s2 = best_indv s /\ history s2 = history s /\
                generations s2 = generations s /\
                total_evaluations s2 = total_evaluations s) by (by rewrite H12).
  destruct Hf2 as (Hh2 & Hp2 & Hb2 & Hhi2 & Hg2 & Ht2).
  apply wp_bind. eapply wp_mono; [apply make_children_spec|].
  intros r3 s3 (Hs3 & Hp3 & Hb3 & Hhi3 & Hg3 & Hold3 & Hz3 & Hr3).
  assert (Hs03 : step_rel s s3) by eauto using step_rel_trans.
  destruct r3 as [children|e].
  2:{ apply iteration_abort; [done | congruence | congruence |].
      intros _ ->. by apply Hz3. }
  destruct Hr3 as (Ht3 & Hlen3 & Hin3).
  assert (Hready3 : history_ready s -> wf s -> history_ready s3).
  { intros Hr Hwf. apply (history_ready_ext s2); try done.
    - by apply Hs2.
    - by apply (history_ready_same s). }
  assert (Hrows3 : rows_since s s3 = []) by (apply rows_since_refl; congruence).
  assert (Hpop3 : population s3 <> [] <-> population s <> []) by (by rewrite Hp3, Hp2).
  apply wp_bind. eapply wp_mono; [by apply finish_pass_spec|].
  intros r4 s4 (Hs4 & Hinv4 & Hz4 & Hrows4 & Hr4).
  assert (Hcommon : step_rel s s4 /\
    (history_ready s -> wf s -> forall n, history_inv n s -> history_inv n s4) /\
    (forall x, best_at_least s x -> rows_at_least x (rows_since s s4))).
  { split; [eauto using step_rel_trans|]. split.
    - intros Hr Hwf n Hinv. apply Hinv4; [by apply Hready3|].
      revert Hinv. apply history_inv_step; [apply Hs03 | congruence | lia].
    - intros x Hx. rewrite (rows_since_trans s s3 s4) by (apply Hs03 || apply Hs4).
      rewrite Hrows3. simpl. apply Hrows4. by apply Hs03. }
  destruct Hcommon as (Hs04 & Hinv04 & Hrows04).
  destruct r4 as [[]|e].
  - apply wp_ret. destruct Hr4 as (Ht4 & Hg4 & Hready4).
    split; [done|]. split; [done|]. split; [done|]. split; [done|].
    split; [lia|]. split; [lia|]. auto.
  - split; [done|]. split; [done|]. split; [|by split].
    intros Hne [= ->]. apply Hz4; [by apply Hpop3 | done].
Qed.

End RunSteps.

(** ** The warm-up pass and the loop *)

Section RunLoop.
Context {Genome Phenotype Rng Evaluator : Type}.
Context {py_genome : PyObject Genome} {random : Random Rng}.
Context {backend : Backend Evaluator Phenotype} {ops : Operators Genome Phenotype Rng}.
Context {arithmetic : Arithmetic}.

#[local] Abbreviation St := (State Genome Rng Evaluator).

Implicit Types (s : St) (l : loc).

(** How [best_indv] may move in one pass of the warm-up loop: not at all, or
    to the individual at hand when the best had no fitness or a strictly
    smaller one. *)
Definition warm_moves_to s s' (indv : loc) : Prop :=
  best_indv s' = best_indv s \/
  (best_indv s' = Some indv /\
   (best_fitness s = None \/
    exists fb fi, best_fitness s = Some fb /\ fitness (deref s' indv) = Some fi /\
                  (fb < fi)%Q)).

Lemma warm_step_spec indv s :
  (indv < length (heap s))%nat ->
  wp (warm_step indv) (fun r s' =>
    step_rel s s' /\ population s' = population s /\ history s' = history s /\
    generations s' = generations s /\ length (heap s') = length (heap s) /\
    ~ raises_zero_division r /\ warm_moves_to s s' indv /\
    (r = Ok tt -> is_Some (fitness (deref s' indv)) -> is_Some (best_fitness s'))) s.
Proof.
  intros Hindv. unfold warm_step. apply wp_bind, wp_get. apply wp_bind.
  assert (Hev : wp (match fitness (deref s indv) with
                    | Some _ => ret tt
                    | None => _evaluate indv
                    end)
            (fun r s1 =>
               step_rel s s1 /\ population s1 = population s /\
               best_indv s1 = best_indv s /\ history s1 = history s /\
               generations s1 = generations s /\
               length (heap s1) = length (heap s) /\
               match r with Ok _ => True | Raise e => e = IndexError end) s).
  { destruct (fitness (deref s indv)) eqn:Ef.
    - apply wp_ret. split; [apply step_rel_refl | done].
    - eapply wp_mono; [by apply evaluate_spec|].
      intros r s1 (H1 & H2 & H3 & H4 & H5 & _ & H6 & _ & H7).
      split; [done|]. repeat split; try done. destruct r; [done | apply H7]. }
  eapply wp_mono; [exact Hev|]. clear Hev.
  intros [[]|e] s1 (Hs1 & Hp1 & Hb1 & Hhi1 & Hg1 & Hl1 & He).
  2:{ subst e. split; [done|]. repeat split; try done. by left. }
  apply wp_bind, wp_get.
  assert (Hstable : forall f, best_fitness s = Some f -> best_fitness s1 = Some f).
  { intros f Hf. unfold best_fitness in *. rewrite Hb1.
    destruct (best_indv s) as [b|]; [|done].
    apply Hs1; [by eapply fitness_in_range | done]. }
  assert (Hset : forall (better : bool),
    (better = true ->
       best_fitness s1 = None \/
       exists fb fi, best_fitness s1 = Some fb /\ fitness (deref s1 indv) = Some fi /\
                     (fb < fi)%Q) ->
    (better = false -> is_Some (best_fitness s1)) ->
    wp (if better then modify (set_best_indv (Some indv)) else ret tt)
      (fun r s' =>
         step_rel s s' /\ population s' = population s /\ history s' = history s /\
         generations s' = generations s /\ length (heap s') = length (heap s) /\
         ~ raises_zero_division r /\ warm_moves_to s s' indv /\
         (r = Ok tt -> is_Some (fitness (deref s' indv)) -> is_Some (best_fitness s'))) s1).
  { intros [] Htrue Hfalse.
    - apply wp_modify. set (s2 := set_best_indv (Some indv) s1).
      assert (Hd : forall l, deref s2 l = deref s1 l) by (intros; by apply deref_ext).
      assert (Hmove : warm_moves_to s s2 indv).
      { right. split; [done|]. rewrite Hd.
        destruct (best_fitness s) as [fb|] eqn:Efb; [|by left]. right.
        destruct (Htrue eq_refl) as [Hn | (fb' & fi & Hfb' & Hfi & Hlt)].
        - by rewrite (Hstable fb) in Hn.
        - rewrite (Hstable fb) in Hfb' by done. simplify_eq. eauto. }
      assert (Hs12 : step_rel s1 s2).
      { apply step_rel_same_objects; try done.
        - intros [Hwp Hwb]. split; [done|]. intros b [= <-]. simpl. lia.
        - intros x (f & Hf & Hx).
          destruct (Htrue eq_refl) as [Hn | (fb' & fi & Hfb' & Hfi & Hlt)];
            [by rewrite Hn in Hf|].
          rewrite Hf in Hfb'. simplify_eq. exists fi. split.
          + unfold best_fitness. simpl. by rewrite Hd.
          + apply Qlt_le_weak in Hlt. by eapply Qle_trans. }
      split; [by eapply step_rel_trans|]. repeat split; done.
    - apply wp_ret. split; [done|]. repeat split; try done.
      + left. done.
      + intros _ _. by apply Hfalse. }
  destruct (best_indv s1) as [b|] eqn:Eb.
  2:{ apply wp_raise. split; [done|]. repeat split; try done. left. congruence. }
  apply wp_bind.
  destruct (fitness (deref s1 b)) as [fb|] eqn:Efb.
  - apply wp_lift. unfold py_gt.
    destruct (fitness (deref s1 indv)) as [fi|] eqn:Efi.
    + apply (Hset (Qltb fb fi)).
      * intros Hlt%Qltb_lt. right. exists fb, fi. unfold best_fitness. by rewrite Eb.
      * intros _. unfold best_fitness. rewrite Eb, Efb. by eexists.
    + split; [done|]. repeat split; try done. left. congruence.
  - apply wp_ret. apply (Hset true); [|done].
    intros _. left. unfold best_fitness. by rewrite Eb.
Qed.

Lemma warm_loop_spec (pop : list loc) s :
  (forall a, a ∈ pop -> (a < length (heap s))%nat) ->
  wp (for_each pop warm_step) (fun r s' =>
    step_rel s s' /\ population s' = population s /\ history s' = history s /\
    generations s' = generations s /\ ~ raises_zero_division r /\
    (r = Ok tt -> forall a, last pop = Some a ->
       is_Some (fitness (deref s' a)) -> is_Some (best_fitness s'))) s.
Proof.
  revert s. induction pop as [|a t IH]; intros s Hin; simpl.
  - apply wp_ret. split; [apply step_rel_refl | done].
  - apply wp_bind. eapply wp_mono.
    { apply warm_step_spec, Hin. by left. }
    intros [[]|e] s1 (Hs1 & Hp1 & Hhi1 & Hg1 & Hl1 & Hz1 & _ & Hok1).
    2:{ split; [done|]. done. }
    destruct t as [|a' t'].
    { apply wp_ret. split; [done|]. repeat split; try done.
      intros _ b [= <-]. by apply Hok1. }
    eapply wp_mono.
    { apply IH. intros b Hb. rewrite Hl1. apply Hin. by right. }
    intros r s2 (Hs2 & Hp2 & Hhi2 & Hg2 & Hz2 & Hok2).
    split; [by eapply step_rel_trans|]. repeat split; try congruence.
    intros -> b Hlast. by apply Hok2.
Qed.

Lemma warm_up_spec s :
  wf s ->
  wp warm_up (fun r s' =>
    step_rel s s' /\ population s' = population s /\ history s' = history s /\
    generations s' = generations s /\ ~ raises_zero_division r /\
    (r = Ok tt -> history_ready s')) s.
Proof.
  intros Hwf. unfold warm_up. apply wp_bind, wp_get.
  eapply wp_mono; [apply warm_loop_spec, Hwf|].
  intros r s' (Hs & Hp & Hhi & Hg & Hz & Hok).
  split; [done|]. repeat split; try done.
  intros -> Hne Hall.
  destruct (last (population s)) as [a|] eqn:Ea.
  - apply (Hok eq_refl a eq_refl), Hall. rewrite Hp.
    apply last_Some in Ea as [t ->]. apply elem_of_app. right. by left.
  - apply last_None in Ea. by rewrite Hp in Hne.
Qed.

(** *** The loop *)

(** More fuel does not change a run that has ended. *)
Lemma loop_fuel_mono fuel fuel' trace s o trace' s' :
  loop fuel trace s = (o, trace', s') -> o <> OutOfFuel -> (fuel <= fuel')%nat ->
  loop fuel' trace s = (o, trace', s').
Proof.
  revert fuel' trace s. induction fuel as [|fuel IH]; intros fuel' trace s Hl Ho Hle.
  - simpl in Hl. by simplify_eq.
  - destruct fuel' as [|fuel']; [lia|]. simpl in *.
    destruct (total_evaluations s <? max_evaluations s); [|done].
    destruct (iteration s) as [[k|e] s1]; [|done].
    apply IH; [done | done | lia].
Qed.

Lemma run_fuel_mono fuel fuel' s o trace' s' :
  run fuel s = (o, trace', s') -> o <> OutOfFuel -> (fuel <= fuel')%nat ->
  run fuel' s = (o, trace', s').
Proof.
  unfold run. destruct (warm_up s) as [[[]|e] s1]; [|done].
  apply loop_fuel_mono.
Qed.

Lemma iteration_post_at s : iteration_post s (fst (iteration s)) (snd (iteration s)).
Proof. apply iteration_spec. Qed.

(** What a loop that returns leaves behind: the budget is used up, and the
    last pass, if there was one, started below the budget. *)
Lemma loop_returned fuel trace s trace' s' :
  loop fuel trace s = (Returned, trace', s') ->
  max_evaluations s' <= total_evaluations s' /\
  max_evaluations s' = max_evaluations s /\
  ((trace' = trace /\ s' = s) \/
   exists k rest, trace' = k :: rest /\
     total_evaluations s' - max_evaluations s' < Z.of_nat k).
Proof.
  revert trace s. induction fuel as [|fuel IH]; intros trace s Hl; simpl in Hl; [done|].
  destruct (total_evaluations s <? max_evaluations s) eqn:Hlt.
  - pose proof (iteration_post_at s) as Hpost.
    destruct (iteration s) as [[k|e] s1]; [|done]. simpl in Hpost.
    destruct Hpost as (Hstep & _ & _ & _ & Htot & _).
    assert (Hmax : max_evaluations s1 = max_evaluations s).
    { pose proof (sr_settings _ _ Hstep) as Hset. unfold settings in Hset. by simplify_eq. }
    apply IH in Hl as (Hge & Hm & Hcase). split; [done|]. split; [congruence|].
    right. destruct Hcase as [[-> ->] | (k' & rest & -> & Hk')].
    + exists k, trace. split; [done|]. apply Z.ltb_lt in Hlt. lia.
    + eauto.
  - simplify_eq. apply Z.ltb_ge in Hlt. split; [done|]. split; [done|]. by left.
Qed.

(** The states a run passes through, whatever its outcome. *)
Lemma loop_spec fuel trace s :
  step_rel s (snd (loop fuel trace s)) /\
  (history_ready s -> wf s -> forall n, history_inv n s ->
     history_inv n (snd (loop fuel trace s))) /\
  (population s <> [] -> fst (fst (loop fuel trace s)) <> Raised ZeroDivisionError) /\
  (forall x, best_at_least s x ->
     rows_at_least x (rows_since s (snd (loop fuel trace s)))).
Proof.
  revert trace s. induction fuel as [|fuel IH]; intros trace s; simpl.
  - split; [apply step_rel_refl|]. split; [done|]. split; [done|].
    intros x _. rewrite rows_since_refl by done. by intros e' ?%elem_of_nil.
  - destruct (total_evaluations s <? max_evaluations s).
    2:{ split; [apply step_rel_refl|]. split; [done|]. split; [done|].
        intros x _. rewrite rows_since_refl by done. by intros e' ?%elem_of_nil. }
    pose proof (iteration_post_at s) as Hpost.
    destruct (iteration s) as [[k|e] s1]; simpl in *.
    + destruct Hpost as (Hstep & Hinv & _ & Hrows & _ & _ & Hready).
      destruct (IH (k :: trace) s1) as (Hstep' & Hinv' & Hz' & Hrows').
      split; [by eapply step_rel_trans|]. split; [|split].
      * intros Hr Hwf n Hi. apply Hinv'; [by apply Hready | by apply Hstep | by apply Hinv].
      * intros Hne. apply Hz'. intros Hnil.
        pose proof (sr_pop_len _ _ Hstep) as Hlen. rewrite Hnil in Hlen.
        by destruct (population s).
      * intros x Hx. by apply (rows_at_least_trans s s1).
    + destruct Hpost as (Hstep & Hinv & Hz & Hrows & _).
      split; [done|]. split; [done|]. split; [|done].
      intros Hne [= ->]. by apply (Hz Hne).
Qed.

Lemma run_spec fuel s :
  wf s ->
  step_rel s (snd (run fuel s)) /\
  (forall n, history_inv n s -> history_inv n (snd (run fuel s))) /\
  (population s <> [] -> fst (fst (run fuel s)) <> Raised ZeroDivisionError) /\
  (forall x, best_at_least s x -> rows_at_least x (rows_since s (snd (run fuel s)))).
Proof.
  intros Hwf. unfold run.
  pose proof (warm_up_spec s Hwf) as Hwarm. unfold wp in Hwarm.
  destruct (warm_up s) as [[[]|e] s1]; simpl in *.
  - destruct Hwarm as (Hstep & Hp & Hhi & Hg & _ & Hready).
    destruct (loop_spec fuel [] s1) as (Hstep' & Hinv' & Hz' & Hrows').
    split; [by eapply step_rel_trans|]. split; [|split].
    + intros n Hi. apply Hinv'; [by apply Hready | by apply Hstep |].
      revert Hi. apply history_inv_step; [apply Hstep | done | lia].
    + intros Hne. apply Hz'. by rewrite Hp.
    + intros x Hx. unfold rows_since. rewrite <- Hhi. apply Hrows'. by apply Hstep.
  - destruct Hwarm as (Hstep & Hp & Hhi & Hg & Hz & _).
    split; [done|]. split; [|split].
    + intros n. apply history_inv_step; [apply Hstep | done | lia].
    + intros _ [= ->]. by apply Hz.
    + intros x _. rewrite rows_since_refl by done. by intros e' ?%elem_of_nil.
Qed.

End RunLoop.

(** ** Construction, checkpoints and seeding *)

Section Lifecycle.
Context {Genome Phenotype Rng Evaluator : Type}.
Context {py_genome : PyObject Genome} {random : Random Rng}.
Context {backend : Backend Evaluator Phenotype} {ops : Operators Genome Phenotype Rng}.
Context {arithmetic : Arithmetic}.

#[local] Abbreviation St := (State Genome Rng Evaluator).
#[local] Abbreviation Indv := (Individual Genome).

Implicit Types (s : St) (l : loc) (fs : Files Genome).

(** [new_population] allocates [n] unevaluated individuals in a row and
    touches nothing else but the generator. *)
Lemma new_population_spec n s :
  wp (new_population n) (fun r s' =>
    r = Ok (seq (length (heap s)) n) /\
    (exists fresh, heap s' = heap s ++ fresh /\ length fresh = n /\
                   forall i, i ∈ fresh -> fitness i = None) /\
    s' = set_rng (rng s') (set_heap (heap s') s)) s.
Proof.
  revert s. induction n as [|n IH]; intros s; simpl.
  - apply wp_ret. split; [done|]. split; [|by destruct s].
    exists []. rewrite app_nil_r. split; [done|]. split; [done|].
    by intros i ?%elem_of_nil.
  - apply wp_bind, wp_call_rng. intros g r _.
    apply wp_bind, wp_new_individual. apply wp_bind.
    eapply wp_mono; [apply IH|].
    intros r1 s1 (-> & (fresh & Hh & Hlen & Hnone) & Hs1).
    apply wp_ret. simpl in *. rewrite length_app in *. simpl in *.
    replace (length (heap s) + 1)%nat with (S (length (heap s))) by lia.
    split; [done|]. split.
    + exists (mkIndividual g None :: fresh). rewrite Hh, <- (assoc_L (++)).
      split; [done|]. split; [simpl; lia|].
      intros i [->|Hi]%elem_of_cons; [done | by apply Hnone].
    + rewrite Hs1 at 1. done.
Qed.

Lemma construct_ambient cfg (ambient1 ambient2 : Rng) :
  __init__ cfg ambient1 = __init__ cfg ambient2.
Proof. done. Qed.

(** A constructed engine: a population of [pop_size] unevaluated individuals
    with the first as provisional best, counters at their start values. *)
Lemma construct_spec cfg (ambient : Rng) s :
  __init__ cfg ambient = Ok s ->
  wf s /\ population s <> [] /\
  Z.of_nat (length (population s)) = pop_size s /\
  pop_size s = c_pop_size cfg /\ max_evaluations s = c_evaluations cfg /\
  random_seed s = c_seed cfg /\
  history s = [] /\ total_evaluations s = 0 /\ generations s = 1 /\
  population s = seq 0 (length (heap s)) /\ best_indv s = Some 0%nat /\
  (forall i, i ∈ heap s -> fitness i = None).
Proof.
  unfold __init__. set (s0 := set_rng _ _).
  pose proof (new_population_spec (Z.to_nat (pop_size s0)) s0) as Hnew.
  unfold wp in Hnew. destruct (new_population _ s0) as [r s1]. simpl in Hnew.
  destruct Hnew as (-> & (fresh & Hh & Hlen & Hnone) & Hs1).
  change (heap s0) with (@nil Indv) in *. simpl in *.
  destruct (Z.to_nat (c_pop_size cfg)) as [|n] eqn:En; [done|].
  simpl. intros [= <-]. rewrite Hs1. simpl. rewrite Hh, Hlen.
  split; [|repeat split; try done].
  - split; simpl; rewrite Hlen.
    + intros l [->|Hl]%elem_of_cons; [lia|].
      apply elem_of_seq in Hl. lia.
    + intros b [= <-]. lia.
  - rewrite length_seq. lia.
Qed.

(** A population size below 1 makes [self.population[0]] fail. *)
Lemma construct_guard cfg (ambient : Rng) :
  c_pop_size cfg <= 0 -> __init__ cfg ambient = Raise IndexError.
Proof.
  intros Hle. unfold __init__. set (s0 := set_rng _ _).
  change (pop_size s0) with (c_pop_size cfg).
  replace (Z.to_nat (c_pop_size cfg)) with 0%nat by lia. done.
Qed.

(** *** Checkpoints *)

Lemma load_missing s fs : progress fs = None -> load s fs = (false, s).
Proof. unfold load. by intros ->. Qed.

Lemma deref_load_shift (s0 s' : St) (objects : list Indv) l :
  heap s' = heap s0 ++ objects ->
  deref s' (length (heap s0) + l) = default (mkIndividual py_None None) (objects !! l).
Proof.
  intros Hh. unfold deref. rewrite Hh, lookup_app_r by lia.
  by replace (length (heap s0) + l - length (heap s0))%nat with l by lia.
Qed.

(** [load] after [save_current_state]: the saved run is back, object for
    object, and the budget is the loader's own on top of the evaluations
    already made. *)
Lemma load_after_save (saved loader : St) fs :
  let loaded := snd (load loader (save_current_state saved fs)) in
  fst (load loader (save_current_state saved fs)) = true /\
  population_values loaded = population_values saved /\
  generations loaded = generations saved /\
  total_evaluations loaded = total_evaluations saved /\
  history loaded = history saved /\
  max_evaluations loaded = total_evaluations saved + max_evaluations loader /\
  best_fitness loaded = best_fitness saved /\
  rng loaded = rng_seed (random_seed saved) /\
  pop_size loaded = pop_size saved.
Proof.
  simpl. split; [done|]. split; [|repeat split].
  - unfold population_values. simpl. rewrite <- list_fmap_compose.
    apply list_fmap_ext. intros i l _. simpl.
    by rewrite (deref_load_shift loader _ (heap saved)).
  - unfold best_fitness. simpl. destruct (best_indv saved) as [b|]; [|done]. simpl.
    by rewrite (deref_load_shift loader _ (heap saved)).
Qed.


(** *** Seeding *)

(** The attributes [seed] leaves alone until it installs the population. *)
Definition seed_frame s s' : Prop :=
  total_evaluations s' = total_evaluations s /\ population s' = population s /\
  pop_size s' = pop_size s /\ best_indv s' = best_indv s /\
  history s' = history s /\ generations s' = generations s /\
  max_evaluations s' = max_evaluations s.

Lemma seed_frame_refl s : seed_frame s s.
Proof. by repeat split. Qed.

Lemma seed_frame_trans s1 s2 s3 : seed_frame s1 s2 -> seed_frame s2 s3 -> seed_frame s1 s3.
Proof. unfold seed_frame. intros (?&?&?&?&?&?&?) (?&?&?&?&?&?&?). repeat split; congruence. Qed.

Lemma seed_score_spec indv s :
  wp (seed_score indv) (fun r s' =>
    seed_frame s s' /\ length (heap s') = length (heap s)) s.
Proof.
  unfold seed_score. apply wp_bind, wp_get.
  destruct (evaluate _ _) as [|[distance run_time] rest].
  - apply wp_raise. split; [apply seed_frame_refl | done].
  - apply wp_modify. split; [by repeat split|]. simpl. by rewrite length_insert.
Qed.

Lemma length_insert_by_key {A} (x : Q * A) kl :
  length (insert_by_key x kl) = S (length kl).
Proof.
  induction kl as [|y t IH]; simpl; [done|].
  destruct (Qltb (fst y) (fst x)); simpl; [by rewrite IH | done].
Qed.

Lemma length_sorted_by_key {A} (kl : list (Q * A)) :
  length (sorted_by_key kl) = length kl.
Proof.
  unfold sorted_by_key. rewrite length_map.
  induction kl as [|x t IH]; simpl; [done|]. by rewrite length_insert_by_key, IH.
Qed.

Lemma length_all_ok {A} (rs : list (result A)) xs :
  all_ok rs = Ok xs -> length xs = length rs.
Proof.
  revert xs. induction rs as [|[a|e] t IH]; intros xs Hx; simpl in *; simplify_eq; [done|].
  destruct (all_ok t) as [r|e]; simplify_eq. simpl. by rewrite (IH r).
Qed.

(** The slice [sorted_pool[:pool_size]] of a pool of [pool_size] members is
    the whole pool. *)
Lemma py_slice_to_all {A} (k : Z) (xs : list A) :
  length xs = Z.to_nat k -> py_slice_to k xs = xs.
Proof.
  intros Hlen. unfold py_slice_to. destruct (0 <=? k) eqn:Hk.
  - rewrite <- Hlen. apply firstn_all.
  - apply Z.leb_gt in Hk. destruct xs; [done | simpl in Hlen; lia].
Qed.

Lemma seed_generate_spec pool_size time_limit s :
  wp (seed_generate pool_size time_limit) (fun r s' =>
    seed_frame s s' /\
    match r with
    | Ok population => length population = Z.to_nat pool_size
    | Raise _ => True
    end) s.
Proof.
  unfold seed_generate. apply wp_bind, wp_modify.
  set (s1 := set_qwop_evaluator _ s).
  apply wp_bind. eapply wp_mono; [apply new_population_spec|].
  intros r2 s2 (-> & _ & Hs2).
  assert (H2 : seed_frame s s2) by (rewrite Hs2; by repeat split).
  apply wp_bind. eapply wp_mono.
  { apply (wp_for_each (fun sc => seed_frame s sc) (fun _ sc => seed_frame s sc)); [done|].
    intros a sc _ Hsc. eapply wp_mono; [apply seed_score_spec|].
    intros r sc' [Hf _]. destruct r; by eapply seed_frame_trans. }
  intros [[]|e] s3 H3; [|done].
  apply wp_bind, wp_get. apply wp_bind, wp_lift.
  destruct (all_ok _) as [keyed|e] eqn:Ek; [|done].
  apply wp_bind, wp_modify. apply wp_ret.
  split.
  - eapply seed_frame_trans; [exact H3|]. by repeat split.
  - apply length_all_ok in Ek. rewrite length_map, length_seq in Ek.
    rewrite length_map, py_slice_to_all; rewrite length_sorted_by_key; done.
Qed.

Lemma reset_fitness_spec (locs : list loc) s :
  wp (for_each locs (fun indv => modify (set_fitness indv None))) (fun r s' =>
    r = Ok tt /\ length (heap s') = length (heap s) /\ s' = set_heap (heap s') s) s.
Proof.
  revert s. induction locs as [|a t IH]; intros s; simpl.
  - apply wp_ret. split; [done|]. split; [done|]. by destruct s.
  - apply wp_bind, wp_modify. eapply wp_mono; [apply IH|].
    intros r s' (-> & Hlen & Hs'). split; [done|]. split.
    + rewrite Hlen. simpl. by rewrite length_insert.
    + rewrite Hs' at 1. done.
Qed.

Lemma seed_install_spec (seeded_pop : list Indv) s :
  wp (seed_install seeded_pop) (fun r s' =>
    total_evaluations s' = total_evaluations s /\ pop_size s' = pop_size s /\
    max_evaluations s' = max_evaluations s /\
    length (heap s') = (length (heap s) + length seeded_pop)%nat /\
    population s' = seq (length (heap s)) (length seeded_pop) /\
    history s' = history s /\
    match r with
    | Ok _ => seeded_pop <> [] /\ best_indv s' = Some (length (heap s))
    | Raise e => e = IndexError /\ seeded_pop = []
    end) s.
Proof.
  unfold seed_install. apply wp_bind, wp_get. apply wp_bind, wp_modify.
  apply wp_bind, wp_modify.
  destruct seeded_pop as [|i rest].
  - apply wp_raise. simpl. rewrite length_app. by repeat split.
  - cbn [length seq]. apply wp_bind, wp_modify.
    set (s1 := set_best_indv _ _).
    assert (Hl1 : length (heap s1) = (length (heap s) + S (length rest))%nat).
    { unfold s1. simpl. by rewrite length_app. }
    eapply wp_mono; [apply reset_fitness_spec|].
    intros r s2 (-> & Hlen & ->). simpl.
    rewrite Hlen, Hl1. by repeat split.
Qed.

(** [seed]: the evaluation counter and the checkpoint are untouched; when it
    returns, the population is the seed file's content, object for object. *)
Lemma seed_spec pool_size time_limit s fs :
  let '(r, s', fs') := seed pool_size time_limit s fs in
  total_evaluations s' = total_evaluations s /\ pop_size s' = pop_size s /\
  max_evaluations s' = max_evaluations s /\ history s' = history s /\
  progress fs' = progress fs /\
  (r = Ok tt ->
   wf s' /\ population s' <> [] /\
   exists seeded_pop, population_seeds fs' (pop_size s) = Some seeded_pop /\
     length (population s') = length seeded_pop /\
     (population_seeds fs (pop_size s) = None ->
      length seeded_pop = Z.to_nat pool_size)).
Proof.
  assert (Hinstalled : forall seeded_pop s1 r s',
    seed_install seeded_pop s1 = (r, s') ->
    total_evaluations s' = total_evaluations s1 /\ pop_size s' = pop_size s1 /\
    max_evaluations s' = max_evaluations s1 /\ history s' = history s1 /\
    (r = Ok tt -> wf s' /\ population s' <> [] /\
                  length (population s') = length seeded_pop)).
  { intros seeded_pop s1 r s' Heq.
    pose proof (seed_install_spec seeded_pop s1) as Hi. unfold wp in Hi.
    rewrite Heq in Hi. simpl in Hi.
    destruct Hi as (Ht & Hps & Hm & Hlen & Hpop & Hhi & Hr).
    split; [done|]. split; [done|]. split; [done|]. split; [done|]. intros ->.
    destruct Hr as [Hne Hb]. split; [|split].
    - split.
      + intros l Hl. rewrite Hpop in Hl. apply elem_of_seq in Hl. lia.
      + intros b Hb'. rewrite Hb in Hb'. simplify_eq.
        destruct seeded_pop; [done | simpl in *; lia].
    - rewrite Hpop. by destruct seeded_pop.
    - by rewrite Hpop, length_seq. }
  unfold seed. destruct (population_seeds fs (pop_size s)) as [seeded_pop|] eqn:Efile.
  - destruct (seed_install seeded_pop s) as [r s'] eqn:Ei.
    destruct (Hinstalled _ _ _ _ Ei) as (Ht & Hps & Hm & Hhi & Hok).
    split; [done|]. split; [done|]. split; [done|]. split; [done|]. split; [done|].
    intros Hr. destruct (Hok Hr) as (Hwf & Hne & Hlen).
    split; [done|]. split; [done|]. exists seeded_pop. by rewrite Efile.
  - pose proof (seed_generate_spec pool_size time_limit s) as Hg. unfold wp in Hg.
    destruct (seed_generate pool_size time_limit s) as [[population|e] s1]; simpl in Hg.
    + destruct Hg as [(Ht1 & _ & Hps1 & _ & Hhi1 & _ & Hm1) Hlen1].
      destruct (seed_install population s1) as [r s'] eqn:Ei.
      destruct (Hinstalled _ _ _ _ Ei) as (Ht & Hps & Hm & Hhi & Hok).
      split; [congruence|]. split; [congruence|]. split; [congruence|].
      split; [congruence|]. split; [done|].
      intros Hr. destruct (Hok Hr) as (Hwf & Hne & Hlen).
      split; [done|]. split; [done|]. exists population. simpl.
      rewrite Hps1, Z.eqb_refl. done.
    + destruct Hg as [(Ht1 & _ & Hps1 & _ & Hhi1 & _ & Hm1) _]. by repeat split.
Qed.

End Lifecycle.

(** ** The claims of the specification *)

Section Claims.
Context {Genome Phenotype Rng Evaluator : Type}.
Context {py_genome : PyObject Genome} {random : Random Rng}.
Context {backend : Backend Evaluator Phenotype} {ops : Operators Genome Phenotype Rng}.
Context {arithmetic : Arithmetic}.

#[local] Abbreviation St := (State Genome Rng Evaluator).
#[local] Abbreviation Indv := (Individual Genome).

Implicit Types (s sc loader saved : St) (l : loc) (fs : Files Genome).

(** *** Vocabulary of the claims *)



(** [self.best_indv.genome] *)
Definition best_genome s : option Genome :=
  (fun b => genome (deref s b)) <$> best_indv s.


(** A snapshot whose references point into its own objects and whose
    population is not empty. *)
Definition checkpoint_ok (data : Checkpoint Genome) : Prop :=
  ck_population data <> [] /\
  (forall l, l ∈ ck_population data -> (l < length (ck_objects data))%nat) /\
  (forall b, ck_best_individual data = Some b -> (b < length (ck_objects data))%nat).

(** Two engines, of one process or of two, hold the same history and the
    same best genome. *)
Definition agree (p q : Process Genome Rng Evaluator) (e1 e2 : nat) : Prop :=
  exists s1 s2, engines p !! e1 = Some s1 /\ engines q !! e2 = Some s2 /\
    history s1 = history s2 /\ best_genome s1 = best_genome s2.

(** The budget after [load]: the evaluations of the saved state plus the
    [evaluations] the loading engine was constructed with. *)
Definition budget_from_construction (cfg : Config) (saved loaded : St) : Prop :=
  max_evaluations loaded = total_evaluations saved + c_evaluations cfg.

(** An engine constructed from [cfg] that has run and been seeded, but has
    not loaded. *)
Inductive unloaded (cfg : Config) : St -> Prop :=
| unloaded_new ambient s :
    __init__ cfg ambient = Ok s -> unloaded cfg s
| unloaded_run s fuel :
    unloaded cfg s -> unloaded cfg (snd (run fuel s))
| unloaded_seed s pool_size time_limit fs s' fs' :
    unloaded cfg s -> seed pool_size time_limit s fs = (Ok tt, s', fs') ->
    unloaded cfg s'
| unloaded_generator s r :
    unloaded cfg s -> unloaded cfg (set_rng r s).

(** The population is not empty and no run raises [ZeroDivisionError]. *)
Definition never_empty s : Prop :=
  (0 < length (population s))%nat /\
  forall fuel, fst (fst (run fuel s)) <> Raised ZeroDivisionError.

(** The states an engine and its storage directory can be in: construction
    on empty or used storage, and [run], [save_current_state], [load] and
    [seed], however they end. Between two calls on the engine, anything else
    in the process may have drawn from the generator or seeded it. *)
Inductive reachable : St -> Files Genome -> Prop :=
| reach_construct cfg ambient s :
    __init__ cfg ambient = Ok s -> reachable s no_files
| reach_restart s fs cfg ambient s2 :
    reachable s fs -> __init__ cfg ambient = Ok s2 -> reachable s2 fs
| reach_run s fs fuel :
    reachable s fs -> reachable (snd (run fuel s)) fs
| reach_save s fs :
    reachable s fs -> reachable s (save_current_state s fs)
| reach_load s fs :
    reachable s fs -> reachable (snd (load s fs)) fs
| reach_seed s fs pool_size time_limit s' fs' :
    reachable s fs -> seed pool_size time_limit s fs = (Ok tt, s', fs') ->
    reachable s' fs'
| reach_seed_raised s fs pool_size time_limit e s' fs' :
    reachable s fs -> seed pool_size time_limit s fs = (Raise e, s', fs') ->
    reachable s' fs'
| reach_generator s fs r :
    reachable s fs -> reachable (set_rng r s) fs.

(** The states reached as long as no [seed] has raised on the engine, or on
    the engine that saved the checkpoint: an instance whose [seed] raised is
    given up for a new one; the file it may have written stays. *)
Inductive reachable_by_returns : St -> Files Genome -> Prop :=
| ret_construct cfg ambient s :
    __init__ cfg ambient = Ok s -> reachable_by_returns s no_files
| ret_restart s fs cfg ambient s2 :
    reachable_by_returns s fs -> __init__ cfg ambient = Ok s2 ->
    reachable_by_returns s2 fs
| ret_run s fs fuel :
    reachable_by_returns s fs -> reachable_by_returns (snd (run fuel s)) fs
| ret_save s fs :
    reachable_by_returns s fs -> reachable_by_returns s (save_current_state s fs)
| ret_load s fs :
    reachable_by_returns s fs -> reachable_by_returns (snd (load s fs)) fs
| ret_seed s fs pool_size time_limit s' fs' :
    reachable_by_returns s fs -> seed pool_size time_limit s fs = (Ok tt, s', fs') ->
    reachable_by_returns s' fs'
| ret_seed_raised s fs pool_size time_limit e s' fs' cfg ambient s2 :
    reachable_by_returns s fs -> seed pool_size time_limit s fs = (Raise e, s', fs') ->
    __init__ cfg ambient = Ok s2 -> reachable_by_returns s2 fs'
| ret_generator s fs r :
    reachable_by_returns s fs -> reachable_by_returns (set_rng r s) fs.

(** *** Auxiliary facts *)



Lemma load_wf (saved loader : St) fs :
  wf saved -> wf (snd (load loader (save_current_state saved fs))).
Proof.
  intros [Hp Hb]. split; simpl.
  - intros l [l' [-> Hl']]%list_elem_of_fmap. rewrite length_app.
    specialize (Hp l' Hl'). lia.
  - intros b Hb'. rewrite length_app. destruct (best_indv saved) as [b'|]; [|done].
    simpl in Hb'. simplify_eq. specialize (Hb b' eq_refl). lia.
Qed.


Lemma returns_inv s fs :
  reachable_by_returns s fs ->
  wf s /\ population s <> [] /\
  forall data, progress fs = Some data -> checkpoint_ok data.
Proof.
  induction 1 as [cfg ambient s Hc | s fs cfg ambient s2 _ IH Hc | s fs fuel _ IH
                 | s fs _ IH | s fs _ IH
                 | s fs pool_size time_limit s' fs' _ IH Hseed
                 | s fs pool_size time_limit e s' fs' cfg ambient s2 _ IH Hseed Hc
                 | s fs r _ IH].
  - apply construct_spec in Hc as (Hwf & Hne & _). split; [done|]. split; [done|].
    by intros data [=].
  - apply construct_spec in Hc as (Hwf & Hne & _). split; [done|]. split; [done|]. apply IH.
  - destruct IH as (Hwf & Hne & Hck).
    destruct (run_spec fuel s Hwf) as (Hstep & _).
    split; [by apply Hstep|]. split; [|done].
    intros Hnil. pose proof (sr_pop_len _ _ Hstep) as Hlen. rewrite Hnil in Hlen.
    by destruct (population s).
  - destruct IH as (Hwf & Hne & Hck). split; [done|]. split; [done|].
    simpl. intros data [= <-]. unfold checkpoint_ok. simpl. split; [done|]. apply Hwf.
  - destruct IH as (Hwf & Hne & Hck). unfold load.
    destruct (progress fs) as [data|] eqn:Ep; [|by split; [|split]].
    destruct (Hck data eq_refl) as (Hdne & Hdp & Hdb). simpl.
    split; [|split; [|exact Hck]].
    + split; simpl.
      * intros l [l' [-> Hl']]%list_elem_of_fmap. rewrite length_app.
        specialize (Hdp l' Hl'). lia.
      * intros b Hb'. rewrite length_app.
        destruct (ck_best_individual data) as [b'|]; [|done].
        simpl in Hb'. simplify_eq. specialize (Hdb b' eq_refl). lia.
    + intros Hnil. by apply fmap_nil_inv in Hnil.
  - destruct IH as (Hwf & Hne & Hck).
    pose proof (seed_spec pool_size time_limit s fs) as Hs. rewrite Hseed in Hs.
    destruct Hs as (_ & _ & _ & _ & Hprog & Hok).
    destruct (Hok eq_refl) as (Hwf' & Hne' & _).
    split; [done|]. split; [done|]. by rewrite Hprog.
  - destruct IH as (Hwf & Hne & Hck).
    pose proof (seed_spec pool_size time_limit s fs) as Hs. rewrite Hseed in Hs.
    destruct Hs as (_ & _ & _ & _ & Hprog & _).
    apply construct_spec in Hc as (Hwf2 & Hne2 & _).
    split; [done|]. split; [done|]. by rewrite Hprog.
  - exact IH.
Qed.


Lemma returns_reachable s fs : reachable_by_returns s fs -> reachable s fs.
Proof.
  induction 1 as [cfg ambient s Hc | s fs cfg ambient s2 _ IH Hc | s fs fuel _ IH
                 | s fs _ IH | s fs _ IH
                 | s fs pool_size time_limit s' fs' _ IH Hseed
                 | s fs pool_size time_limit e s' fs' cfg ambient s2 _ IH Hseed Hc
                 | s fs r _ IH].
  - by eapply reach_construct.
  - by eapply reach_restart.
  - by apply reach_run.
  - by apply reach_save.
  - by apply reach_load.
  - by eapply reach_seed.
  - eapply reach_restart; [|done]. by eapply reach_seed_raised.
  - by apply reach_generator.
Qed.

(** [run] and [seed] leave the budget alone. *)
Lemma unloaded_budget cfg s :
  unloaded cfg s -> wf s /\ max_evaluations s = c_evaluations cfg.
Proof.
  induction 1 as [ambient s Hc | s fuel _ [Hwf Hm]
                 | s pool_size time_limit fs s' fs' _ [Hwf Hm] Hseed
                 | s r _ [Hwf Hm]]; [| | |done].
  - apply construct_spec in Hc as (Hwf & _ & _ & _ & Hm & _). by split.
  - destruct (run_spec fuel s Hwf) as (Hstep & _). split; [by apply Hstep|].
    pose proof (sr_settings _ _ Hstep) as Hset. unfold settings in Hset.
    injection Hset as _ _ _ _ _ _ _ Hmax. congruence.
  - pose proof (seed_spec pool_size time_limit s fs) as Hs. rewrite Hseed in Hs.
    destruct Hs as (_ & _ & Hmax & _ & _ & Hok).
    destruct (Hok eq_refl) as (Hwf' & _). split; [done | congruence].
Qed.


(** Construction, [run] and the checkpoint round trip keep the population
    at [pop_size] members. *)
Lemma population_size_kept (fuel : nat) s loader fs :
  wf s -> Z.of_nat (length (population s)) = pop_size s ->
  Z.of_nat (length (population (snd (run fuel s)))) = pop_size (snd (run fuel s)) /\
  Z.of_nat (length (population (snd (load loader (save_current_state s fs)))))
  = pop_size (snd (load loader (save_current_state s fs))).
Proof.
  intros Hwf Hlen. destruct (run_spec fuel s Hwf) as (Hstep & _). split.
  - rewrite (sr_pop_len _ _ Hstep), Hlen.
    pose proof (sr_settings _ _ Hstep) as Hset. unfold settings in Hset. by simplify_eq.
  - simpl. by rewrite length_fmap.
Qed.

(** *** C1: termination on the budget *)


(** *** C3: the best-fitness column *)


(** *** C4: determinism *)

(** C4, in the form the code satisfies. The generator is shared by the whole
    process and re-seeded by every constructor. Two engines constructed with
    the same configuration, in the same process or in two, each run with the
    generator as its own constructor left it (nothing that draws from the
    generator, nor another constructor, between the construction of an engine
    and its run), make the same passes and, when both runs return, hold the
    same history and the same best genome, whatever went on in their
    processes before, and leave the generator in the same state. *)
Theorem C4_determinism cfg (p1 p2 : Process Genome Rng Evaluator) e1 e2 p1' p2'
    (fuel1 fuel2 : nat) trace1 trace2 q1 q2 :
  construct_in cfg p1 = (Ok e1, p1') -> construct_in cfg p2 = (Ok e2, p2') ->
  run_in fuel1 e1 p1' = (Some (Returned, trace1), q1) ->
  run_in fuel2 e2 p2' = (Some (Returned, trace2), q2) ->
  agree q1 q2 e1 e2 /\ engines q1 !! e1 = engines q2 !! e2 /\
  trace1 = trace2 /\ generator q1 = generator q2.
Proof.
  unfold construct_in.
  rewrite (construct_ambient cfg (generator p1) (generator p2)).
  destruct (__init__ cfg (generator p2)) as [s|e]; [|done].
  intros [= <- <-] [= <- <-].
  assert (Henter : forall (p : Process Genome Rng Evaluator) fs,
            enter (mkProcess (rng s) (engines p ++ [s]) fs) s = s) by (by destruct s).
  assert (Hrun : forall (p : Process Genome Rng Evaluator) fuel trace q,
            run_in fuel (length (engines p)) (mkProcess (rng s) (engines p ++ [s]) (disk p))
            = (Some (Returned, trace), q) ->
            exists s', run fuel s = (Returned, trace, s') /\
              engines q !! length (engines p) = Some s' /\ generator q = rng s').
  { intros p fuel trace q. unfold run_in. simpl.
    rewrite list_lookup_middle by done. rewrite Henter.
    destruct (run fuel s) as [[o tr] s']. intros [= -> -> <-]. exists s'.
    split; [done|]. split; [|done]. simpl. apply list_lookup_insert_eq.
    rewrite length_app. simpl. lia. }
  intros (s1 & Hr1 & Hl1 & Hg1)%Hrun (s2 & Hr2 & Hl2 & Hg2)%Hrun.
  apply (run_fuel_mono _ (Nat.max fuel1 fuel2)) in Hr1; [|done|lia].
  apply (run_fuel_mono _ (Nat.max fuel1 fuel2)) in Hr2; [|done|lia].
  assert (s1 = s2) as -> by congruence. assert (trace1 = trace2) as -> by congruence.
  split; [by exists s2, s2|]. split; [congruence|]. split; [done | congruence].
Qed.

(** *** C5: the checkpoint round trip *)

(** C5, in the form the code satisfies. Loading what [save_current_state]
    wrote, into any engine, gives back the population object for object, the
    generation counter, the evaluation counter and the history, and a budget
    of the saved evaluations plus the budget the loading engine has at that
    moment; for an engine that has not loaded before, that is the
    [evaluations] it was constructed with. *)
Theorem C5_checkpoint_round_trip (saved loader : St) fs :
  fst (load loader (save_current_state saved fs)) = true /\
  population_values (snd (load loader (save_current_state saved fs)))
    = population_values saved /\
  generations (snd (load loader (save_current_state saved fs))) = generations saved /\
  total_evaluations (snd (load loader (save_current_state saved fs)))
    = total_evaluations saved /\
  history (snd (load loader (save_current_state saved fs))) = history saved /\
  max_evaluations (snd (load loader (save_current_state saved fs)))
    = total_evaluations saved + max_evaluations loader /\
  (forall cfg, unloaded cfg loader ->
     budget_from_construction cfg saved (snd (load loader (save_current_state saved fs)))).
Proof.
  pose proof (load_after_save saved loader fs) as (H1 & H2 & H3 & H4 & H5 & H6 & _).
  repeat (split; [done|]).
  intros cfg [_ Hm]%unloaded_budget. unfold budget_from_construction. congruence.
Qed.

(** *** C8: the evaluation adapter *)


(** *** C9: the population is never empty *)

(** C9, in the form the code satisfies. Construction fails when [pop_size]
    is below 1. As long as no [seed] has raised, the population is not empty
    and no run raises [ZeroDivisionError]. [seed] has no such guard: when it
    raises, the population is the one it found or the empty one. *)
Theorem C9_population_never_empty s fs :
  reachable_by_returns s fs ->
  (forall cfg (ambient : Rng), c_pop_size cfg <= 0 ->
     @__init__ Genome Phenotype Rng Evaluator random backend ops cfg ambient
     = Raise IndexError) /\
  never_empty s /\
  (forall pool_size time_limit e s' fs',
     seed pool_size time_limit s fs = (Raise e, s', fs') ->
     population s' = population s \/ population s' = []).
Proof.
  intros (Hwf & Hne & _)%returns_inv. split; [|split; [split|]].
  - intros cfg ambient. apply construct_guard.
  - destruct (population s); [done | simpl; lia].
  - intros fuel. by apply run_spec.
  - intros pool_size time_limit e s' fs' Hseed. unfold seed in Hseed.
    destruct (population_seeds fs (pop_size s)) as [cached|].
    + pose proof (seed_install_spec cached s) as Hi. unfold wp in Hi.
      destruct (seed_install cached s) as [r s1]. simpl in Hi. simplify_eq.
      destruct Hi as (_ & _ & _ & _ & Hpop & _ & _ & ->). by right.
    + pose proof (seed_generate_spec pool_size time_limit s) as Hg. unfold wp in Hg.
      destruct (seed_generate pool_size time_limit s) as [[population|e0] s1]; simpl in Hg.
      * pose proof (seed_install_spec population s1) as Hi. unfold wp in Hi.
        destruct (seed_install population s1) as [r s2]. simpl in Hi. simplify_eq.
        destruct Hi as (_ & _ & _ & _ & Hpop & _ & _ & ->). by right.
      * simplify_eq. left. apply Hg.
Qed.

(** *** C10: the best individual outlives its slot *)

(** C10. When [replace] names the slot of the individual [best_indv] refers
    to and the child is not fitter, the slot is overwritten, [best_indv] and
    the object it refers to stay, and every row recorded from then on (the
    rest of the pass and all later passes) carries a best fitness of at
    least the evicted individual's; the row of this pass carries exactly it
    when no later child is fitter. *)
Theorem C10_best_survives_eviction s child b k i r fb fc :
  best_indv s = Some b -> population s !! k = Some b ->
  replace (population_values s) (deref s child) (rng s) = (Some i, r) ->
  py_index (population s) i = Some k ->
  fitness (deref s b) = Some fb -> fitness (deref s child) = Some fc ->
  (fc <= fb)%Q ->
  let s' := snd (update_population child s) in
  fst (update_population child s) = Ok tt /\
  population s' = <[k := child]> (population s) /\
  best_indv s' = Some b /\ deref s' b = deref s b /\
  best_fitness s' = Some fb /\
  (forall rest fuel trace,
     (forall c, c ∈ rest -> (c < length (heap s'))%nat) ->
     rows_at_least fb
       (rows_since s
          match finish_pass rest s' with
          | (Ok _, s1) => snd (loop fuel trace s1)
          | (Raise _, s1) => s1
          end)) /\
  (forall s1, finish_pass [] s' = (Ok tt, s1) ->
     exists avg, rows_since s s1 = [mkEntry (generations s) (Some fb) avg]).
Proof.
  intros Hb Hk Hrep Hidx Hfb Hfc Hle s'.
  assert (Hrun : update_population child s
                 = (Ok tt, set_population (<[k := child]> (population s)) (set_rng r s))).
  { unfold update_population, bind, get, lift, call_rng, modify; simpl.
    rewrite Hb. simpl. unfold py_gt. rewrite Hfc, Hfb. simpl.
    apply Qltb_ge in Hle. rewrite Hle. simpl.
    unfold population_values in Hrep. rewrite Hrep. simpl. by rewrite Hidx. }
  unfold s'. rewrite Hrun. simpl.
  set (s1 := set_population _ _).
  assert (Hbf : best_fitness s1 = Some fb).
  { unfold best_fitness. simpl. rewrite Hb. by rewrite (deref_ext s s1). }
  split; [done|]. split; [done|]. split; [done|]. split; [by apply deref_ext|].
  split; [done|]. split.
  - intros rest fuel trace Hin.
    assert (Hsince : forall s2, rows_since s s2 = rows_since s1 s2) by done.
    rewrite Hsince.
    assert (Hfloor : best_at_least s1 fb) by (exists fb; split; [done | apply Qle_refl]).
    pose proof (finish_pass_spec rest s1 Hin) as Hf. unfold wp in Hf.
    destruct (finish_pass rest s1) as [[[]|e] s2]; simpl in Hf.
    + destruct Hf as (Hstep & _ & _ & Hrows & _).
      destruct (loop_spec fuel trace s2) as (Hstep' & _ & _ & Hrows').
      by apply (rows_at_least_trans s1 s2).
    + destruct Hf as (_ & _ & _ & Hrows & _). by apply Hrows.
  - intros s2 Hfin.
    unfold finish_pass, bind, modify in Hfin. simpl in Hfin.
    pose proof (record_history_spec s1) as Hrec. unfold wp in Hrec.
    destruct (record_history s1) as [[[]|e] s3]; simpl in *; [|done].
    destruct Hrec as [Hs3 [[Hnone _] | (avg & _ & _ & Hh)]]; [by rewrite Hb in Hnone|].
    simplify_eq. exists avg. unfold rows_since. simpl. rewrite Hh. simpl.
    by rewrite drop_app_length, Hbf.
Qed.

End Claims.

(** ** The claims on the concrete strategy *)

Section Instances.
Import Demo.

#[local] Abbreviation run5 := (run (ops := sum_ops) 3 (fresh 5)).

Lemma fresh_constructed evaluations :
  __init__ (ops := sum_ops) (scenario evaluations) 0 = Ok (fresh evaluations).
Proof. reflexivity. Qed.

Lemma fresh_wf evaluations : wf (fresh evaluations).
Proof. eapply construct_spec, fresh_constructed. Qed.

(** The engine's helpers on small inputs. *)
Example every_other_pairs :
  py_zip (every_other [1; 2; 3; 4; 5]) (every_other (drop 1 [1; 2; 3; 4; 5]))
  = [(1, 2); (3, 4)].
Proof. reflexivity. Qed.

Example py_index_wraps : py_index [10; 20; 30] (-1) = Some 2%nat.
Proof. reflexivity. Qed.

Example py_index_out_of_range : py_index [10; 20; 30] 3 = None.
Proof. reflexivity. Qed.

Example py_mean_empty : py_mean [] = Raise ZeroDivisionError.
Proof. reflexivity. Qed.

Example sorted_by_key_stable :
  sorted_by_key [((-2)%Q, 1); ((-4)%Q, 2); ((-2)%Q, 3); ((-4)%Q, 4)] = [2; 4; 1; 3].
Proof. reflexivity. Qed.

(** The scenario of the specification: one pass evaluates two children and
    the best fitness stays 8. *)
Example scenario_one_pass :
  fst run5 = (Returned, [2%nat]) /\
  total_evaluations (snd run5) = 6 /\
  best_fitness (snd run5) = Some 8%Q.
Proof. vm_compute. done. Qed.



(** C2 fails on the code: an engine with [pop_size = 1] seeded from a pool
    of 2 is in a reachable state and holds a population of 2. *)
Theorem C2_seed_breaks_population_size :
  reachable (ops := sum_ops)
    (snd (fst (seed (ops := sum_ops) 2 60 single no_files)))
    (snd (seed (ops := sum_ops) 2 60 single no_files)) /\
  pop_size (snd (fst (seed (ops := sum_ops) 2 60 single no_files))) = 1 /\
  length (population (snd (fst (seed (ops := sum_ops) 2 60 single no_files)))) = 2%nat.
Proof.
  split; [|vm_compute; done].
  apply (reach_seed single no_files 2 60); [|vm_compute; reflexivity].
  by apply (reach_construct (mkConfig 10 600 1 1 0 true 1) 0).
Qed.




(** C4 as worded fails: two engines are constructed with the same
    configuration in one process, the first is run, then the second, which
    finds the generator where the first run left it; both runs return, with
    histories of 7 and of 6 rows. *)
Lemma C4_counterexample :
  construct_in (ops := sum_ops) half empty_process = (Ok 0%nat, one_engine) /\
  construct_in (ops := sum_ops) half one_engine = (Ok 1%nat, two_engines) /\
  (exists trace, run_in (ops := sum_ops) 9 0 two_engines
                 = (Some (Returned, trace), after_first)) /\
  (exists trace, run_in (ops := sum_ops) 9 1 after_first
                 = (Some (Returned, trace), after_both)) /\
  ~ agree after_both after_both 0 1.
Proof.
  split; [vm_compute; reflexivity|]. split; [vm_compute; reflexivity|].
  split; [eexists; vm_compute; reflexivity|].
  split; [eexists; vm_compute; reflexivity|].
  intros (s1 & s2 & H1 & H2 & Hh & _).
  assert (E1 : length <$> (history <$> engines after_both !! 0%nat) = Some 7%nat)
    by (vm_compute; reflexivity).
  assert (E2 : length <$> (history <$> engines after_both !! 1%nat) = Some 6%nat)
    by (vm_compute; reflexivity).
  rewrite H1 in E1. rewrite H2 in E2. simpl in E1, E2. rewrite Hh in E1. congruence.
Qed.

(** The engine constructed and run in a fresh process, and a third engine
    constructed and run in the process of [after_both]. *)
Lemma C4_determinism_witness :
  construct_in (ops := sum_ops) half empty_process = (Ok 0%nat, one_engine) /\
  construct_in (ops := sum_ops) half after_both
  = (Ok 2%nat, snd (construct_in (ops := sum_ops) half after_both)) /\
  agree (snd (run_in (ops := sum_ops) 9 0 one_engine))
    (snd (run_in (ops := sum_ops) 9 2 (snd (construct_in (ops := sum_ops) half after_both))))
    0 2.
Proof.
  assert (Hc1 : construct_in (ops := sum_ops) half empty_process = (Ok 0%nat, one_engine))
    by (vm_compute; reflexivity).
  assert (Hc2 : construct_in (ops := sum_ops) half after_both
                = (Ok 2%nat, snd (construct_in (ops := sum_ops) half after_both)))
    by (vm_compute; reflexivity).
  assert (Hr1 : run_in (ops := sum_ops) 9 0 one_engine
                = (Some (Returned, [2; 2; 0; 0; 0; 0; 0]%nat),
                   snd (run_in (ops := sum_ops) 9 0 one_engine)))
    by (vm_compute; reflexivity).
  assert (Hr2 : run_in (ops := sum_ops) 9 2 (snd (construct_in (ops := sum_ops) half after_both))
                = (Some (Returned, [2; 2; 0; 0; 0; 0; 0]%nat),
                   snd (run_in (ops := sum_ops) 9 2
                          (snd (construct_in (ops := sum_ops) half after_both)))))
    by (vm_compute; reflexivity).
  split; [exact Hc1|]. split; [exact Hc2|].
  exact (proj1 (C4_determinism (ops := sum_ops) half empty_process after_both 0%nat 2%nat
                  _ _ 9%nat 9%nat _ _ _ _ Hc1 Hc2 Hr1 Hr2)).
Defined.

(** C5 as worded fails: the engine constructed with a budget of 20 that has
    loaded the checkpoint of [first_run] (6 evaluations) saves and loads
    again; the budget is then 32, not 6 + 20. *)
Lemma C5_counterexample :
  __init__ (ops := sum_ops) (scenario 20) 0 = Ok (fresh 20) /\
  resumed = snd (load (fresh 20) storage) /\
  total_evaluations resumed = 6 /\
  ~ budget_from_construction (scenario 20) resumed
      (snd (load resumed (save_current_state resumed storage))).
Proof.
  split; [apply fresh_constructed|]. split; [reflexivity|].
  split; [vm_compute; reflexivity|].
  unfold budget_from_construction. vm_compute. discriminate.
Qed.

Lemma C5_checkpoint_round_trip_witness :
  history resumed = history first_run /\
  max_evaluations resumed = 26 /\
  budget_from_construction (scenario 20) first_run resumed.
Proof.
  pose proof (C5_checkpoint_round_trip (ops := sum_ops) first_run (fresh 20) no_files)
    as (_ & _ & _ & _ & Hh & Hm & Hb).
  split; [exact Hh|]. split; [refine (eq_trans Hm _); vm_compute; reflexivity|].
  apply Hb. apply (unloaded_new (scenario 20) 0), fresh_constructed.
Defined.

(** C6 fails on the code: a strategy class without [replace]
    is constructed and run without any error; both children of the pass are
    evaluated and dropped, and the population is the one constructed. *)
Theorem C6_missing_replace_is_silent :
  exists s,
    __init__ (ops := no_replace_ops) (scenario 5) 0 = Ok s /\
    fst (run (ops := no_replace_ops) 3 s) = (Returned, [2%nat]) /\
    total_evaluations (snd (run (ops := no_replace_ops) 3 s)) = 6 /\
    population (snd (run (ops := no_replace_ops) 3 s)) = population s.
Proof. eexists. split; [reflexivity|]. vm_compute. done. Qed.

(** C7 fails on the code: with [pop_size = 1] and a pool of 2
    the file written is the whole pool in descending order of distance, not
    its top one. *)
Theorem C7_seed_persists_whole_pool :
  population_seeds (snd (seed (ops := sum_ops) 2 60 single no_files)) 1
  = Some [mkIndividual (Some [3; 3]) (Some 6%Q); mkIndividual (Some [2; 2]) (Some 4%Q)].
Proof. vm_compute. reflexivity. Qed.



(** The two-process life of [Demo] consists of calls that returned. *)
Lemma second_run_returns :
  reachable_by_returns (ops := sum_ops) second_run reseeded_storage.
Proof.
  apply (ret_run reseeded reseeded_storage 12).
  apply (ret_seed resumed storage 2 60); [|vm_compute; reflexivity].
  apply (ret_load (fresh 20) storage).
  apply (ret_restart first_run storage (scenario 20) 0); [|apply fresh_constructed].
  apply (ret_save first_run no_files).
  apply (ret_run (fresh 5) no_files 3).
  apply (ret_construct (scenario 5) 0), fresh_constructed.
Qed.

(** C9 as worded fails: [seed(0, 60)] on the constructed engine assigns the
    empty population before it raises [IndexError] at [self.population[0]];
    the engine is left with no member, and its next run raises
    [ZeroDivisionError] when it records the history. *)
Lemma C9_counterexample :
  seed (ops := sum_ops) 0 60 (fresh 5) no_files
  = (Raise IndexError, emptied, emptied_storage) /\
  reachable (ops := sum_ops) emptied emptied_storage /\
  fst (fst (run (ops := sum_ops) 1 emptied)) = Raised ZeroDivisionError /\
  ~ never_empty (ops := sum_ops) emptied.
Proof.
  assert (Hseed : seed (ops := sum_ops) 0 60 (fresh 5) no_files
                  = (Raise IndexError, emptied, emptied_storage))
    by (vm_compute; reflexivity).
  split; [exact Hseed|]. split; [|split].
  - apply (reach_seed_raised (fresh 5) no_files 0 60 IndexError); [|exact Hseed].
    apply (reach_construct (scenario 5) 0), fresh_constructed.
  - vm_compute. reflexivity.
  - intros [Hlen _]. vm_compute in Hlen. lia.
Qed.

Lemma C9_population_never_empty_witness :
  reachable_by_returns (ops := sum_ops) second_run reseeded_storage /\
  never_empty (ops := sum_ops) second_run.
Proof.
  split; [apply second_run_returns|].
  exact (proj1 (proj2 (C9_population_never_empty (ops := sum_ops) second_run
                         reseeded_storage second_run_returns))).
Defined.

Lemma C10_best_survives_eviction_witness :
  best_indv with_child = Some 3%nat /\
  population with_child !! 3%nat = Some 3%nat /\
  population (snd (update_population (ops := sum_ops) 4%nat with_child))
  = [0; 1; 2; 4]%nat /\
  best_indv (snd (update_population (ops := sum_ops) 4%nat with_child)) = Some 3%nat.
Proof.
  split; [reflexivity|]. split; [reflexivity|].
  pose proof (C10_best_survives_eviction (ops := sum_ops) with_child 4%nat 3%nat 3%nat
                (-1) 6 8%Q 3%Q) as H.
  destruct H as (_ & Hpop & Hbest & _).
  - reflexivity.
  - reflexivity.
  - vm_compute. reflexivity.
  - reflexivity.
  - vm_compute. reflexivity.
  - vm_compute. reflexivity.
  - vm_compute. discriminate.
  - split; [|exact Hbest]. rewrite Hpop. reflexivity.
Defined.

End Instances.

(** ** Beyond the claims: reports, clones and further properties of [run],
    [seed] and [load] *)

From Stdlib Require Import Lqa.

(** *** [save_results], [plot] and [Individual.clone] *)

(** The dictionary [save_results] hands to [json.dump] (lines 106-120),
    without the class name. *)
Record ResultsDoc (Genome : Type) : Type := mkResultsDoc {
  rd_config : Config;
  rd_best_individual : Genome;
  rd_best_fitness : option Q;
  rd_average_fitness : Q
}.
Arguments mkResultsDoc {Genome}.
Arguments rd_config {Genome} r.
Arguments rd_best_individual {Genome} r.
Arguments rd_best_fitness {Genome} r.
Arguments rd_average_fitness {Genome} r.

(** The three columns [plot] takes from the history (lines 66-70) and hands
    to matplotlib. *)
Record Figure : Type := mkFigure {
  fig_generations : list Z;
  fig_best : list (option Q);
  fig_average : list Q
}.

(** Modelled from the spec: [totter.utils.storage], the location resolver,
    is not part of this file. Next to the snapshot and the seed caches the
    engine keeps [results/results.json] and [figures/fitness_vs_time.png],
    each absent or holding what was last written to it. [json.dump] and
    matplotlib are taken to accept what they are handed. *)
Record Reports (Genome : Type) : Type := mkReports {
  results_json : option (ResultsDoc Genome);
  fitness_vs_time : option Figure
}.
Arguments mkReports {Genome}.
Arguments results_json {Genome} r.
Arguments fitness_vs_time {Genome} r.

Section Reporting.
Context {Genome Rng Evaluator : Type} {py_genome : PyObject Genome}.
Context {arithmetic : Arithmetic}.

#[local] Abbreviation St := (State Genome Rng Evaluator).

Open Scope engine_scope.

(** Lines 106-120: the entries are evaluated in order, so a missing best
    individual fails before the mean is taken. *)
Definition results_data (s : St) : result (ResultsDoc Genome) :=
  match best_indv s with
  | None => Raise AttributeError
  | Some b =>
      match py_mean (map (fun indv => fitness (deref s indv)) (population s)) with
      | Raise e => Raise e
      | Ok average_fitness =>
          Ok (mkResultsDoc
                (mkConfig (max_evaluations s) (eval_time_limit s) (pop_size s)
                   (cx_prob s) (mt_prob s) (steady_state s) (random_seed s))
                (genome (deref s b)) (fitness (deref s b)) average_fitness)
      end
  end.

(** [plot] (lines 57-91): [np.array] of an empty history is one-dimensional,
    so that taking the column [history[:, 0]] raises [IndexError]. *)
Definition plot (s : St) : result Figure :=
  match history s with
  | [] => Raise IndexError
  | h => Ok (mkFigure (map h_generation h) (map h_best h) (map h_average h))
  end.

(** [save_results] (lines 99-129): the results file is written before the
    figure is drawn. *)
Definition save_results (s : St) (out : Reports Genome)
    : result unit * Reports Genome :=
  match results_data s with
  | Raise e => (Raise e, out)
  | Ok data =>
      let out := mkReports (Some data) (fitness_vs_time out) in
      match plot s with
      | Raise e => (Raise e, out)
      | Ok figure => (Ok tt, mkReports (results_json out) (Some figure))
      end
  end.

(** [Individual.clone] (lines 439-442): a new object with a deep copy of the
    genome, a value here, and the same fitness. *)
Definition clone (self : loc) : M St loc :=
  s <- get ;;
  cloned_self <- new_individual (genome (deref s self)) ;;
  modify (set_fitness cloned_self (fitness (deref s self))) ;;;
  ret cloned_self.

End Reporting.

(** *** Calls that returned *)

Section Calls.
Context {S : Type}.

Lemma bind_ok {A B} (m : M S A) (k : A -> M S B) s b s' :
  bind m k s = (Ok b, s') -> exists a s1, m s = (Ok a, s1) /\ k a s1 = (Ok b, s').
Proof. unfold bind. destruct (m s) as [[a|e] s1]; [eauto | done]. Qed.

Lemma wp_at {A} (m : M S A) (Q : result A -> S -> Prop) s r s' :
  wp m Q s -> m s = (r, s') -> Q r s'.
Proof. unfold wp. intros H E. by rewrite E in H. Qed.

Lemma wp_conj {A} (m : M S A) (Q1 Q2 : result A -> S -> Prop) s :
  wp m Q1 s -> wp m Q2 s -> wp m (fun r s' => Q1 r s' /\ Q2 r s') s.
Proof. by split. Qed.

End Calls.

(** *** A pass of the loop: dominance, rows and offspring *)

(** [g, g + 1, ...], [n] numbers. *)
Fixpoint consecutive (g : Z) (n : nat) : list Z :=
  match n with
  | O => []
  | S n' => g :: consecutive (g + 1) n'
  end.

Lemma pairs_length {A} (ps : list A) :
  (2 * length (py_zip (every_other ps) (every_other (drop 1 ps))) <= length ps)%nat.
Proof.
  assert (Hboth : forall ps : list A,
    (2 * length (py_zip (every_other ps) (every_other (drop 1 ps))) <= length ps)%nat /\
    forall a, (2 * length (py_zip (every_other (a :: ps)) (every_other (drop 1 (a :: ps))))
               <= length (a :: ps))%nat).
  { clear ps. induction ps as [|b ps [IH1 IH2]].
    - split; [simpl; lia|]. intros a. simpl. lia.
    - split; [apply IH2|]. intros a.
      assert (Hcons : py_zip (every_other (a :: b :: ps)) (every_other (drop 1 (a :: b :: ps)))
                      = (a, b) :: py_zip (every_other ps) (every_other (drop 1 ps))).
      { by destruct ps. }
      rewrite Hcons. simpl in *. lia. }
  apply Hboth.
Qed.

Section Passes.
Context {Genome Phenotype Rng Evaluator : Type}.
Context {py_genome : PyObject Genome} {random : Random Rng}.
Context {backend : Backend Evaluator Phenotype} {ops : Operators Genome Phenotype Rng}.
Context {arithmetic : Arithmetic}.

#[local] Abbreviation St := (State Genome Rng Evaluator).
#[local] Abbreviation Indv := (Individual Genome).

Implicit Types (s : St) (l : loc).

(** No member of the population is fitter than the best individual. *)
Definition best_dominates s : Prop :=
  forall l f, l ∈ population s -> fitness (deref s l) = Some f -> best_at_least s f.

(** The members of [pop] that have no fitness. *)
Definition unevaluated s (pop : list loc) : nat :=
  length (filter (fun l => fitness (deref s l) = None) pop).

Lemma best_dominates_same s s' :
  wf s -> population s' = population s -> best_indv s' = best_indv s ->
  (forall l, (l < length (heap s))%nat -> deref s' l = deref s l) ->
  best_dominates s -> best_dominates s'.
Proof.
  intros [Hwp Hwb] Hp Hb Hd Hdom l f Hl Hf. rewrite Hp in Hl.
  rewrite Hd in Hf by auto.
  destruct (Hdom l f Hl Hf) as (fb & Hfb & Hle). exists fb. split; [|done].
  unfold best_fitness in *. rewrite Hb. destruct (best_indv s) as [b|]; [|done].
  rewrite Hd; auto.
Qed.

Lemma best_dominates_ext s s' :
  heap s' = heap s -> population s' = population s -> best_indv s' = best_indv s ->
  best_dominates s -> best_dominates s'.
Proof.
  intros Hh Hp Hb Hdom l f Hl Hf. rewrite Hp in Hl.
  rewrite (deref_ext s s') in Hf by done.
  destruct (Hdom l f Hl Hf) as (fb & Hfb & Hle). exists fb. split; [|done].
  by rewrite (best_fitness_ext s s').
Qed.

(** When the mean over a dominated population can be taken, the best
    individual has a fitness. *)
Lemma best_of_evaluated s avg :
  best_dominates s ->
  py_mean (map (fun l => fitness (deref s l)) (population s)) = Ok avg ->
  is_Some (best_fitness s).
Proof.
  intros Hdom Hm. pose proof (py_mean_ok _ _ Hm) as [Hne Hall].
  destruct (population s) as [|l0 rest] eqn:Ep; [done|].
  destruct (Hall (fitness (deref s l0))) as [f0 Hf0]; [left|].
  destruct (Hdom l0 f0) as (b & Hb & _); [rewrite Ep; left | done |].
  by exists b.
Qed.

(** The update of lines 285-293 keeps the best individual on top. *)
Lemma update_population_dominates child s :
  wp (update_population child) (fun r s' =>
    r = Ok tt -> best_dominates s -> best_dominates s') s.
Proof.
  unfold update_population. apply wp_bind, wp_get. apply wp_bind.
  assert (Hbetter : wp (match best_indv s with
                        | Some b => lift (py_gt (fitness (deref s child)) (fitness (deref s b)))
                        | None => ret true
                        end)
            (fun r s1 => s1 = s /\
               match r with
               | Ok true => best_indv s = None \/
                   exists fb fc, best_fitness s = Some fb /\
                     fitness (deref s child) = Some fc /\ (fb < fc)%Q
               | Ok false => exists fb fc, best_fitness s = Some fb /\
                     fitness (deref s child) = Some fc /\ (fc <= fb)%Q
               | Raise e => True
               end) s).
  { destruct (best_indv s) as [b|] eqn:Eb.
    - apply wp_lift. split; [done|]. unfold py_gt, best_fitness. rewrite Eb.
      destruct (fitness (deref s child)) as [fc|]; [|done].
      destruct (fitness (deref s b)) as [fb|]; [|done].
      destruct (Qltb fb fc) eqn:E.
      + right. exists fb, fc. by apply Qltb_lt in E.
      + exists fb, fc. by apply Qltb_ge in E.
    - apply wp_ret. split; [done|]. by left. }
  eapply wp_mono; [exact Hbetter|]. clear Hbetter.
  intros [better|e] s0 [-> Hb]; [|done].
  apply wp_bind.
  set (s1 := if better then set_best_indv (Some child) s else s).
  assert (Hs1 : wp (if better then modify (set_best_indv (Some child)) else ret tt)
                   (fun r s' => r = Ok tt /\ s' = s1) s).
  { unfold s1. destruct better; [by apply wp_modify | by apply wp_ret]. }
  eapply wp_mono; [exact Hs1|]. clear Hs1. intros r0 s0 [-> ->].
  assert (Hdom1 : best_dominates s ->
            best_dominates s1 /\
            forall f, fitness (deref s1 child) = Some f -> best_at_least s1 f).
  { intros Hdom. unfold s1. destruct better.
    - assert (Hbf : best_fitness (set_best_indv (Some child) s) = fitness (deref s child)).
      { unfold best_fitness. simpl. by rewrite (deref_ext s). }
      split.
      + intros l f Hl Hf. rewrite (deref_ext s) in Hf by done.
        destruct (Hdom l f Hl Hf) as (fb' & Hfb' & Hle).
        destruct Hb as [Hnone | (fb & fc & Hfb & Hfc & Hlt)].
        * unfold best_fitness in Hfb'. by rewrite Hnone in Hfb'.
        * exists fc. split; [by rewrite Hbf|]. rewrite Hfb in Hfb'. simplify_eq.
          apply Qlt_le_weak in Hlt. by eapply Qle_trans.
      + intros f Hf. rewrite (deref_ext s) in Hf by done. exists f.
        split; [by rewrite Hbf | apply Qle_refl].
    - split; [done|]. intros f Hf. destruct Hb as (fb & fc & Hfb & Hfc & Hle).
      exists fb. split; [done|]. rewrite Hf in Hfc. by simplify_eq. }
  apply wp_bind, wp_get. apply wp_bind, wp_call_rng. intros [i|] r _.
  - destruct (py_index (population s1) i) as [k|] eqn:Ek.
    + apply wp_modify. intros _ Hdom. destruct (Hdom1 Hdom) as [Hd1 Hc1].
      set (s2 := set_population _ _).
      assert (Hbf2 : forall x, best_at_least s1 x -> best_at_least s2 x).
      { intros x (fb & Hfb & Hle). exists fb. split; [|done].
        by rewrite (best_fitness_ext s1 s2). }
      intros l f Hl Hf. rewrite (deref_ext s1 s2) in Hf by done. apply Hbf2.
      simpl in Hl. apply list_elem_of_lookup in Hl as [j Hj].
      apply py_index_lt in Ek.
      destruct (decide (j = k)) as [->|Hne].
      * rewrite list_lookup_insert_eq in Hj by exact Ek. simplify_eq. by apply Hc1.
      * rewrite list_lookup_insert_ne in Hj by done.
        apply (Hd1 l f); [|done]. apply list_elem_of_lookup. eauto.
    + by apply wp_raise.
  - apply wp_ret. intros _ Hdom. destruct (Hdom1 Hdom) as [Hd1 _].
    by apply (best_dominates_ext s1).
Qed.

(** What a pass does to the history and to the best individual. A completed
    pass advances the generation counter, keeps the best individual on top
    and, unless there is no best individual, appends the row of line 299: the
    generation, the best fitness and the mean over the population as it is
    when the pass ends. A pass that raises appends nothing. *)
Definition pass_post {A} s (r : result A) s' : Prop :=
  (is_Some (best_indv s) -> is_Some (best_indv s')) /\
  match r with
  | Ok _ =>
      generations s' = generations s + 1 /\
      (best_dominates s -> best_dominates s') /\
      ((best_indv s' = None /\ history s' = history s) \/
       exists avg,
         history s' = history s ++ [mkEntry (generations s) (best_fitness s') avg] /\
         py_mean (map (fun l => fitness (deref s' l)) (population s')) = Ok avg)
  | Raise _ => history s' = history s /\ generations s' = generations s
  end.

Lemma finish_pass_rows children s :
  (forall c, c ∈ children -> (c < length (heap s))%nat) ->
  wp (finish_pass children) (pass_post s) s.
Proof.
  intros Hin. unfold finish_pass. apply wp_bind. eapply wp_mono.
  { apply (wp_for_each
      (fun sc => heap sc = heap s /\ history sc = history s /\
                 generations sc = generations s /\
                 (is_Some (best_indv s) -> is_Some (best_indv sc)) /\
                 (best_dominates s -> best_dominates sc))
      (fun e sc => history sc = history s /\ generations sc = generations s /\
                   (is_Some (best_indv s) -> is_Some (best_indv sc)))).
    - done.
    - intros child sc Hchild (Hhc & Hhic & Hgc & Hbc & Hdc).
      eapply wp_mono.
      { apply wp_conj; [apply update_population_spec
                       | apply (update_population_dominates child)].
        rewrite Hhc. by apply Hin. }
      intros r sc' [(Hstep & Hh' & Ht' & Hhi' & Hg' & Hz' & Hmove & Hpop & Hok) Hdom'].
      assert (Hb' : is_Some (best_indv s) -> is_Some (best_indv sc')).
      { intros Hs. destruct Hmove as [-> | [-> _]]; [by apply Hbc | by eexists]. }
      destruct r as [[]|e].
      + repeat split; try congruence; try done.
        intros Hd. apply Hdom'; [done | by apply Hdc].
      + repeat split; try congruence; done. }
  intros [[]|e] s4; [|intros (Hhi4 & Hg4 & Hb4); by split].
  intros (Hh4 & Hhi4 & Hg4 & Hb4 & Hd4).
  apply wp_bind. unfold record_history. apply wp_bind, wp_get.
  destruct (best_indv s4) as [b|] eqn:Eb.
  - apply wp_bind, wp_lift.
    destruct (py_mean _) as [avg|e] eqn:Em.
    + apply wp_modify. apply wp_modify.
      set (s6 := set_generations _ _).
      split; [intros _; by exists b|].
      split; [simpl; lia|].
      split; [intros Hd; apply (best_dominates_ext s4); auto|].
      right. exists avg. split; [|exact Em].
      simpl. rewrite Hhi4, Hg4. unfold best_fitness. simpl. rewrite Eb.
      by rewrite (deref_ext s4 s6).
    + split; [done|]. by split.
  - apply wp_ret. apply wp_modify.
    split; [intros Hs; destruct (Hb4 Hs); congruence|].
    split; [simpl; lia|].
    split; [intros Hd; apply (best_dominates_ext s4); auto|].
    left. by split.
Qed.

Lemma iteration_rows s :
  wp iteration (fun r s' => wf s -> pass_post s r s') s.
Proof.
  unfold iteration.
  apply wp_bind. eapply wp_mono; [apply select_spec|].
  intros [parents|e] s1 [H1 _].
  2:{ intros _. rewrite H1. by split. }
  apply wp_bind. eapply wp_mono; [apply cross_pairs_spec|].
  intros [offspring|e] s2 [H2 _].
  2:{ pose proof (only_rng_trans _ _ _ H1 H2) as H12. intros _. rewrite H12. by split. }
  pose proof (only_rng_trans _ _ _ H1 H2) as H12. clear H1 H2 s1.
  assert (Hs2 : step_rel s s2) by (by apply only_rng_step).
  assert (Hf2 : heap s2 = heap s /\ population s2 = population s /\
                best_indv s2 = best_indv s /\ history s2 = history s /\
                generations s2 = generations s) by (by rewrite H12).
  destruct Hf2 as (Hh2 & Hp2 & Hb2 & Hhi2 & Hg2).
  apply wp_bind. eapply wp_mono; [apply make_children_spec|].
  intros r3 s3 (Hs3 & Hp3 & Hb3 & Hhi3 & Hg3 & Hold3 & Hz3 & Hr3).
  assert (Hsome3 : is_Some (best_indv s) -> is_Some (best_indv s3)) by congruence.
  destruct r3 as [children|e].
  2:{ intros _. split; [done|]. split; congruence. }
  destruct Hr3 as (Ht3 & Hlen3 & Hin3).
  apply wp_bind. eapply wp_mono; [by apply finish_pass_rows|].
  intros r4 s4 [Hb4 Hr4].
  assert (Hsome4 : is_Some (best_indv s) -> is_Some (best_indv s4)) by auto.
  destruct r4 as [[]|e].
  - apply wp_ret. intros Hwf. destruct Hr4 as (Hg4 & Hd4 & Hrow4).
    split; [done|]. split; [lia|]. split.
    + intros Hdom. apply Hd4.
      apply (best_dominates_same s); try congruence; try done.
      intros l Hl. rewrite Hold3 by (rewrite Hh2; done). by apply deref_ext.
    + destruct Hrow4 as [[Hnone Hh] | (avg & Hh & Hm)].
      * left. split; [done | congruence].
      * right. exists avg. split; [|done]. rewrite Hh. congruence.
  - intros _. split; [done|]. destruct Hr4. split; congruence.
Qed.

Lemma pass_post_at s :
  wf s -> pass_post s (fst (iteration s)) (snd (iteration s)).
Proof. apply iteration_rows. Qed.

(** *** The offspring of a pass *)

Lemma cross_pairs_count pairs s :
  wp (cross_pairs pairs) (fun r s' =>
    match r with
    | Ok offspring =>
        Nat.Even (length offspring) /\ (length offspring <= 2 * length pairs)%nat
    | Raise _ => True
    end) s.
Proof.
  revert s. induction pairs as [|[parent1 parent2] rest IH]; intros s; simpl.
  - apply wp_ret. split; [by exists 0%nat | simpl; lia].
  - apply wp_bind, wp_get. apply wp_bind, wp_call_rng. intros x r _.
    apply wp_bind.
    assert (Hnew : wp (if Qltb x (cx_prob s)
                       then bind (call_rng (crossover (genome parent1) (genome parent2)))
                              (fun r0 => match r0 with
                                         | Some (child1_genome, child2_genome) =>
                                             ret [child1_genome; child2_genome]
                                         | None => raise TypeError
                                         end)
                       else ret [])
                      (fun r0 s' => match r0 with
                                    | Ok new => new = [] \/ length new = 2%nat
                                    | Raise _ => True
                                    end) (set_rng r s)).
    { destruct (Qltb x (cx_prob s)).
      - apply wp_bind, wp_call_rng. intros [[c1 c2]|] r' _.
        + apply wp_ret. by right.
        + by apply wp_raise.
      - apply wp_ret. by left. }
    eapply wp_mono; [exact Hnew|]. intros [new|e] s1 Hn; [|done].
    apply wp_bind. eapply wp_mono; [apply IH|].
    intros [more|e] s2 Hm; [|done].
    apply wp_ret. destruct Hm as [[m Hm] Hle]. rewrite length_app.
    destruct Hn as [-> | ->]; simpl.
    + split; [by exists m | lia].
    + split; [exists (S m) | ]; lia.
Qed.

Lemma select_ok s ps s1 :
  select s = (Ok ps, s1) ->
  exists r,
    select_parents (population_values s) (if steady_state s then 2 else pop_size s) (rng s)
    = (Some ps, r) /\ s1 = set_rng r s.
Proof.
  unfold select, bind, get, call_rng, ret, raise, population_values. simpl.
  destruct (select_parents _ _ _) as [[ps'|] r]; simpl; intros; simplify_eq; eauto.
Qed.

Lemma iteration_ok s k s' :
  iteration s = (Ok k, s') ->
  exists parents s1 offspring s2 children s3,
    select s = (Ok parents, s1) /\
    cross_pairs (py_zip (every_other parents) (every_other (drop 1 parents))) s1
    = (Ok offspring, s2) /\
    make_children offspring s2 = (Ok children, s3) /\
    finish_pass children s3 = (Ok tt, s') /\
    k = length children /\ length children = length offspring.
Proof.
  unfold iteration. intros H.
  apply bind_ok in H as (parents & s1 & Hsel & H).
  apply bind_ok in H as (offspring & s2 & Hcross & H).
  apply bind_ok in H as (children & s3 & Hmake & H).
  apply bind_ok in H as ([] & s4 & Hfin & H).
  unfold ret in H. simplify_eq.
  pose proof (wp_at _ _ _ _ _ (make_children_spec offspring s2) Hmake)
    as (_ & _ & _ & _ & _ & _ & _ & _ & Hlen & _).
  exists parents, s1, offspring, s2, children, s3. done.
Qed.

(** Without crossover there is no offspring. *)
Lemma cross_pairs_idle pairs s :
  (cx_prob s <= 0)%Q -> (forall r, (0 <= fst (rng_random r))%Q) ->
  wp (cross_pairs pairs) (fun r s' => forall offspring, r = Ok offspring -> offspring = []) s.
Proof.
  intros Hcx Hnn. revert s Hcx.
  induction pairs as [|[parent1 parent2] rest IH]; intros s Hcx; simpl.
  - apply wp_ret. by intros offspring [= <-].
  - apply wp_bind, wp_get. apply wp_bind, wp_call_rng. intros x r Hx.
    assert (Hlt : Qltb x (cx_prob s) = false).
    { apply Qltb_ge. specialize (Hnn (rng s)). rewrite Hx in Hnn. simpl in Hnn.
      by eapply Qle_trans. }
    rewrite Hlt. apply wp_bind, wp_ret. apply wp_bind.
    eapply wp_mono; [by apply IH|].
    intros [more|e] s2 Hm; [|done].
    apply wp_ret. intros offspring [= <-]. by rewrite (Hm more).
Qed.

Lemma iteration_idle s k s' :
  (cx_prob s <= 0)%Q -> (forall r, (0 <= fst (rng_random r))%Q) ->
  iteration s = (Ok k, s') -> k = 0%nat.
Proof.
  intros Hcx Hnn (parents & s1 & offspring & s2 & children & s3 & Hsel & Hcross & _ & _
                  & -> & ->)%iteration_ok.
  apply select_ok in Hsel as (r & _ & ->).
  rewrite (wp_at _ _ _ _ _ (cross_pairs_idle _ (set_rng r s) Hcx Hnn) Hcross offspring); done.
Qed.

End Passes.

(** *** The warm-up loop and the passes of a run *)

Section Runs.
Context {Genome Phenotype Rng Evaluator : Type}.
Context {py_genome : PyObject Genome} {random : Random Rng}.
Context {backend : Backend Evaluator Phenotype} {ops : Operators Genome Phenotype Rng}.
Context {arithmetic : Arithmetic}.

#[local] Abbreviation St := (State Genome Rng Evaluator).
#[local] Abbreviation Indv := (Individual Genome).

Implicit Types (s : St) (l : loc).

(** One pass of the warm-up loop touches the individual at hand only, and
    only if it has no fitness; when the pass completes, the best individual
    is at least as fit as the individual. *)
Lemma warm_step_effect indv s :
  (indv < length (heap s))%nat ->
  wp (warm_step indv) (fun r s' =>
    (forall l, l <> indv -> deref s' l = deref s l) /\
    (is_Some (fitness (deref s indv)) ->
       heap s' = heap s /\ total_evaluations s' = total_evaluations s) /\
    (r = Ok tt ->
       (fitness (deref s indv) = None -> total_evaluations s' = total_evaluations s + 1) /\
       forall f, fitness (deref s' indv) = Some f -> best_at_least s' f)) s.
Proof.
  intros Hindv. unfold warm_step. apply wp_bind, wp_get. apply wp_bind.
  assert (Hev : wp (match fitness (deref s indv) with
                    | Some _ => ret tt
                    | None => _evaluate indv
                    end)
            (fun r s1 =>
               (forall l, l <> indv -> deref s1 l = deref s l) /\
               (is_Some (fitness (deref s indv)) ->
                  heap s1 = heap s /\ total_evaluations s1 = total_evaluations s) /\
               (r = Ok tt -> fitness (deref s indv) = None ->
                  total_evaluations s1 = total_evaluations s + 1)) s).
  { destruct (fitness (deref s indv)) eqn:Ef.
    - apply wp_ret. split; [done|]. split; [done|]. by intros _ ?.
    - eapply wp_mono; [by apply evaluate_spec|].
      intros r s1 (_ & _ & _ & _ & _ & _ & _ & Hother & Hr).
      split; [done|]. split; [by intros [? ?]|]. by intros -> _. }
  eapply wp_mono; [exact Hev|]. clear Hev.
  intros [[]|e] s1 (Hd1 & Hsame1 & Ht1); [|by split; [|split]].
  apply wp_bind, wp_get.
  assert (Hset : forall (better : bool),
    (better = false -> forall f, fitness (deref s1 indv) = Some f -> best_at_least s1 f) ->
    wp (if better then modify (set_best_indv (Some indv)) else ret tt)
      (fun r s' =>
         (forall l, l <> indv -> deref s' l = deref s l) /\
         (is_Some (fitness (deref s indv)) ->
            heap s' = heap s /\ total_evaluations s' = total_evaluations s) /\
         (r = Ok tt ->
            (fitness (deref s indv) = None ->
               total_evaluations s' = total_evaluations s + 1) /\
            forall f, fitness (deref s' indv) = Some f -> best_at_least s' f)) s1).
  { intros [] Hfalse.
    - apply wp_modify. set (s2 := set_best_indv (Some indv) s1).
      split; [intros l Hl; rewrite (deref_ext s1 s2) by done; auto|].
      split; [done|]. intros _. split; [by apply Ht1|].
      intros f Hf. exists f. split; [done | apply Qle_refl].
    - apply wp_ret. split; [done|]. split; [done|]. intros _.
      split; [by apply Ht1 | by apply Hfalse]. }
  destruct (best_indv s1) as [b|] eqn:Eb.
  2:{ apply wp_raise. by split; [|split]. }
  apply wp_bind.
  destruct (fitness (deref s1 b)) as [fb|] eqn:Efb.
  - apply wp_lift. unfold py_gt.
    destruct (fitness (deref s1 indv)) as [fi|] eqn:Efi.
    + apply (Hset (Qltb fb fi)). intros Hge%Qltb_ge f [= <-].
      exists fb. split; [|done]. unfold best_fitness. by rewrite Eb.
    + by split; [|split].
  - apply wp_ret. by apply (Hset true).
Qed.

Lemma unevaluated_ext s s' (pop : list loc) :
  (forall l, l ∈ pop -> deref s' l = deref s l) -> unevaluated s' pop = unevaluated s pop.
Proof.
  intros Hd. unfold unevaluated. induction pop as [|a t IH]; [done|].
  rewrite !filter_cons. rewrite (Hd a) by left.
  specialize (IH (fun l Hl => Hd l (list_elem_of_further _ _ _ Hl))).
  destruct (decide (fitness (deref s a) = None)); simpl; by rewrite IH.
Qed.

Lemma warm_loop_effect (pop : list loc) s :
  (forall a, a ∈ pop -> (a < length (heap s))%nat) ->
  wp (for_each pop warm_step) (fun r s' =>
    (forall l, l ∉ pop -> deref s' l = deref s l) /\
    (forall l, is_Some (fitness (deref s l)) -> deref s' l = deref s l) /\
    (is_Some (best_indv s) -> is_Some (best_indv s')) /\
    (r = Ok tt ->
       (NoDup pop ->
          total_evaluations s' = total_evaluations s + Z.of_nat (unevaluated s pop)) /\
       forall l f, l ∈ pop -> fitness (deref s' l) = Some f -> best_at_least s' f)) s.
Proof.
  revert s. induction pop as [|a t IH]; intros s Hin; simpl.
  - apply wp_ret. split; [done|]. split; [done|]. split; [done|]. intros _.
    split; [intros _; unfold unevaluated; simpl; lia|].
    by intros l f ?%elem_of_nil.
  - apply wp_bind. eapply wp_mono.
    { apply wp_conj; [apply warm_step_spec | apply warm_step_effect]; apply Hin; by left. }
    intros r1 s1 [(Hs1 & Hp1 & Hhi1 & Hg1 & Hl1 & Hz1 & Hmove1 & _) (Hd1 & Hsame1 & Hok1)].
    assert (Hkeep1 : forall l, is_Some (fitness (deref s l)) -> deref s1 l = deref s l).
    { intros l Hl. destruct (decide (l = a)) as [->|Hne]; [|by apply Hd1].
      apply deref_ext. by apply Hsame1. }
    assert (Hbest1 : is_Some (best_indv s) -> is_Some (best_indv s1)).
    { intros Hb. destruct Hmove1 as [-> | [-> _]]; [done | by eexists]. }
    destruct r1 as [[]|e].
    2:{ split; [|done]. intros l Hl. apply Hd1. intros ->. apply Hl. by left. }
    destruct (Hok1 eq_refl) as [Hnone1 Hdom1].
    eapply wp_mono.
    { apply wp_conj; [apply warm_loop_spec | apply IH];
        intros b Hb; rewrite Hl1; apply Hin; by right. }
    intros r s2 [(Hs2 & _) (Hd2 & Hkeep2 & Hbest2 & Hok2)].
    split; [|split; [|split; [auto|]]].
    { intros l Hl. rewrite Hd2, Hd1; [done | |]; intros ?; apply Hl; [subst; by left | by right]. }
    { intros l Hl. rewrite Hkeep2; [by apply Hkeep1|]. by rewrite Hkeep1. }
    intros ->. destruct (Hok2 eq_refl) as [Hcount2 Hdom2]. split.
    + intros [Ha Hnd]%NoDup_cons. rewrite (Hcount2 Hnd).
      rewrite (unevaluated_ext s s1 t).
      2:{ intros l Hl. apply Hd1. by intros ->. }
      unfold unevaluated at 2. rewrite filter_cons.
      destruct (decide (fitness (deref s a) = None)) as [Hn|Hn].
      * rewrite (Hnone1 Hn). cbn [length]. fold (unevaluated s t). lia.
      * destruct Hsame1 as [_ ->].
        { destruct (fitness (deref s a)); [by eexists | done]. }
        fold (unevaluated s t). lia.
    + intros l f Hl Hf.
      destruct (decide (l ∈ t)) as [Ht|Ht]; [by apply (Hdom2 l f)|].
      apply elem_of_cons in Hl as [->|Hl]; [|done].
      rewrite (Hd2 a Ht) in Hf. apply (sr_best _ _ Hs2). by apply Hdom1.
Qed.

Lemma warm_up_effect s r s' :
  wf s -> warm_up s = (r, s') ->
  wf s' /\ population s' = population s /\ history s' = history s /\
  generations s' = generations s /\ settings s' = settings s /\
  (is_Some (best_indv s) -> is_Some (best_indv s')) /\
  (forall l, l ∉ population s -> deref s' l = deref s l) /\
  (forall l, is_Some (fitness (deref s l)) -> deref s' l = deref s l) /\
  (r = Ok tt ->
     best_dominates s' /\
     (NoDup (population s) ->
        total_evaluations s'
        = total_evaluations s + Z.of_nat (unevaluated s (population s)))).
Proof.
  intros Hwf Hw.
  pose proof (wp_at _ _ _ _ _ (warm_up_spec s Hwf) Hw) as (Hstep & Hp & Hhi & Hg & _ & _).
  assert (Hloop : for_each (population s) warm_step s = (r, s')) by exact Hw.
  pose proof (wp_at _ _ _ _ _ (warm_loop_effect (population s) s (proj1 Hwf)) Hloop)
    as (Hout & Hkeep & Hbest & Hok).
  split; [by apply Hstep|]. split; [done|]. split; [done|]. split; [done|].
  split; [apply Hstep|]. split; [done|]. split; [done|]. split; [done|].
  intros Hr. destruct (Hok Hr) as [Hcount Hdom]. split; [|done].
  intros l f Hl Hf. rewrite Hp in Hl. by apply (Hdom l f).
Qed.

(** The rows of a loop: one per completed pass, numbered from the generation
    counter the loop starts with. *)
Lemma loop_rows fuel trace s :
  wf s -> is_Some (best_indv s) ->
  exists new rows,
    snd (fst (loop fuel trace s)) = new ++ trace /\
    history (snd (loop fuel trace s)) = history s ++ rows /\
    h_generation <$> rows = consecutive (generations s) (length new) /\
    generations (snd (loop fuel trace s)) = generations s + Z.of_nat (length new).
Proof.
  revert trace s. induction fuel as [|fuel IH]; intros trace s Hwf Hbest; simpl.
  - exists [], []. by rewrite app_nil_r, Z.add_0_r.
  - destruct (total_evaluations s <? max_evaluations s).
    2:{ exists [], []. by rewrite app_nil_r, Z.add_0_r. }
    pose proof (pass_post_at s Hwf) as Hpost.
    pose proof (iteration_post_at s) as (Hstep & _).
    destruct (iteration s) as [[k|e] s1]; simpl in *.
    + destruct Hpost as (Hsome & Hg & _ & Hrow).
      destruct Hrow as [[Hnone _] | (avg & Hh & _)].
      { destruct (Hsome Hbest). congruence. }
      destruct (IH (k :: trace) s1) as (new & rows & Ht & Hh' & Hgen & Hg');
        [by apply Hstep | auto |].
      exists (new ++ [k]), (mkEntry (generations s) (best_fitness s1) avg :: rows).
      rewrite Ht, Hh', Hh, Hg', <- !(assoc_L (++)), length_app, Nat.add_1_r.
      split; [done|]. split; [done|]. split; [|lia].
      rewrite fmap_cons, Hgen, Hg. done.
    + destruct Hpost as (_ & Hh & Hg). exists [], [].
      by rewrite app_nil_r, Z.add_0_r.
Qed.

(** Over the passes the best individual stays on top of the population. *)
Lemma loop_dominates fuel trace s :
  wf s -> best_dominates s ->
  (forall e, fst (fst (loop fuel trace s)) <> Raised e) ->
  best_dominates (snd (loop fuel trace s)).
Proof.
  revert trace s. induction fuel as [|fuel IH]; intros trace s Hwf Hdom; simpl.
  - done.
  - destruct (total_evaluations s <? max_evaluations s); [|done].
    pose proof (pass_post_at s Hwf) as Hpost.
    pose proof (iteration_post_at s) as (Hstep & _).
    destruct (iteration s) as [[k|e] s1] eqn:Ei; simpl in *.
    + destruct Hpost as (_ & _ & Hd & _).
      apply IH; [by apply Hstep | auto].
    + intros Hno. by destruct (Hno e).
Qed.

(** The counter advances by the offspring counts of the passes. *)
Lemma loop_total fuel trace s :
  exists new,
    snd (fst (loop fuel trace s)) = new ++ trace /\
    ((forall e, fst (fst (loop fuel trace s)) <> Raised e) ->
     total_evaluations (snd (loop fuel trace s))
     = total_evaluations s + Z.of_nat (sum_list new)).
Proof.
  revert trace s. induction fuel as [|fuel IH]; intros trace s; simpl.
  - exists []. split; [done|]. intros _. simpl. lia.
  - destruct (total_evaluations s <? max_evaluations s).
    2:{ exists []. split; [done|]. intros _. simpl. lia. }
    pose proof (iteration_post_at s) as Hpost.
    destruct (iteration s) as [[k|e] s1]; simpl in *.
    + destruct Hpost as (_ & _ & _ & _ & Ht & _).
      destruct (IH (k :: trace) s1) as (new & Htr & Htot).
      exists (new ++ [k]). rewrite Htr, <- (assoc_L (++)). split; [done|].
      intros Hno. rewrite (Htot Hno), Ht, sum_list_with_app. simpl. lia.
    + exists []. split; [done|]. intros Hno. by destruct (Hno e).
Qed.

(** Without offspring the counter stands still and the loop is never left
    by its condition. *)
Lemma loop_never_returns fuel trace s :
  (cx_prob s <= 0)%Q -> (forall r, (0 <= fst (rng_random r))%Q) ->
  total_evaluations s < max_evaluations s ->
  fst (fst (loop fuel trace s)) <> Returned.
Proof.
  intros Hcx Hnn. revert trace s Hcx.
  induction fuel as [|fuel IH]; intros trace s Hcx Hlt; simpl; [done|].
  apply Z.ltb_lt in Hlt as Hlt'. rewrite Hlt'.
  pose proof (iteration_post_at s) as Hpost.
  destruct (iteration s) as [[k|e] s1] eqn:Ei; simpl in *; [|done].
  destruct Hpost as (Hstep & _ & _ & _ & Ht & _).
  pose proof (sr_settings _ _ Hstep) as Hset. unfold settings in Hset.
  apply (iteration_idle s k s1 Hcx Hnn) in Ei as ->.
  injection Hset as _ _ _ _ Hc _ _ Hm. apply IH; [by rewrite Hc | lia].
Qed.

End Runs.

(** *** Seeding, continued *)

(** Ascending keys, as [sorted] leaves them. *)
Fixpoint ascending {A} (l : list (Q * A)) : Prop :=
  match l with
  | [] => True
  | x :: t => (forall y, y ∈ t -> (fst x <= fst y)%Q) /\ ascending t
  end.

Lemma elem_of_insert_by_key {A} (x y : Q * A) l :
  y ∈ insert_by_key x l -> y = x \/ y ∈ l.
Proof.
  induction l as [|z t IH]; simpl.
  - intros ->%list_elem_of_singleton. by left.
  - destruct (Qltb (fst z) (fst x)).
    + intros [->|Hy]%elem_of_cons; [right; left|].
      destruct (IH Hy) as [->|Ht]; [by left | right; by right].
    + intros [->|Hy]%elem_of_cons; [by left | by right].
Qed.

Lemma elem_of_sorted {A} (y : Q * A) l :
  y ∈ foldr insert_by_key [] l -> y ∈ l.
Proof.
  induction l as [|x t IH]; simpl; [done|].
  intros [->|Hy]%elem_of_insert_by_key; [left | right; auto].
Qed.

Lemma ascending_insert {A} (x : Q * A) l :
  ascending l -> ascending (insert_by_key x l).
Proof.
  induction l as [|y t IH]; simpl.
  - intros _. split; [by intros z ?%elem_of_nil | done].
  - intros [Hy Ht]. destruct (Qltb (fst y) (fst x)) eqn:E; simpl.
    + split; [|by apply IH].
      intros z [->|Hz]%elem_of_insert_by_key; [|by apply Hy].
      by apply Qlt_le_weak, Qltb_lt.
    + apply Qltb_ge in E. split; [|by split].
      intros z [->|Hz]%elem_of_cons; [done|].
      eapply Qle_trans; [exact E | by apply Hy].
Qed.

Lemma ascending_sorted {A} (l : list (Q * A)) : ascending (foldr insert_by_key [] l).
Proof. induction l as [|x t IH]; simpl; [done | by apply ascending_insert]. Qed.

Lemma ascending_lookup {A} (l : list (Q * A)) i j x y :
  ascending l -> (i < j)%nat -> l !! i = Some x -> l !! j = Some y ->
  (fst x <= fst y)%Q.
Proof.
  revert i j. induction l as [|z t IH]; intros i j Ha Hij Hi Hj; [done|].
  destruct Ha as [Hz Ht]. destruct j as [|j]; [lia|]. simpl in Hj.
  destruct i as [|i]; simpl in Hi.
  - simplify_eq. apply Hz. apply list_elem_of_lookup. eauto.
  - apply (IH i j); [done | lia | done | done].
Qed.

Lemma py_slice_to_take {A} (k : Z) (l : list A) : exists n, py_slice_to k l = take n l.
Proof. unfold py_slice_to. destruct (0 <=? k); eauto. Qed.

Section Seeding.
Context {Genome Phenotype Rng Evaluator : Type}.
Context {py_genome : PyObject Genome} {random : Random Rng}.
Context {backend : Backend Evaluator Phenotype} {ops : Operators Genome Phenotype Rng}.
Context {arithmetic : Arithmetic}.

#[local] Abbreviation St := (State Genome Rng Evaluator).
#[local] Abbreviation Indv := (Individual Genome).

Implicit Types (s : St) (l : loc) (fs : Files Genome).

(** [indv.fitness = None], on the individual by value. *)
Definition unscored (i : Indv) : Indv := mkIndividual (genome i) None.

(** Every individual of the list carries a fitness, and the list is in
    descending order of fitness. *)
Definition descending (pop : list Indv) : Prop :=
  (forall a, a ∈ pop -> is_Some (fitness a)) /\
  forall i j a b fa fb, (i < j)%nat -> pop !! i = Some a -> pop !! j = Some b ->
    fitness a = Some fa -> fitness b = Some fb -> (fb <= fa)%Q.

(** The state [seed_install] leaves when it returns. *)
Definition installed (seeded_pop : list Indv) s : St :=
  set_heap (heap s ++ map unscored seeded_pop)
    (set_best_indv (Some (length (heap s)))
       (set_population (seq (length (heap s)) (length seeded_pop)) s)).

Lemma reset_loop (pre pop : list Indv) s :
  heap s = pre ++ pop ->
  for_each (seq (length pre) (length pop)) (fun indv => modify (set_fitness indv None)) s
  = (Ok tt, set_heap (pre ++ map unscored pop) s).
Proof.
  revert pre s. induction pop as [|i rest IH]; intros pre s Hh.
  - simpl. unfold ret. rewrite app_nil_r in *. rewrite <- Hh. by destruct s.
  - cbn [length seq for_each]. unfold bind at 1. unfold modify at 1.
    set (s1 := set_fitness (length pre) None s).
    assert (Hd : deref s (length pre) = i).
    { apply deref_lookup. rewrite Hh. by rewrite lookup_app_r, Nat.sub_diag. }
    assert (Hh1 : heap s1 = (pre ++ [unscored i]) ++ rest).
    { unfold s1, set_fitness. simpl. rewrite Hd, Hh.
      rewrite insert_app_r_alt, Nat.sub_diag by lia. simpl.
      by rewrite <- (assoc_L (++)). }
    specialize (IH (pre ++ [unscored i]) s1 Hh1).
    rewrite length_app, Nat.add_1_r in IH. rewrite IH.
    by rewrite <- (assoc_L (++)).
Qed.

Lemma seed_install_cases (seeded_pop : list Indv) s :
  seed_install seeded_pop s =
    match seeded_pop with
    | [] => (Raise IndexError, set_population [] (set_heap (heap s ++ []) s))
    | _ :: _ => (Ok tt, installed seeded_pop s)
    end.
Proof.
  destruct seeded_pop as [|i rest]; [done|].
  unfold seed_install, bind, get, modify. cbn [length seq].
  set (s1 := set_best_indv _ _).
  pose proof (reset_loop (heap s) (i :: rest) s1 eq_refl) as Hr.
  cbn [length seq for_each] in Hr. unfold bind at 1 in Hr. unfold modify at 1 in Hr.
  exact Hr.
Qed.

Lemma deref_seq s (h xs : list Indv) :
  heap s = h ++ xs -> map (deref s) (seq (length h) (length xs)) = xs.
Proof.
  intros Hh. apply list_eq. intros i. rewrite list_lookup_fmap.
  destruct (decide (i < length xs)%nat) as [Hlt|Hge].
  - rewrite lookup_seq_lt by done. simpl.
    destruct (lookup_lt_is_Some_2 xs i Hlt) as [x Hx]. rewrite Hx. f_equal.
    apply deref_lookup. rewrite Hh, lookup_app_r by lia.
    by replace (length h + i - length h)%nat with i by lia.
  - rewrite lookup_seq_ge by lia. by rewrite lookup_ge_None_2 by lia.
Qed.

Lemma installed_values (seeded_pop : list Indv) s :
  population_values (installed seeded_pop s) = map unscored seeded_pop.
Proof.
  unfold population_values, installed. simpl.
  rewrite <- (length_map unscored seeded_pop). by apply deref_seq.
Qed.

(** The scoring loop of lines 213-218 assigns a fitness to every pool member
    and touches neither the evaluator nor the generator. *)
Lemma score_loop (pool : list loc) s :
  (forall l, l ∈ pool -> (l < length (heap s))%nat) ->
  wp (for_each pool seed_score) (fun r s' =>
    qwop_evaluator s' = qwop_evaluator s /\ rng s' = rng s /\
    eval_time_limit s' = eval_time_limit s /\
    length (heap s') = length (heap s) /\
    (forall l, is_Some (fitness (deref s l)) -> is_Some (fitness (deref s' l))) /\
    (forall l, l ∉ pool -> deref s' l = deref s l) /\
    match r with
    | Ok _ => forall l, l ∈ pool -> is_Some (fitness (deref s' l))
    | Raise e => e = IndexError
    end) s.
Proof.
  revert s. induction pool as [|a t IH]; intros s Hin; simpl.
  - apply wp_ret. repeat split; try done. by intros l ?%elem_of_nil.
  - apply wp_bind. unfold seed_score at 1. apply wp_bind, wp_get.
    destruct (evaluate _ _) as [|[distance run_time] rest].
    { apply wp_raise. by repeat split. }
    apply wp_modify. set (s1 := set_fitness a (Some distance) s).
    assert (Ha : (a < length (heap s))%nat) by (apply Hin; by left).
    assert (Hl1 : length (heap s1) = length (heap s)).
    { unfold s1. simpl. by rewrite length_insert. }
    assert (Hsome1 : forall l, is_Some (fitness (deref s l)) \/ l = a ->
                               is_Some (fitness (deref s1 l))).
    { intros l Hl. unfold s1. destruct (decide (l = a)) as [->|Hne].
      - rewrite deref_set_fitness_eq by done. by eexists.
      - rewrite deref_set_fitness_ne by done. by destruct Hl. }
    eapply wp_mono.
    { apply IH. intros l Hl. rewrite Hl1. apply Hin. by right. }
    intros r s2 (He2 & Hr2 & Ht2 & Hl2 & Hsome2 & Hout2 & Hres2).
    split; [done|]. split; [done|]. split; [done|]. split; [congruence|].
    split; [intros l Hl; apply Hsome2, Hsome1; by left|].
    split.
    { intros l Hl. rewrite Hout2 by (intros ?; apply Hl; by right).
      unfold s1. apply deref_set_fitness_ne. intros ->. apply Hl. by left. }
    destruct r as [[]|e]; [|done].
    intros l [->|Hl]%elem_of_cons; [|by apply Hres2].
    apply Hsome2, Hsome1. by right.
Qed.

(** The keys of line 221 exist for a scored pool, and each is the negated
    fitness of its individual. *)
Lemma keyed_pool s (pool : list loc) :
  (forall l, l ∈ pool -> is_Some (fitness (deref s l))) ->
  exists keyed, all_ok (map (negated_fitness s) pool) = Ok keyed.
Proof.
  induction pool as [|a t IH]; intros Hall; simpl; [by eexists|].
  destruct (Hall a) as [f Hf]; [left|].
  destruct IH as [keyed Hk]; [intros l Hl; apply Hall; by right|].
  unfold negated_fitness at 1. rewrite Hf, Hk. by eexists.
Qed.

Lemma all_ok_keyed s (pool : list loc) keyed kl :
  all_ok (map (negated_fitness s) pool) = Ok keyed -> kl ∈ keyed ->
  exists f, fitness (deref s (snd kl)) = Some f /\ fst kl = (- f)%Q.
Proof.
  revert keyed. induction pool as [|a t IH]; intros keyed Hk Hin; simpl in Hk.
  - simplify_eq. by apply elem_of_nil in Hin.
  - unfold negated_fitness at 1 in Hk.
    destruct (fitness (deref s a)) as [f|] eqn:Ef; [|done].
    destruct (all_ok _) as [keyed'|e]; [|done]. simplify_eq.
    apply elem_of_cons in Hin as [->|Hin]; [by exists f | by apply (IH keyed')].
Qed.

Lemma descending_sorted s (pool : list loc) keyed (k : Z) :
  all_ok (map (negated_fitness s) pool) = Ok keyed ->
  descending (map (deref s) (py_slice_to k (sorted_by_key keyed))).
Proof.
  intros Hk. destruct (py_slice_to_take k (sorted_by_key keyed)) as [n ->].
  unfold sorted_by_key. set (sorted := foldr insert_by_key [] keyed).
  assert (Hat : forall i a, map (deref s) (take n (map snd sorted)) !! i = Some a ->
            exists kl f, sorted !! i = Some kl /\ a = deref s (snd kl) /\
                         fitness a = Some f /\ fst kl = (- f)%Q).
  { intros i a Hi. apply list_lookup_fmap_Some in Hi as (l & -> & Hl).
    apply lookup_take_Some in Hl as [Hl _].
    apply list_lookup_fmap_Some in Hl as (kl & -> & Hkl).
    destruct (all_ok_keyed s pool keyed kl Hk) as (f & Hf & Hkey).
    { apply elem_of_sorted, list_elem_of_lookup. eauto. }
    by exists kl, f. }
  split.
  - intros a [i Hi]%list_elem_of_lookup.
    destruct (Hat i a Hi) as (kl & f & _ & _ & Hf & _). by eexists.
  - intros i j a b fa fb Hij Hi Hj Hfa Hfb.
    destruct (Hat i a Hi) as (ki & fi & Hki & _ & Hfi & Hkeyi).
    destruct (Hat j b Hj) as (kj & fj & Hkj & _ & Hfj & Hkeyj).
    pose proof (ascending_lookup sorted i j ki kj (ascending_sorted keyed) Hij Hki Hkj) as Hle.
    rewrite Hkeyi, Hkeyj in Hle. simplify_eq. lra.
Qed.

(** The branch that generates the pool: the list handed to [pickle.dump] is
    in descending order of the distance and the time limit is reset; the only
    exception is the [IndexError] of a backend that reports no measurement,
    which leaves the temporary time limit in place. *)
Lemma seed_generate_effect pool_size time_limit s :
  wp (seed_generate pool_size time_limit) (fun r s' =>
    (length (heap s) <= length (heap s'))%nat /\
    (forall l, (l < length (heap s))%nat -> deref s' l = deref s l) /\
    match r with
    | Ok population =>
        descending population /\
        qwop_evaluator s'
        = set_simulator_time_limit (eval_time_limit s)
            (set_simulator_time_limit time_limit (qwop_evaluator s))
    | Raise e =>
        e = IndexError /\
        qwop_evaluator s' = set_simulator_time_limit time_limit (qwop_evaluator s)
    end) s.
Proof.
  unfold seed_generate. apply wp_bind, wp_modify.
  set (s1 := set_qwop_evaluator _ s).
  apply wp_bind. eapply wp_mono; [apply new_population_spec|].
  intros r2 s2 (-> & (fresh & Hh2 & Hlen2 & _) & Hs2).
  assert (Hf2 : qwop_evaluator s2 = qwop_evaluator s1 /\
                eval_time_limit s2 = eval_time_limit s) by (by rewrite Hs2).
  destruct Hf2 as [He2 Ht2].
  assert (Hpool : forall l, l ∈ seq (length (heap s1)) (Z.to_nat pool_size) ->
                            (l < length (heap s2))%nat).
  { intros l Hl%elem_of_seq. rewrite Hh2, length_app, Hlen2. lia. }
  assert (Hold2 : forall l, (l < length (heap s))%nat -> deref s2 l = deref s l).
  { intros l Hl. unfold deref. rewrite Hh2. by rewrite lookup_app_l. }
  apply wp_bind. eapply wp_mono; [by apply score_loop|].
  intros r3 s3 (He3 & _ & Ht3 & Hl3 & _ & Hout3 & Hr3).
  assert (Hlen : (length (heap s) <= length (heap s3))%nat).
  { rewrite Hl3, Hh2, length_app. simpl. lia. }
  assert (Hold3 : forall l, (l < length (heap s))%nat -> deref s3 l = deref s l).
  { intros l Hl. rewrite Hout3; [by apply Hold2|].
    intros Hin%elem_of_seq. simpl in Hin. lia. }
  destruct r3 as [[]|e].
  2:{ split; [done|]. split; [done|]. split; [done|]. by rewrite He3, He2. }
  apply wp_bind, wp_get. apply wp_bind, wp_lift.
  destruct (keyed_pool s3 _ Hr3) as [keyed Hk]. rewrite Hk.
  apply wp_bind, wp_modify. apply wp_ret.
  split; [done|]. split; [intros l Hl; rewrite <- Hold3 by done; by apply deref_ext|].
  split; [by eapply descending_sorted|]. simpl. by rewrite Ht3, Ht2, He3, He2.
Qed.

End Seeding.

(** ** Properties beyond the claims *)

Section Coverage.
Context {Genome Phenotype Rng Evaluator : Type}.
Context {py_genome : PyObject Genome} {random : Random Rng}.
Context {backend : Backend Evaluator Phenotype} {ops : Operators Genome Phenotype Rng}.
Context {arithmetic : Arithmetic}.

#[local] Abbreviation St := (State Genome Rng Evaluator).
#[local] Abbreviation Indv := (Individual Genome).

Implicit Types (s sc loader saved : St) (l : loc) (fs : Files Genome).

Lemma unevaluated_all s (pop : list loc) :
  (forall l, l ∈ pop -> fitness (deref s l) = None) -> unevaluated s pop = length pop.
Proof.
  intros Hall. unfold unevaluated. induction pop as [|a t IH]; [done|].
  rewrite filter_cons_True by (apply Hall; left). simpl.
  rewrite IH; [done|]. intros l Hl. apply Hall. by right.
Qed.

Lemma loop_last fuel trace s trace' s' :
  wf s -> is_Some (best_indv s) -> best_dominates s ->
  loop fuel trace s = (Returned, trace', s') ->
  (trace' = trace /\ s' = s) \/
  exists s0 k, wf s0 /\ is_Some (best_indv s0) /\ best_dominates s0 /\
               iteration s0 = (Ok k, s').
Proof.
  revert trace s. induction fuel as [|fuel IH]; intros trace s Hwf Hbest Hdom Hl;
    simpl in Hl; [done|].
  destruct (total_evaluations s <? max_evaluations s).
  2:{ left. by simplify_eq. }
  pose proof (pass_post_at s Hwf) as Hpost.
  pose proof (iteration_post_at s) as (Hstep & _).
  destruct (iteration s) as [[k|e] s1] eqn:Ei; simpl in *; [|done].
  destruct Hpost as (Hsome & _ & Hd & _).
  destruct (IH (k :: trace) s1) as [[-> ->] | Hlater];
    [by apply Hstep | auto | auto | done | | by right].
  right. by exists s, k.
Qed.

(** *** Construction *)

(** X1. With a population size of at least 1, [__init__] returns: the
    population has exactly [pop_size] members, all distinct objects without a
    fitness, [best_indv] is the first of them, no evaluation has been counted,
    the generation counter is 1 and the history is empty. *)
Theorem construction_establishes cfg (ambient : Rng) :
  0 < c_pop_size cfg ->
  exists s, __init__ cfg ambient = Ok s /\
    Z.of_nat (length (population s)) = c_pop_size cfg /\
    NoDup (population s) /\
    (forall l, l ∈ population s -> fitness (deref s l) = None) /\
    unevaluated s (population s) = length (population s) /\
    best_indv s = head (population s) /\
    total_evaluations s = 0 /\ generations s = 1 /\ history s = [].
Proof.
  intros Hpos.
  assert (Hex : exists s, __init__ cfg ambient = Ok s).
  { unfold __init__. set (s0 := set_rng _ _).
    pose proof (new_population_spec (Z.to_nat (pop_size s0)) s0) as Hnew.
    unfold wp in Hnew. destruct (new_population _ s0) as [r s1]. simpl in Hnew.
    destruct Hnew as (-> & _). change (pop_size s0) with (c_pop_size cfg).
    destruct (Z.to_nat (c_pop_size cfg)) as [|n] eqn:En; [lia|]. simpl. by eexists. }
  destruct Hex as [s Hs]. exists s. split; [done|].
  apply construct_spec in Hs
    as (Hwf & Hne & Hlen & Hps & _ & _ & Hhi & Ht & Hg & Hpop & Hb & Hnone).
  assert (Hall : forall l, l ∈ population s -> fitness (deref s l) = None).
  { intros l Hl. destruct (fitness (deref s l)) as [f|] eqn:Ef; [|done].
    apply fitness_in_range in Ef as Hlt.
    destruct (lookup_lt_is_Some_2 (heap s) l Hlt) as [i Hi].
    rewrite (deref_lookup s l i Hi) in Ef.
    rewrite (Hnone i) in Ef; [done|]. apply list_elem_of_lookup. eauto. }
  split; [congruence|]. split; [rewrite Hpop; apply NoDup_seq|]. split; [done|].
  split; [by apply unevaluated_all|]. split; [|done].
  rewrite Hb, Hpop. destruct (heap s); [by rewrite Hpop in Hne | done].
Qed.

(** *** [run] *)

(** X2. The loop of lines 248-252 evaluates exactly the members that have no
    fitness: the counter advances by their number, an individual that has a
    fitness is left as it is, and so is every individual outside the
    population. *)
Theorem warm_up_evaluates_the_unevaluated s s' :
  wf s -> NoDup (population s) -> warm_up s = (Ok tt, s') ->
  total_evaluations s' = total_evaluations s + Z.of_nat (unevaluated s (population s)) /\
  (forall l, is_Some (fitness (deref s l)) -> deref s' l = deref s l) /\
  (forall l, l ∉ population s -> deref s' l = deref s l).
Proof.
  intros Hwf Hnd Hw.
  destruct (warm_up_effect s _ s' Hwf Hw) as (_ & _ & _ & _ & _ & _ & Hout & Hkeep & Hok).
  destruct (Hok eq_refl) as [_ Hcount]. auto.
Qed.

(** X3. When [run] returns, no member of the population is fitter than
    [best_indv]. *)
Theorem run_best_dominates (fuel : nat) s trace s' :
  wf s -> run fuel s = (Returned, trace, s') -> best_dominates s'.
Proof.
  intros Hwf. unfold run. destruct (warm_up s) as [[[]|e] s1] eqn:Hw; [|done].
  destruct (warm_up_effect s _ s1 Hwf Hw) as (Hwf1 & _ & _ & _ & _ & _ & _ & _ & Hok).
  destruct (Hok eq_refl) as [Hdom1 _]. intros Hl.
  pose proof (loop_dominates fuel [] s1 Hwf1 Hdom1) as Hdom.
  rewrite Hl in Hdom. by apply Hdom.
Qed.

(** X4. However [run] ends, it has appended one row per completed pass; the
    rows carry consecutive generation numbers starting at the generation
    counter [run] found, and the counter has advanced by the number of
    passes. *)
Theorem run_rows_per_pass (fuel : nat) s o trace s' :
  wf s -> is_Some (best_indv s) -> run fuel s = (o, trace, s') ->
  generations s' = generations s + Z.of_nat (length trace) /\
  h_generation <$> rows_since s s' = consecutive (generations s) (length trace).
Proof.
  intros Hwf Hbest. unfold run. destruct (warm_up s) as [r s1] eqn:Hw.
  destruct (warm_up_effect s _ s1 Hwf Hw) as (Hwf1 & _ & Hhi1 & Hg1 & _ & Hb1 & _).
  destruct r as [[]|e].
  - intros Hl.
    destruct (loop_rows fuel [] s1 Hwf1 (Hb1 Hbest)) as (new & rows & Ht & Hh & Hgen & Hg).
    rewrite Hl in Ht, Hh, Hg. simpl in Ht, Hh, Hg. rewrite app_nil_r in Ht. subst new.
    unfold rows_since. rewrite Hh, <- Hhi1, drop_app_length, <- Hg1.
    split; [by rewrite Hg | done].
  - intros [= <- <- <-]. simpl. split; [lia|]. by rewrite rows_since_refl.
Qed.

(** X5. When [run] returns, the counter stands at its value after the
    warm-up plus the offspring of all passes. *)
Theorem run_total_exact (fuel : nat) s o trace s' :
  run fuel s = (o, trace, s') -> (forall e, o <> Raised e) ->
  total_evaluations s'
  = total_evaluations (snd (warm_up s)) + Z.of_nat (sum_list trace).
Proof.
  unfold run. destruct (warm_up s) as [[[]|e] s1] eqn:Hw; simpl.
  - intros Hl Hno. destruct (loop_total fuel [] s1) as (new & Ht & Htot).
    rewrite Hl in Ht, Htot. simpl in Ht, Htot. rewrite app_nil_r in Ht. subst new.
    by apply Htot.
  - intros [= <- <- <-] Hno. by destruct (Hno e).
Qed.

(** X6. A completed pass evaluates an even number of children, no more than
    the number of parents [select_parents] returned, and the counter advances
    by exactly that number. *)
Theorem pass_offspring_count s k s' :
  iteration s = (Ok k, s') ->
  Nat.Even k /\
  total_evaluations s' = total_evaluations s + Z.of_nat k /\
  exists parents r,
    select_parents (population_values s)
      (if steady_state s then 2 else pop_size s) (rng s) = (Some parents, r) /\
    (k <= length parents)%nat.
Proof.
  intros Hi. pose proof (iteration_post_at s) as Hpost. rewrite Hi in Hpost.
  destruct Hpost as (_ & _ & _ & _ & Ht & _).
  apply iteration_ok in Hi
    as (parents & s1 & offspring & s2 & children & s3 & Hsel & Hcross & _ & _ & -> & Hlen).
  apply select_ok in Hsel as (r & Hsel & ->).
  pose proof (wp_at _ _ _ _ _ (cross_pairs_count _ _) Hcross) as [Heven Hle].
  pose proof (pairs_length parents) as Hpairs.
  rewrite Hlen. split; [done|]. split; [by rewrite <- Hlen|].
  exists parents, r. split; [done | lia].
Qed.

(** X8. However [run] ends, it has changed no configuration attribute, the
    population has the length it had, the history has only been extended,
    the generation counter has not gone back and no existing individual has
    a different genome. *)
Theorem run_frame (fuel : nat) s :
  wf s ->
  settings (snd (run fuel s)) = settings s /\
  length (population (snd (run fuel s))) = length (population s) /\
  history s `prefix_of` history (snd (run fuel s)) /\
  generations s <= generations (snd (run fuel s)) /\
  (forall l, (l < length (heap s))%nat ->
     genome (deref (snd (run fuel s)) l) = genome (deref s l)) /\
  wf (snd (run fuel s)).
Proof.
  intros Hwf. destruct (run_spec fuel s Hwf) as (Hstep & _).
  split; [apply Hstep|]. split; [apply Hstep|]. split; [apply Hstep|].
  split; [apply Hstep|]. split; [|by apply Hstep].
  intros l Hl. by apply Hstep.
Qed.

(** X9. With a crossover probability of 0 or less no pass has offspring, the
    counter stands still, and a run that enters the loop below its budget
    never returns. *)
Theorem run_without_crossover_never_returns (fuel : nat) s :
  wf s -> (cx_prob s <= 0)%Q -> (forall r, (0 <= fst (rng_random r))%Q) ->
  total_evaluations (snd (warm_up s)) < max_evaluations s ->
  fst (fst (run fuel s)) <> Returned /\
  (forall s0 k s1, (cx_prob s0 <= 0)%Q -> iteration s0 = (Ok k, s1) ->
     k = 0%nat /\ total_evaluations s1 = total_evaluations s0).
Proof.
  intros Hwf Hcx Hnn Hlt. split.
  - revert Hlt. unfold run. destruct (warm_up s) as [r s1] eqn:Hw.
    destruct (warm_up_effect s _ s1 Hwf Hw) as (_ & _ & _ & _ & Hset & _).
    unfold settings in Hset. injection Hset as _ _ _ _ Hc _ _ Hm.
    destruct r as [[]|e]; simpl; [|done].
    intros Hlt. apply loop_never_returns; [by rewrite Hc | done | lia].
  - intros s0 k s1 Hcx0 Hi.
    pose proof (iteration_post_at s0) as Hpost. rewrite Hi in Hpost.
    destruct Hpost as (_ & _ & _ & _ & Ht & _).
    apply (iteration_idle s0 k s1 Hcx0 Hnn) in Hi as ->. split; [done | simpl in Ht; lia].
Qed.

(** *** [seed] *)

Lemma seed_with_cache pool_size time_limit s fs cached :
  population_seeds fs (pop_size s) = Some cached ->
  seed pool_size time_limit s fs
  = match cached with
    | [] => (Raise IndexError, set_population [] (set_heap (heap s ++ []) s), fs)
    | _ :: _ => (Ok tt, installed cached s, fs)
    end.
Proof.
  intros Hc. unfold seed. rewrite Hc, seed_install_cases. by destruct cached.
Qed.

Lemma installed_frame (seeded_pop : list Indv) s :
  rng (installed seeded_pop s) = rng s /\
  qwop_evaluator (installed seeded_pop s) = qwop_evaluator s /\
  total_evaluations (installed seeded_pop s) = total_evaluations s /\
  pop_size (installed seeded_pop s) = pop_size s /\
  population (installed seeded_pop s) = seq (length (heap s)) (length seeded_pop) /\
  best_indv (installed seeded_pop s) = Some (length (heap s)) /\
  (forall l, (l < length (heap s))%nat -> deref (installed seeded_pop s) l = deref s l) /\
  (forall l, l ∈ population (installed seeded_pop s) ->
             fitness (deref (installed seeded_pop s) l) = None).
Proof.
  repeat split; try done.
  - intros l Hl. unfold deref, installed. simpl. by rewrite lookup_app_l.
  - intros l Hl. simpl in Hl. apply elem_of_seq in Hl as [Hge Hlt].
    destruct (fitness _) as [f|] eqn:Ef; [|done]. exfalso.
    assert (Hin : deref (installed seeded_pop s) l ∈ population_values (installed seeded_pop s)).
    { unfold population_values. apply list_elem_of_fmap. exists l. split; [done|].
      simpl. apply elem_of_seq. lia. }
    rewrite installed_values in Hin.
    apply list_elem_of_fmap in Hin as (i & Hi & _). by rewrite Hi in Ef.
Qed.

(** What [seed] leaves when it returns: the state installed from the content
    of the seed file, on top of the state [base] in which the file was read. *)
Lemma seed_ok pool_size time_limit s fs s' fs' :
  seed pool_size time_limit s fs = (Ok tt, s', fs') ->
  exists cached base,
    population_seeds fs' (pop_size s) = Some cached /\ cached <> [] /\
    s' = installed cached base /\
    (length (heap s) <= length (heap base))%nat /\
    (forall l, (l < length (heap s))%nat -> deref base l = deref s l) /\
    total_evaluations base = total_evaluations s /\
    (population_seeds fs (pop_size s) = Some cached /\ base = s /\ fs' = fs \/
     population_seeds fs (pop_size s) = None /\ descending cached).
Proof.
  unfold seed. destruct (population_seeds fs (pop_size s)) as [cached|] eqn:Ec.
  - rewrite seed_install_cases. destruct cached as [|i rest]; [done|].
    intros [= <- <-]. exists (i :: rest), s. rewrite Ec.
    split; [done|]. split; [done|]. split; [done|]. split; [done|].
    split; [done|]. split; [done|]. by left.
  - pose proof (seed_generate_spec pool_size time_limit s) as Hg.
    pose proof (seed_generate_effect pool_size time_limit s) as He.
    unfold wp in Hg, He.
    destruct (seed_generate pool_size time_limit s) as [[population|e] s1]; [|done].
    simpl in Hg, He. destruct Hg as [(Ht & _ & Hps & _) _].
    destruct He as (Hlen & Hold & Hdesc & _).
    rewrite seed_install_cases. destruct population as [|i rest]; [done|].
    intros [= <- <-]. exists (i :: rest), s1. simpl.
    rewrite Hps, Z.eqb_refl.
    split; [done|]. split; [done|]. split; [done|]. split; [done|].
    split; [done|]. split; [done|]. by right.
Qed.

(** X10. When the seed file of the population size exists, [seed] ignores
    its arguments: it draws no random number, makes no evaluation, leaves the
    evaluator, the files and every existing individual as they are, and the
    population consists of new objects, the file's individuals with their
    fitness reset. An empty file makes [self.population[0]] fail. *)
Theorem seed_reuses_cache pool_size time_limit s fs cached :
  population_seeds fs (pop_size s) = Some cached ->
  (cached = [] -> fst (fst (seed pool_size time_limit s fs)) = Raise IndexError) /\
  (cached <> [] ->
   exists s', seed pool_size time_limit s fs = (Ok tt, s', fs) /\
     population_values s' = map unscored cached /\
     rng s' = rng s /\ qwop_evaluator s' = qwop_evaluator s /\
     total_evaluations s' = total_evaluations s /\
     (forall l, l ∈ population s' -> (length (heap s) <= l)%nat) /\
     (forall l, (l < length (heap s))%nat -> deref s' l = deref s l)).
Proof.
  intros Hc. rewrite (seed_with_cache _ _ _ _ _ Hc). split.
  - by intros ->.
  - intros Hne. destruct cached as [|i rest]; [done|].
    exists (installed (i :: rest) s). split; [done|].
    split; [apply installed_values|].
    destruct (installed_frame (i :: rest) s) as (Hr & He & Ht & _ & Hp & _ & Hold & _).
    repeat split; try done.
    intros l Hl. rewrite Hp in Hl. apply elem_of_seq in Hl. lia.
Qed.

(** X11. Seeding is repeatable: once [seed] has returned, a later [seed] on
    an engine of the same population size, whatever its arguments, returns
    with the same population by value and leaves the files as they are. *)
Theorem seed_twice_same_population pool_size time_limit s fs s1 fs1
    pool_size2 time_limit2 s2 :
  seed pool_size time_limit s fs = (Ok tt, s1, fs1) ->
  pop_size s2 = pop_size s ->
  exists s2', seed pool_size2 time_limit2 s2 fs1 = (Ok tt, s2', fs1) /\
    population_values s2' = population_values s1.
Proof.
  intros (cached & base & Hc & Hne & -> & _)%seed_ok Hps.
  rewrite <- Hps in Hc. rewrite (seed_with_cache _ _ _ _ _ Hc).
  destruct cached as [|i rest]; [done|].
  exists (installed (i :: rest) s2). split; [done|]. by rewrite !installed_values.
Qed.

(** X12. When [seed] returns, the population consists of distinct new
    objects without a fitness and [best_indv] is its first member; the
    warm-up of the next [run] then evaluates every member, so that the
    counter advances by the size of the population. *)
Theorem seed_then_warm_up pool_size time_limit s fs s' fs' :
  seed pool_size time_limit s fs = (Ok tt, s', fs') ->
  NoDup (population s') /\
  (forall l, l ∈ population s' ->
     fitness (deref s' l) = None /\ (length (heap s) <= l)%nat) /\
  best_indv s' = head (population s') /\
  (forall l, (l < length (heap s))%nat -> deref s' l = deref s l) /\
  (forall s'', warm_up s' = (Ok tt, s'') ->
     total_evaluations s''
     = total_evaluations s + Z.of_nat (length (population s'))).
Proof.
  intros Hseed.
  pose proof (seed_spec pool_size time_limit s fs) as Hspec. rewrite Hseed in Hspec.
  destruct Hspec as (_ & _ & _ & _ & _ & Hok). destruct (Hok eq_refl) as (Hwf & _).
  apply seed_ok in Hseed
    as (cached & base & _ & Hne & -> & Hlen & Hold & Ht & _).
  destruct (installed_frame cached base) as (_ & _ & Ht' & _ & Hp & Hb & Hold' & Hnone).
  assert (Hnd : NoDup (population (installed cached base))).
  { rewrite Hp. apply NoDup_seq. }
  split; [done|]. split; [|split; [|split]].
  - intros l Hl. split; [by apply Hnone|].
    rewrite Hp in Hl. apply elem_of_seq in Hl. lia.
  - rewrite Hb, Hp. by destruct cached.
  - intros l Hl. rewrite Hold' by lia. by apply Hold.
  - intros s'' Hw.
    destruct (warm_up_effect _ _ s'' Hwf Hw) as (_ & _ & _ & _ & _ & _ & _ & _ & Hcount).
    destruct (Hcount eq_refl) as [_ ->]; [|done].
    rewrite unevaluated_all by done. rewrite Ht', Ht. done.
Qed.

(** X13. The seed file [seed] writes lists individuals that all carry a
    fitness, in descending order of fitness. *)
Theorem seed_cache_descending pool_size time_limit s fs cached :
  population_seeds fs (pop_size s) = None ->
  population_seeds (snd (seed pool_size time_limit s fs)) (pop_size s) = Some cached ->
  descending cached.
Proof.
  intros Hnone. unfold seed. rewrite Hnone.
  pose proof (seed_generate_spec pool_size time_limit s) as Hg.
  pose proof (seed_generate_effect pool_size time_limit s) as He.
  unfold wp in Hg, He.
  destruct (seed_generate pool_size time_limit s) as [[population|e] s1]; simpl in *.
  - destruct Hg as [(_ & _ & Hps & _) _]. destruct He as (_ & _ & Hdesc & _).
    destruct (seed_install population s1) as [r s2]. simpl.
    rewrite Hps, Z.eqb_refl. by intros [= <-].
  - by rewrite Hnone.
Qed.

(** X14. [seed] has no [finally]: when it generates a pool of at least one
    individual and raises, the exception is the [IndexError] of an evaluation
    without measurement, no file has been written, and the evaluator is left
    with the temporary time limit of the seeder. *)
Theorem seed_failure_keeps_time_limit pool_size time_limit s fs e s' fs' :
  population_seeds fs (pop_size s) = None -> 0 < pool_size ->
  seed pool_size time_limit s fs = (Raise e, s', fs') ->
  e = IndexError /\ fs' = fs /\
  qwop_evaluator s' = set_simulator_time_limit time_limit (qwop_evaluator s).
Proof.
  intros Hnone Hpos. unfold seed. rewrite Hnone.
  pose proof (seed_generate_spec pool_size time_limit s) as Hg.
  pose proof (seed_generate_effect pool_size time_limit s) as He.
  unfold wp in Hg, He.
  destruct (seed_generate pool_size time_limit s) as [[population|e0] s1]; simpl in *.
  - destruct Hg as [_ Hlen]. rewrite seed_install_cases.
    destruct population as [|i rest]; [simpl in Hlen; lia | done].
  - destruct He as (_ & _ & -> & Hev). by intros [= <- <- <-].
Qed.

(** *** [load] *)

(** X15. Resuming grants the whole budget again: a run that returns after
    [load] of a saved state has made at least as many evaluations as the saved
    run had made plus the budget the loading engine was constructed with. *)
Theorem resume_grants_fresh_budget (fuel : nat) saved loader fs trace s' :
  wf saved ->
  run fuel (snd (load loader (save_current_state saved fs))) = (Returned, trace, s') ->
  total_evaluations saved + max_evaluations loader <= total_evaluations s'.
Proof.
  intros Hwf. pose proof (load_wf saved loader fs Hwf) as Hwfl.
  pose proof (load_after_save saved loader fs) as (_ & _ & _ & _ & _ & Hmax & _).
  set (loaded := snd (load loader (save_current_state saved fs))) in *.
  unfold run. destruct (warm_up loaded) as [[[]|e] s1] eqn:Hw; [|done].
  destruct (warm_up_effect loaded _ s1 Hwfl Hw) as (_ & _ & _ & _ & Hset & _).
  unfold settings in Hset. injection Hset as _ _ _ _ _ _ _ Hm.
  intros (Hge & Hm' & _)%loop_returned. lia.
Qed.

(** *** [save_results] *)

(** X16. After a run that returned having made at least one pass,
    [save_results] succeeds: the results file reports the best fitness and
    the average fitness of the last history row, and the figure has one
    point per history row. *)
Theorem save_results_after_pass (fuel : nat) s k rest s' out :
  wf s -> is_Some (best_indv s) -> run fuel s = (Returned, k :: rest, s') ->
  exists data figure row,
    save_results s' out = (Ok tt, mkReports (Some data) (Some figure)) /\
    last (history s') = Some row /\
    rd_best_fitness data = h_best row /\
    rd_average_fitness data = h_average row /\
    fig_generations figure = h_generation <$> history s'.
Proof.
  intros Hwf Hbest. unfold run. destruct (warm_up s) as [[[]|e] s1] eqn:Hw; [|done].
  destruct (warm_up_effect s _ s1 Hwf Hw) as (Hwf1 & _ & _ & _ & _ & Hb1 & _ & _ & Hok).
  destruct (Hok eq_refl) as [Hdom1 _].
  intros [[[=] _] | (s0 & k0 & Hwf0 & Hbest0 & Hdom0 & Hit)]%loop_last; auto.
  pose proof (pass_post_at s0 Hwf0) as Hpost. rewrite Hit in Hpost. simpl in Hpost.
  destruct Hpost as (Hsome & _ & Hd & Hrow).
  destruct (Hsome Hbest0) as [b Hb].
  destruct Hrow as [[Hnone _] | (avg & Hh & Hm)]; [congruence|].
  assert (Hdata : results_data s'
            = Ok (mkResultsDoc
                    (mkConfig (max_evaluations s') (eval_time_limit s') (pop_size s')
                       (cx_prob s') (mt_prob s') (steady_state s') (random_seed s'))
                    (genome (deref s' b)) (fitness (deref s' b)) avg)).
  { unfold results_data. by rewrite Hb, Hm. }
  assert (Hbf : fitness (deref s' b) = best_fitness s').
  { unfold best_fitness. by rewrite Hb. }
  eexists _, (mkFigure (h_generation <$> history s') (h_best <$> history s')
                (h_average <$> history s')), _.
  split; [|split; [|split; [|split]]].
  - assert (Hplot : plot s'
              = Ok (mkFigure (h_generation <$> history s') (h_best <$> history s')
                      (h_average <$> history s'))).
    { unfold plot. destruct (history s') eqn:E; [|done]. by destruct (history s0). }
    unfold save_results. by rewrite Hdata, Hplot.
  - rewrite Hh. apply last_snoc.
  - simpl. done.
  - done.
  - done.
Qed.

(** X17. After a run that returned without making a pass on an engine whose
    history was empty, [save_results] fails: no figure is written, and when
    the results can be computed the results file is written and the
    exception is the [IndexError] of [plot]. *)
Theorem save_results_needs_history (fuel : nat) s s' out :
  wf s -> history s = [] -> run fuel s = (Returned, [], s') ->
  fst (save_results s' out) <> Ok tt /\
  fitness_vs_time (snd (save_results s' out)) = fitness_vs_time out /\
  (forall data, results_data s' = Ok data ->
     save_results s' out = (Raise IndexError, mkReports (Some data) (fitness_vs_time out))).
Proof.
  intros Hwf Hempty. unfold run. destruct (warm_up s) as [[[]|e] s1] eqn:Hw; [|done].
  destruct (warm_up_effect s _ s1 Hwf Hw) as (_ & _ & Hhi1 & _).
  intros (_ & _ & [[_ ->] | (k & rest & [=] & _)])%loop_returned.
  assert (Hplot : plot s1 = Raise IndexError).
  { unfold plot. by rewrite Hhi1, Hempty. }
  unfold save_results. rewrite Hplot.
  destruct (results_data s1) as [data|e]; simpl.
  - split; [done|]. split; [done|]. by intros ? [= <-].
  - split; [done|]. split; [done|]. by intros ? [=].
Qed.

(** *** [run] on an engine that has returned *)

Lemma warm_loop_noop (pop : list loc) s b fb :
  best_indv s = Some b -> fitness (deref s b) = Some fb ->
  (forall l, l ∈ pop -> exists f, fitness (deref s l) = Some f /\ (f <= fb)%Q) ->
  for_each pop warm_step s = (Ok tt, s).
Proof.
  intros Hb Hfb. induction pop as [|a t IH]; intros Hall; [done|].
  destruct (Hall a) as (f & Hf & Hle); [left|].
  assert (Hstep : warm_step a s = (Ok tt, s)).
  { unfold warm_step, bind, get. simpl. rewrite Hf. simpl. rewrite Hb, Hfb.
    unfold lift, py_gt. rewrite Hf. apply Qltb_ge in Hle. by rewrite Hle. }
  cbn [for_each]. unfold bind. rewrite Hstep. apply IH.
  intros l Hl. apply Hall. by right.
Qed.

(** X18. Calling [run] again on an engine whose [run] has returned after at
    least one pass does nothing: no evaluation, no pass, the same state. *)
Theorem run_again_is_a_no_op (fuel fuel' : nat) s k rest s' :
  wf s -> is_Some (best_indv s) -> run fuel s = (Returned, k :: rest, s') ->
  run (S fuel') s' = (Returned, [], s').
Proof.
  intros Hwf Hbest. unfold run at 1.
  destruct (warm_up s) as [[[]|e] s1] eqn:Hw; [|done].
  destruct (warm_up_effect s _ s1 Hwf Hw) as (Hwf1 & _ & _ & _ & _ & Hb1 & _ & _ & Hok).
  destruct (Hok eq_refl) as [Hdom1 _]. intros Hl.
  pose proof (loop_returned _ _ _ _ _ Hl) as (Hge & _).
  apply loop_last in Hl as [[[=] _] | (s0 & k0 & Hwf0 & Hbest0 & Hdom0 & Hit)]; auto.
  pose proof (pass_post_at s0 Hwf0) as Hpost. rewrite Hit in Hpost. simpl in Hpost.
  destruct Hpost as (Hsome & _ & Hd & Hrow).
  destruct (Hsome Hbest0) as [b Hb].
  destruct Hrow as [[Hnone _] | (avg & _ & Hm)]; [congruence|].
  destruct (best_of_evaluated s' avg (Hd Hdom0) Hm) as [fb Hfb].
  apply py_mean_ok in Hm as [_ Hall].
  assert (Hwarm : warm_up s' = (Ok tt, s')).
  { apply (warm_loop_noop (population s') s' b fb); [done | |].
    - unfold best_fitness in Hfb. by rewrite Hb in Hfb.
    - intros l Hl. destruct (Hall (fitness (deref s' l))) as [f Hf].
      { apply list_elem_of_fmap. eauto. }
      exists f. split; [done|].
      destruct (Hd Hdom0 l f Hl Hf) as (fb' & Hfb' & Hle). rewrite Hfb in Hfb'.
      by simplify_eq. }
  unfold run. rewrite Hwarm. simpl.
  apply Z.ltb_ge in Hge. by rewrite Hge.
Qed.

(** *** [Individual.clone] *)

(** X19. [clone] returns a new object that equals the original by value and
    changes nothing else; assigning a fitness to the clone afterwards leaves
    the original as it is, and assigning one to the original leaves the
    clone. *)
Theorem clone_is_independent s self :
  (self < length (heap s))%nat ->
  exists s',
    clone self s = (Ok (length (heap s)), s') /\
    deref s' (length (heap s)) = deref s self /\
    (forall l, (l < length (heap s))%nat -> deref s' l = deref s l) /\
    s' = set_heap (heap s') s /\
    (forall f, deref (set_fitness (length (heap s)) f s') self = deref s self) /\
    (forall f, deref (set_fitness self f s') (length (heap s)) = deref s self).
Proof.
  intros Hself. eexists. split; [reflexivity|].
  set (s1 := set_heap (heap s ++ [mkIndividual (genome (deref s self)) None]) s).
  set (s2 := set_fitness (length (heap s)) (fitness (deref s self)) s1).
  assert (Hnew1 : deref s1 (length (heap s)) = mkIndividual (genome (deref s self)) None).
  { apply deref_lookup. unfold s1. simpl. by rewrite lookup_app_r, Nat.sub_diag. }
  assert (Hlen1 : length (heap s1) = S (length (heap s))).
  { unfold s1. simpl. rewrite length_app. simpl. lia. }
  assert (Hnew2 : deref s2 (length (heap s)) = deref s self).
  { unfold s2. rewrite deref_set_fitness_eq by lia. rewrite Hnew1. simpl.
    by destruct (deref s self). }
  assert (Hold2 : forall l, (l < length (heap s))%nat -> deref s2 l = deref s l).
  { intros l Hl. unfold s2. rewrite deref_set_fitness_ne by lia.
    unfold s1. by rewrite deref_alloc. }
  split; [exact Hnew2|]. split; [exact Hold2|]. split; [done|]. split.
  - intros f. rewrite deref_set_fitness_ne by lia. by apply Hold2.
  - intros f. rewrite deref_set_fitness_ne by lia. exact Hnew2.
Qed.

End Coverage.

(** ** The further properties on the concrete strategy *)

Section CoverageInstances.
Import Demo.

#[local] Abbreviation run5 := (run (ops := sum_ops) 3 (fresh 5)).
#[local] Abbreviation warmed := (snd (warm_up (ops := sum_ops) (fresh 5))).

(** [cx_prob=0.0], all else as in the scenario, budget 10. *)
Definition idle : St :=
  match construct_with sum_ops (mkConfig 10 600 4 0 0 true 1) 0 with
  | Ok s => s
  | Raise _ => blank
  end.

(** The strategy class of the scenario without [generate_random_genome]: the
    genomes are [None], for which the backend reports no measurement. *)
Definition no_generate_strategy : Strategy Genome Phenotype Rng := {|
  s_generate_random_genome := None;
  s_genome_to_phenotype := s_genome_to_phenotype sum_strategy;
  s_compute_fitness := s_compute_fitness sum_strategy;
  s_select_parents := s_select_parents sum_strategy;
  s_crossover := s_crossover sum_strategy;
  s_mutate := s_mutate sum_strategy;
  s_repair := s_repair sum_strategy;
  s_replace := s_replace sum_strategy
|}.

Definition no_generate_ops : Operators Genome Phenotype Rng := resolve no_generate_strategy.

Definition ungenerated : St :=
  match construct_with no_generate_ops (scenario 5) 0 with
  | Ok s => s
  | Raise _ => blank
  end.

(** The seed file of population size 4 that [reseeded_storage] holds. *)
Definition seed_4 : list (Individual Genome) :=
  default [] (population_seeds reseeded_storage 4).

Lemma run5_returned : run5 = (Returned, [2%nat], snd run5).
Proof. vm_compute. reflexivity. Qed.

Lemma first_run_wf : wf first_run.
Proof. apply (run_spec (ops := sum_ops) 3 (fresh 5) (fresh_wf 5)), fresh_wf. Qed.

Lemma construction_establishes_witness :
  0 < c_pop_size (scenario 5) /\
  exists s, __init__ (ops := sum_ops) (scenario 5) 0 = Ok s /\
            Z.of_nat (length (population s)) = 4.
Proof.
  split; [reflexivity|].
  destruct (construction_establishes (ops := sum_ops) (scenario 5) 0 eq_refl)
    as (s & Hs & Hlen & _).
  exists s. split; [exact Hs | exact Hlen].
Defined.

Lemma warm_up_evaluates_the_unevaluated_witness :
  wf (fresh 5) /\ NoDup (population (fresh 5)) /\
  warm_up (ops := sum_ops) (fresh 5) = (Ok tt, warmed) /\
  total_evaluations warmed = 4.
Proof.
  assert (Hw : warm_up (ops := sum_ops) (fresh 5) = (Ok tt, warmed))
    by (vm_compute; reflexivity).
  split; [apply fresh_wf|]. split; [apply (NoDup_seq 0 4)|]. split; [exact Hw|].
  exact (proj1 (warm_up_evaluates_the_unevaluated (ops := sum_ops) (fresh 5) warmed
                  (fresh_wf 5) (NoDup_seq 0 4) Hw)).
Defined.

Lemma run_best_dominates_witness :
  wf (fresh 5) /\ run5 = (Returned, [2%nat], snd run5) /\ best_dominates (snd run5).
Proof.
  split; [apply fresh_wf|]. split; [exact run5_returned|].
  exact (run_best_dominates (ops := sum_ops) 3 (fresh 5) [2%nat] (snd run5)
           (fresh_wf 5) run5_returned).
Defined.

Lemma run_rows_per_pass_witness :
  wf (fresh 5) /\ is_Some (best_indv (fresh 5)) /\
  run5 = (Returned, [2%nat], snd run5) /\
  generations (snd run5) = 2 /\
  h_generation <$> rows_since (fresh 5) (snd run5) = [1].
Proof.
  split; [apply fresh_wf|]. split; [by exists 0%nat|]. split; [exact run5_returned|].
  exact (run_rows_per_pass (ops := sum_ops) 3 (fresh 5) Returned [2%nat] (snd run5)
           (fresh_wf 5) (ex_intro _ 0%nat eq_refl) run5_returned).
Defined.

Lemma run_total_exact_witness :
  run5 = (Returned, [2%nat], snd run5) /\ (forall e, Returned <> Raised e) /\
  total_evaluations (snd run5) = 4 + 2.
Proof.
  split; [exact run5_returned|]. split; [discriminate|].
  exact (run_total_exact (ops := sum_ops) 3 (fresh 5) Returned [2%nat] (snd run5)
           run5_returned (fun e => ltac:(discriminate))).
Defined.

Lemma pass_offspring_count_witness :
  iteration (ops := sum_ops) warmed = (Ok 2%nat, snd (iteration (ops := sum_ops) warmed)) /\
  Nat.Even 2 /\
  total_evaluations (snd (iteration (ops := sum_ops) warmed)) = total_evaluations warmed + 2.
Proof.
  assert (Hi : iteration (ops := sum_ops) warmed
               = (Ok 2%nat, snd (iteration (ops := sum_ops) warmed)))
    by (vm_compute; reflexivity).
  split; [exact Hi|].
  pose proof (pass_offspring_count (ops := sum_ops) warmed 2
                (snd (iteration (ops := sum_ops) warmed)) Hi) as (Heven & Ht & _).
  split; [exact Heven | exact Ht].
Defined.

Lemma run_frame_witness :
  wf (fresh 5) /\ settings (snd run5) = settings (fresh 5) /\
  length (population (snd run5)) = length (population (fresh 5)).
Proof.
  split; [apply fresh_wf|].
  pose proof (run_frame (ops := sum_ops) 3 (fresh 5) (fresh_wf 5)) as (Hs & Hl & _).
  split; [exact Hs | exact Hl].
Defined.

Lemma idle_constructed :
  __init__ (ops := sum_ops) (mkConfig 10 600 4 0 0 true 1) 0 = Ok idle.
Proof. vm_compute. reflexivity. Qed.

Lemma idle_wf : wf idle.
Proof. exact (proj1 (construct_spec _ _ _ idle_constructed)). Qed.

Lemma counter_random_nonnegative (r : Rng) : (0 <= fst (rng_random r))%Q.
Proof.
  unfold Qle. simpl. pose proof (Z.mod_pos_bound r 10 eq_refl). lia.
Qed.

Lemma run_without_crossover_never_returns_witness :
  wf idle /\ (cx_prob idle <= 0)%Q /\ (forall r : Rng, (0 <= fst (rng_random r))%Q) /\
  total_evaluations (snd (warm_up (ops := sum_ops) idle)) < max_evaluations idle /\
  fst (fst (run (ops := sum_ops) 7 idle)) <> Returned.
Proof.
  assert (Hcx : (cx_prob idle <= 0)%Q) by (vm_compute; discriminate).
  assert (Hlt : total_evaluations (snd (warm_up (ops := sum_ops) idle)) < max_evaluations idle)
    by (vm_compute; reflexivity).
  split; [apply idle_wf|]. split; [exact Hcx|].
  split; [exact counter_random_nonnegative|]. split; [exact Hlt|].
  exact (proj1 (run_without_crossover_never_returns (ops := sum_ops) 7 idle idle_wf Hcx
                  counter_random_nonnegative Hlt)).
Defined.

Lemma seed_4_cached : population_seeds reseeded_storage (pop_size (fresh 5)) = Some seed_4.
Proof. vm_compute. reflexivity. Qed.

Lemma seed_reuses_cache_witness :
  population_seeds reseeded_storage (pop_size (fresh 5)) = Some seed_4 /\
  seed_4 <> [] /\
  exists s', seed (ops := sum_ops) 9 9 (fresh 5) reseeded_storage
             = (Ok tt, s', reseeded_storage) /\
    rng s' = rng (fresh 5) /\ total_evaluations s' = total_evaluations (fresh 5).
Proof.
  assert (Hne : seed_4 <> []) by (vm_compute; discriminate).
  split; [exact seed_4_cached|]. split; [exact Hne|].
  destruct (proj2 (seed_reuses_cache (ops := sum_ops) 9 9 (fresh 5) reseeded_storage
                     seed_4 seed_4_cached) Hne) as (s' & Hs & _ & Hr & _ & Ht & _).
  exists s'. split; [exact Hs|]. split; [exact Hr | exact Ht].
Defined.

Lemma reseeded_returned :
  seed (ops := sum_ops) 2 60 resumed storage = (Ok tt, reseeded, reseeded_storage).
Proof. vm_compute. reflexivity. Qed.

Lemma seed_twice_same_population_witness :
  seed (ops := sum_ops) 2 60 resumed storage = (Ok tt, reseeded, reseeded_storage) /\
  pop_size (fresh 5) = pop_size resumed /\
  exists s2', seed (ops := sum_ops) 7 7 (fresh 5) reseeded_storage
              = (Ok tt, s2', reseeded_storage) /\
    population_values s2' = population_values reseeded.
Proof.
  assert (Hps : pop_size (fresh 5) = pop_size resumed) by (vm_compute; reflexivity).
  split; [exact reseeded_returned|]. split; [exact Hps|].
  exact (seed_twice_same_population (ops := sum_ops) 2 60 resumed storage reseeded
           reseeded_storage 7 7 (fresh 5) reseeded_returned Hps).
Defined.

Lemma seed_then_warm_up_witness :
  seed (ops := sum_ops) 2 60 resumed storage = (Ok tt, reseeded, reseeded_storage) /\
  NoDup (population reseeded) /\ best_indv reseeded = head (population reseeded).
Proof.
  split; [exact reseeded_returned|].
  pose proof (seed_then_warm_up (ops := sum_ops) 2 60 resumed storage reseeded
                reseeded_storage reseeded_returned) as (Hnd & _ & Hb & _).
  split; [exact Hnd | exact Hb].
Defined.

Lemma seed_cache_descending_witness :
  population_seeds storage (pop_size resumed) = None /\
  population_seeds (snd (seed (ops := sum_ops) 2 60 resumed storage)) (pop_size resumed)
  = Some seed_4 /\
  descending seed_4.
Proof.
  assert (Hc : population_seeds (snd (seed (ops := sum_ops) 2 60 resumed storage))
                 (pop_size resumed) = Some seed_4) by (vm_compute; reflexivity).
  split; [reflexivity|]. split; [exact Hc|].
  exact (seed_cache_descending (ops := sum_ops) 2 60 resumed storage seed_4 eq_refl Hc).
Defined.

Lemma seed_failure_keeps_time_limit_witness :
  population_seeds (no_files (Genome := Genome)) (pop_size ungenerated) = None /\
  0 < 2 /\
  seed (ops := no_generate_ops) 2 60 ungenerated no_files
  = (Raise IndexError, snd (fst (seed (ops := no_generate_ops) 2 60 ungenerated no_files)),
     no_files) /\
  qwop_evaluator (snd (fst (seed (ops := no_generate_ops) 2 60 ungenerated no_files)))
  = (600, 60).
Proof.
  assert (Hs : seed (ops := no_generate_ops) 2 60 ungenerated no_files
               = (Raise IndexError,
                  snd (fst (seed (ops := no_generate_ops) 2 60 ungenerated no_files)),
                  no_files)) by (vm_compute; reflexivity).
  split; [reflexivity|]. split; [reflexivity|]. split; [exact Hs|].
  exact (proj2 (proj2 (seed_failure_keeps_time_limit (ops := no_generate_ops) 2 60
                         ungenerated no_files IndexError _ no_files eq_refl eq_refl Hs))).
Defined.

Lemma resume_grants_fresh_budget_witness :
  wf first_run /\
  run (ops := sum_ops) 12 resumed
  = (Returned, snd (fst (run (ops := sum_ops) 12 resumed)),
     snd (run (ops := sum_ops) 12 resumed)) /\
  total_evaluations first_run + max_evaluations (fresh 20)
  <= total_evaluations (snd (run (ops := sum_ops) 12 resumed)).
Proof.
  assert (Hr : run (ops := sum_ops) 12 resumed
               = (Returned, snd (fst (run (ops := sum_ops) 12 resumed)),
                  snd (run (ops := sum_ops) 12 resumed))) by (vm_compute; reflexivity).
  split; [exact first_run_wf|]. split; [exact Hr|].
  exact (resume_grants_fresh_budget (ops := sum_ops) 12 first_run (fresh 20) no_files _ _
           first_run_wf Hr).
Defined.

Lemma save_results_after_pass_witness :
  wf (fresh 5) /\ is_Some (best_indv (fresh 5)) /\
  run5 = (Returned, [2%nat], snd run5) /\
  exists data figure row,
    save_results (snd run5) (mkReports None None)
    = (Ok tt, mkReports (Some data) (Some figure)) /\
    last (history (snd run5)) = Some row /\
    rd_average_fitness data = h_average row.
Proof.
  split; [apply fresh_wf|]. split; [by exists 0%nat|]. split; [exact run5_returned|].
  destruct (save_results_after_pass (ops := sum_ops) 3 (fresh 5) 2 [] (snd run5)
              (mkReports None None) (fresh_wf 5) (ex_intro _ 0%nat eq_refl) run5_returned)
    as (data & figure & row & Hs & Hl & _ & Ha & _).
  exists data, figure, row. split; [exact Hs|]. split; [exact Hl | exact Ha].
Defined.

Lemma run3_returned :
  run (ops := sum_ops) 1 (fresh 3) = (Returned, [], snd (run (ops := sum_ops) 1 (fresh 3))).
Proof. vm_compute. reflexivity. Qed.

Lemma save_results_needs_history_witness :
  wf (fresh 3) /\ history (fresh 3) = [] /\
  run (ops := sum_ops) 1 (fresh 3) = (Returned, [], snd (run (ops := sum_ops) 1 (fresh 3))) /\
  fst (save_results (snd (run (ops := sum_ops) 1 (fresh 3))) (mkReports None None)) <> Ok tt.
Proof.
  split; [apply fresh_wf|]. split; [reflexivity|]. split; [exact run3_returned|].
  exact (proj1 (save_results_needs_history (ops := sum_ops) 1 (fresh 3) _
                  (mkReports None None) (fresh_wf 3) eq_refl run3_returned)).
Defined.

Lemma run_again_is_a_no_op_witness :
  wf (fresh 5) /\ is_Some (best_indv (fresh 5)) /\
  run5 = (Returned, [2%nat], snd run5) /\
  run (ops := sum_ops) 1 (snd run5) = (Returned, [], snd run5).
Proof.
  split; [apply fresh_wf|]. split; [by exists 0%nat|]. split; [exact run5_returned|].
  exact (run_again_is_a_no_op (ops := sum_ops) 3 0 (fresh 5) 2 [] (snd run5)
           (fresh_wf 5) (ex_intro _ 0%nat eq_refl) run5_returned).
Defined.

Lemma clone_is_independent_witness :
  (0 < length (heap (fresh 5)))%nat /\
  exists s', clone 0%nat (fresh 5) = (Ok 4%nat, s') /\
    deref s' 4%nat = deref (fresh 5) 0%nat /\
    deref (set_fitness 4%nat (Some 1%Q) s') 0%nat = deref (fresh 5) 0%nat.
Proof.
  assert (Hlt : (0 < length (heap (fresh 5)))%nat) by (vm_compute; lia).
  split; [exact Hlt|].
  destruct (clone_is_independent (fresh 5) 0%nat Hlt) as (s' & Hc & Hv & _ & _ & Hi & _).
  exists s'. split; [exact Hc|]. split; [exact Hv | exact (Hi (Some 1%Q))].
Defined.

End CoverageInstances.
